(** * braid: the M3U8 downloader ([m3u8_downloader.py])

    A shallow embedding of the class [M3U8Downloader] and of the properties
    its specification states about it.  The interpreter's strings and
    integers, the HTTP session, the playlist parser, the thread pool, the
    remux program and the file system are collaborators of the class: the
    first two are modelled by functions of this file, the others are
    oracles gathered in the record [env], and every effect the class has on
    them is logged as an [event]. *)

From Stdlib Require Import ZArith NArith Lia Ascii String FunctionalExtensionality.
From Stdlib Require Import Sorting.Sorted Sorting.Permutation.
From stdpp Require Import base tactics option list sorting strings gmap.

(** * Strings of the interpreter *)

Module PyStr.

(** The order of [str]: code point by code point. *)
Definition le (a b : string) : Prop := String.leb a b = true.
Definition lt (a b : string) : Prop := String.compare a b = Lt.

(** [c in s] for a single character. *)
Fixpoint contains_char (c : ascii) (s : string) : bool :=
  match s with
  | EmptyString => false
  | String d s' => if Ascii.eqb c d then true else contains_char c s'
  end.

(** [s.split(c)] for a separator of one character: never empty, one more
    field than there are separators. *)
Fixpoint split (c : ascii) (s : string) : list string :=
  match s with
  | EmptyString => [EmptyString]
  | String d s' =>
      if Ascii.eqb c d then EmptyString :: split c s'
      else match split c s' with
           | [] => [String d EmptyString]
           | f :: fs => String d f :: fs
           end
  end.

(** [s.split(c, 1)]: cut at the first separator only. *)
Fixpoint split1 (c : ascii) (s : string) : list string :=
  match s with
  | EmptyString => [EmptyString]
  | String d s' =>
      if Ascii.eqb c d then [EmptyString; s']
      else match split1 c s' with
           | [] => [String d EmptyString]
           | f :: fs => String d f :: fs
           end
  end.

(** [str.isspace] on one character of the ASCII range. *)
Definition is_space (c : ascii) : bool :=
  let n := N_of_ascii c in
  ((9 <=? n) && (n <=? 13) || (28 <=? n) && (n <=? 32))%N.

Fixpoint lstrip (s : string) : string :=
  match s with
  | EmptyString => EmptyString
  | String c s' => if is_space c then lstrip s' else s
  end.

Fixpoint rstrip (s : string) : string :=
  match s with
  | EmptyString => EmptyString
  | String c s' =>
      match rstrip s' with
      | EmptyString => if is_space c then EmptyString else String c EmptyString
      | r => String c r
      end
  end.

Definition strip (s : string) : string := rstrip (lstrip s).

(** [str.lower] on the ASCII range. *)
Definition lower_char (c : ascii) : ascii :=
  let n := N_of_ascii c in
  if ((65 <=? n) && (n <=? 90))%N then ascii_of_N (n + 32) else c.

Fixpoint lower (s : string) : string :=
  match s with
  | EmptyString => EmptyString
  | String c s' => String (lower_char c) (lower s')
  end.

(** [a in b] on strings. *)
Fixpoint is_substring (a b : string) : bool :=
  if String.prefix a b then true
  else match b with
       | EmptyString => false
       | String _ b' => is_substring a b'
       end.

(** Decimal digits. *)
Definition digit_char (d : N) : ascii := ascii_of_N (48 + d).

Definition is_digit (c : ascii) : bool :=
  let n := N_of_ascii c in ((48 <=? n) && (n <=? 57))%N.

Definition digit_val (c : ascii) : N := (N_of_ascii c - 48)%N.

Fixpoint decimal_digits (fuel : nat) (n : N) : string :=
  match fuel with
  | O => EmptyString
  | S fuel' =>
      if (n <? 10)%N then String (digit_char n) EmptyString
      else decimal_digits fuel' (n / 10) +:+ String (digit_char (n mod 10)) EmptyString
  end.

(** [str(n)] for [n >= 0]; a number has no more decimal than binary digits. *)
Definition of_N (n : N) : string := decimal_digits (S (N.to_nat (N.log2 n))) n.

(** [str(z)], which is also what [f"{z}"] prints. *)
Definition of_Z (z : Z) : string :=
  if (z <? 0)%Z then String "-" (of_N (Z.abs_N z)) else of_N (Z.to_N z).

Fixpoint parse_digits (acc : N) (s : string) : option N :=
  match s with
  | EmptyString => Some acc
  | String c s' =>
      if is_digit c then parse_digits (10 * acc + digit_val c) s' else None
  end.

(** [s.isdigit()]: not empty and digits only. *)
Definition isdigit (s : string) : bool :=
  match s with
  | EmptyString => false
  | _ => bool_decide (is_Some (parse_digits 0 s))
  end.

(** [int(s)] on an optional sign followed by digits; [None] stands for
    [ValueError]. *)
Definition to_int (s : string) : option Z :=
  match s with
  | EmptyString => None
  | String c s' =>
      if Ascii.eqb c "-" then
        if bool_decide (s' = EmptyString) then None
        else n ← parse_digits 0 s'; Some (- Z.of_N n)%Z
      else if Ascii.eqb c "+" then
        if bool_decide (s' = EmptyString) then None
        else n ← parse_digits 0 s'; Some (Z.of_N n)
      else n ← parse_digits 0 s; Some (Z.of_N n)
  end.

Fixpoint zeros (k : nat) : string :=
  match k with
  | O => EmptyString
  | S k' => String "0" (zeros k')
  end.

(** [f"{n:05d}"] for [n >= 0]: at least [width] characters, zeros on the
    left. *)
Definition zero_pad (width : nat) (n : N) : string :=
  let s := of_N n in zeros (width - String.length s) +:+ s.

(** A text of the ASCII range: on such a text [strip], [lower], [isdigit]
    and, up to [max_str_digits] digits, [to_int] are the methods of [str]
    and [int]. *)
Definition is_ascii_char (c : ascii) : bool := (N_of_ascii c <? 128)%N.

Fixpoint is_ascii (s : string) : bool :=
  match s with
  | EmptyString => true
  | String c s' => is_ascii_char c && is_ascii s'
  end.

(** [sys.int_info.default_max_str_digits]: [int] raises [ValueError] on a
    longer number. *)
Definition max_str_digits : N := 4300.

End PyStr.

(** [sorted(l)] and [l.sort()]: a stable sort; [le_b a b] decides whether [a]
    may stay in front of [b]. *)
Section stable_sort.
Context {A : Type} (le_b : A → A → bool).

Fixpoint insert_sorted (x : A) (l : list A) : list A :=
  match l with
  | [] => [x]
  | y :: l' => if le_b x y then x :: y :: l' else y :: insert_sorted x l'
  end.

Fixpoint stable_sort (l : list A) : list A :=
  match l with
  | [] => []
  | x :: l' => insert_sorted x (stable_sort l')
  end.
End stable_sort.

(** [sorted] on a list of [str]. *)
Definition sorted (l : list string) : list string := stable_sort String.leb l.

(** * The collaborators *)

(** The six fields of [urllib.parse.urlparse]'s result. *)
Record ParseResult := {
  scheme : string; netloc : string; path : string;
  params : string; query : string; fragment : string }.

(** What [m3u8.loads] returns: a document whose [playlists] are the variants
    of a master playlist and whose [segments] are those of a media playlist. *)
Record StreamInfo := { resolution : option (Z * Z); bandwidth : option Z }.
Record Playlist := { playlist_uri : string; stream_info : StreamInfo }.
Record Segment := { segment_uri : string }.
Record M3U8 := { playlists : list Playlist; segments : list Segment; data : string }.

Inductive exn :=
| HTTPError (status : Z)
| ConnectionError
| Timeout
| RequestException
| ParseFailure
| AttributeError
| TypeError
| IndexError
| ValueError
| EOFError
| OSError
| FfmpegError.

(** [requests.Response]: [response_url] is the address that finally answered, after
    redirects. *)
Record Response := { status_code : Z; response_url : string; content : string }.

Inductive http_outcome := Responded (r : Response) | Failed (e : exn).

(** One item of the console's input: a line, or the interrupt key. *)
Inductive input_item := Line (s : string) | Interrupt.

(** Every [print] of the class, named after what it says. *)
Inductive message :=
| MsgFetching (u : string)
| MsgData (d : string)
| MsgMaster
| MsgCompleted
| MsgError (e : exn)
| MsgForbidden
| MsgTryDifferentUrl
| MsgNotFound
| MsgHttpError (status : Z)
| MsgConnectionError
| MsgTimeout
| MsgParseError (e : exn)
| MsgNoVariants
| MsgAvailable
| MsgQuality (i : nat) (res : string) (bw : option Z)
| MsgQualityNotFound (q : string)
| MsgPrompt (n : nat)
| MsgInvalidChoice (n : nat)
| MsgCancelled
| MsgSelected (res : string)
| MsgNoSegments
| MsgDownloading (n : nat)
| MsgSegmentError (index : nat) (e : exn)
| MsgFailedSegments (k : Z)
| MsgNothingToConvert
| MsgConverting (out : string)
| MsgConverted (out : string)
| MsgConversionError (e : exn)
| MsgTryingAlternative
| MsgAlternativeConverted (out : string)
| MsgAlternativeFailed (e : exn)
| MsgAddingHeaders
| MsgAddedHeaders (n : nat)
| MsgHeaderError (e : exn)
| MsgCleanupWarning (e : exn).

(** What a request is sent for: a playlist ([_parse_playlist]) or the segment
    a worker holds ([download_segment], with its arguments). *)
Inductive purpose := APlaylist | ASegment (index : nat) (segment : Segment).

(** What the class does to the world, in the order it does it. *)
Inductive event :=
| EPrint (m : message)
| EHeaders (h : gmap string string)
| EGet (p : purpose) (u : string)
| EMkdtemp (dir : string)
| EWriteBytes (file : string) (payload : string)
| EWriteLines (file : string) (lines : list string)
| EProgress (n : nat)
| EFfmpeg (vcodec acodec : string) (concat_file : string) (out : string)
| ERmtree (dir : string).

Global Instance exn_eq_dec : EqDecision exn.
Proof. solve_decision. Defined.
Global Instance message_eq_dec : EqDecision message.
Proof. solve_decision. Defined.
Global Instance Segment_eq_dec : EqDecision Segment.
Proof. solve_decision. Defined.
Global Instance purpose_eq_dec : EqDecision purpose.
Proof. solve_decision. Defined.
Global Instance event_eq_dec : EqDecision event.
Proof. solve_decision. Defined.

(** The oracles: the library functions the class calls and the answers of
    the world.  [http k u] answers the request number [k] of the session,
    sent to [u]; [gettempdir] and [mkdtemp_name] are the directory for
    temporary files and the random name [tempfile.mkdtemp] draws ([None]
    when the directory cannot be made); [scheduler] says which worker of the
    pool moves next; [ffmpeg_run] reads the lines of the concat file.
    [urlparse] and [urljoin] raise [ValueError] on an address they cannot
    read: [urlparse_raises] and [urljoin_raises] say when, and what the
    functions return matters only when they do not raise.  A write to a file
    raises [OSError] when the file system refuses it: [store_ok k file]
    answers the write of the payload of the request number [k], and
    [concat_ok vcodec file] the write of the concat file by the conversion
    that runs ffmpeg with [vcodec]. *)
Record env := {
  urlparse : string → ParseResult;
  urljoin : string → string → string;
  m3u8_loads : string → option M3U8;
  http : nat → string → http_outcome;
  gettempdir : string;
  mkdtemp_name : option string;
  scheduler : list nat;
  ffmpeg_run : string → string → list string → string → bool;
  rmtree_ok : string → bool;
  urlparse_raises : string → bool;
  urljoin_raises : string → string → bool;
  store_ok : nat → string → bool;
  concat_ok : string → string → bool }.

(** * The object and its effects *)

(** The fields of [self] the methods use, with the state of the world: the
    events so far, the requests sent, the input not yet read, the directories
    that exist. *)
Record state := {
  temp_dir : option string;
  segment_files : list string;
  trace : list event;
  sent : nat;
  stdin : list input_item;
  dirs : gset string }.

(** [__init__], before a console input [inp]. *)
Definition init (inp : list input_item) : state :=
  {| temp_dir := None; segment_files := []; trace := []; sent := 0;
     stdin := inp; dirs := ∅ |}.

Inductive result (A : Type) := Ok (a : A) | Raise (e : exn).
Arguments Ok {A} a.
Arguments Raise {A} e.

(** A method: it runs from a state, ends in a state, and returns or raises. *)
Definition M (A : Type) : Type := state → result A * state.

Definition ret {A} (a : A) : M A := λ st, (Ok a, st).
Definition raise {A} (e : exn) : M A := λ st, (Raise e, st).
Definition bind {A B} (m : M A) (k : A → M B) : M B :=
  λ st, match m st with
        | (Ok a, st') => k a st'
        | (Raise e, st') => (Raise e, st')
        end.
(** [try: m  except Exception as e: h e] *)
Definition try_except {A} (m : M A) (h : exn → M A) : M A :=
  λ st, match m st with
        | (Ok a, st') => (Ok a, st')
        | (Raise e, st') => h e st'
        end.
(** [try: m  finally: f] *)
Definition try_finally {A} (m : M A) (f : M unit) : M A :=
  λ st, match m st with
        | (r, st') =>
            match f st' with
            | (Ok _, st'') => (r, st'')
            | (Raise e, st'') => (Raise e, st'')
            end
        end.

Declare Scope py_scope.
Delimit Scope py_scope with py.
Notation "x <- m ;; k" := (bind m (λ x, k))
  (at level 100, m at next level, right associativity) : py_scope.
Notation "m ;; k" := (bind m (λ _, k))
  (at level 100, right associativity) : py_scope.
Open Scope py_scope.

Definition get {A} (f : state → A) : M A := λ st, (Ok (f st), st).
Definition emit (e : event) : M unit :=
  λ st, (Ok (), {| temp_dir := temp_dir st; segment_files := segment_files st;
                   trace := trace st ++ [e]; sent := sent st;
                   stdin := stdin st; dirs := dirs st |}).
Definition print (m : message) : M unit := emit (EPrint m).
Definition set_temp_dir (d : string) : M unit :=
  λ st, (Ok (), {| temp_dir := Some d; segment_files := segment_files st;
                   trace := trace st; sent := sent st;
                   stdin := stdin st; dirs := dirs st |}).
Definition append_segment_file (f : string) : M unit :=
  λ st, (Ok (), {| temp_dir := temp_dir st;
                   segment_files := segment_files st ++ [f];
                   trace := trace st; sent := sent st;
                   stdin := stdin st; dirs := dirs st |}).
Definition set_dirs (f : gset string → gset string) : M unit :=
  λ st, (Ok (), {| temp_dir := temp_dir st; segment_files := segment_files st;
                   trace := trace st; sent := sent st;
                   stdin := stdin st; dirs := f (dirs st) |}).
(** [input()]: the next line, [KeyboardInterrupt] as [None], [EOFError] when
    the input is over. *)
Definition input : M (option string) :=
  λ st, match stdin st with
        | [] => (Raise EOFError, st)
        | i :: rest =>
            (Ok (match i with Line s => Some s | Interrupt => None end),
             {| temp_dir := temp_dir st; segment_files := segment_files st;
                trace := trace st; sent := sent st;
                stdin := rest; dirs := dirs st |})
        end.

(** [session.get(u, timeout=30)]: the request is sent, and the world answers
    or the call raises. *)
Definition session_get (E : env) (p : purpose) (u : string) : M Response :=
  λ st, let st' := {| temp_dir := temp_dir st; segment_files := segment_files st;
                      trace := trace st ++ [EGet p u]; sent := S (sent st);
                      stdin := stdin st; dirs := dirs st |} in
        match http E (sent st) u with
        | Responded r => (Ok r, st')
        | Failed e => (Raise e, st')
        end.

(** [response.raise_for_status()] *)
Definition raise_for_status (r : Response) : M unit :=
  if bool_decide (400 ≤ status_code r < 600)%Z
  then raise (HTTPError (status_code r)) else ret ().

(** [os.path.join(a, b)] of [posixpath]. *)
Definition ends_with_sep (a : string) : bool :=
  match String.get (String.length a - 1) a with
  | Some c => Ascii.eqb c "/"
  | None => false
  end.

Definition os_path_join (a b : string) : string :=
  if String.prefix "/" b then b
  else if bool_decide (a = "") || ends_with_sep a then a +:+ b
  else a +:+ "/" +:+ b.

(** [tempfile.mkdtemp(prefix=prefix)]: a new directory, named by the prefix
    and a random name, in the directory for temporary files. *)
Definition mkdtemp (E : env) (prefix : string) : M string :=
  match mkdtemp_name E with
  | None => raise OSError
  | Some name =>
      let d := os_path_join (gettempdir E) (prefix +:+ name) in
      emit (EMkdtemp d);;
      set_dirs (λ ds, {[d]} ∪ ds);;
      ret d
  end.

(** [urlparse(u)] and [urljoin(base, ref)]: [ValueError] on an address
    they cannot read. *)
Definition py_urlparse (E : env) (u : string) : M ParseResult :=
  if urlparse_raises E u then raise ValueError else ret (urlparse E u).

Definition py_urljoin (E : env) (base ref : string) : M string :=
  if urljoin_raises E base ref then raise ValueError
  else ret (urljoin E base ref).

(** [with open(file, 'wb') as f: f.write(payload)], for the payload of the
    request number [k]: the file is written, or [OSError]. *)
Definition write_bytes (E : env) (k : nat) (file payload : string) : M unit :=
  if store_ok E k file then emit (EWriteBytes file payload) else raise OSError.

(** [with open(file, 'w') as f: ... f.write(line)], in the conversion with
    [vcodec]. *)
Definition write_lines (E : env) (vcodec file : string) (lines : list string)
  : M unit :=
  if concat_ok E vcodec file then emit (EWriteLines file lines)
  else raise OSError.

(** * The methods of [M3U8Downloader] *)

(** The dictionary [_add_custom_headers] builds from
    ["Name: Value, Name: Value"]. *)
Definition parse_headers (headers_str : string) : gmap string string :=
  foldl (λ headers header_pair,
           if PyStr.contains_char ":" header_pair then
             match PyStr.split1 ":" header_pair with
             | [key; value] => <[PyStr.strip key := PyStr.strip value]> headers
             | _ => headers
             end
           else headers)
        ∅ (PyStr.split "," headers_str).

Definition _add_custom_headers (headers_str : string) : M unit :=
  try_except
    (if bool_decide (PyStr.strip headers_str = "") then ret ()
     else
       print MsgAddingHeaders;;
       let headers := parse_headers headers_str in
       if bool_decide (headers = ∅) then ret ()
       else emit (EHeaders headers);; print (MsgAddedHeaders (size headers)))
    (λ e, print (MsgHeaderError e)).

(** [_parse_playlist]: [None] after any failure, with a message that depends
    on the failure. *)
Definition _parse_playlist (E : env) (u : string) : M (option M3U8) :=
  try_except
    (response <- session_get E APlaylist u;;
     raise_for_status response;;
     match m3u8_loads E (content response) with
     | Some playlist => ret (Some playlist)
     | None => raise ParseFailure
     end)
    (λ e,
       match e with
       | HTTPError status =>
           (if bool_decide (status = 403%Z) then
              print MsgForbidden;; print MsgTryDifferentUrl
            else if bool_decide (status = 404%Z) then print MsgNotFound
            else print (MsgHttpError status));;
           ret None
       | ConnectionError => print MsgConnectionError;; ret None
       | Timeout => print MsgTimeout;; ret None
       | _ => print (MsgParseError e);; ret None
       end).

(** One entry of the list [qualities]. *)
Record Quality := {
  quality_url : string;
  quality_resolution : string;
  quality_bandwidth : option Z;
  quality_playlist : Playlist }.

(** The loop that fills [qualities]: the variants that have a resolution. *)
Definition extract_qualities (ps : list Playlist) : list Quality :=
  omap (λ playlist,
          match resolution (stream_info playlist) with
          | Some (width, height) =>
              Some {| quality_url := playlist_uri playlist;
                      quality_resolution :=
                        PyStr.of_Z width +:+ "x" +:+ PyStr.of_Z height;
                      quality_bandwidth := bandwidth (stream_info playlist);
                      quality_playlist := playlist |}
          | None => None
          end) ps.

(** The sort key [int(x['resolution'].split('x')[1])]; [None] when it raises. *)
Definition height_key (x : Quality) : option Z :=
  PyStr.split "x" (quality_resolution x) !! 1%nat ≫= PyStr.to_int.

(** [qualities.sort(key=height_key, reverse=True)]: the keys are computed
    first, then the list is sorted on them, greatest first, entries with
    equal keys staying in their order. *)
Definition sort_by_height (qualities : list Quality) : option (list Quality) :=
  keyed ← mapM (λ x, k ← height_key x; Some (k, x)) qualities;
  Some (stable_sort (λ a b, (a.1 >=? b.1)%Z) keyed).*2.

Fixpoint print_qualities (i : nat) (qualities : list Quality) : M unit :=
  match qualities with
  | [] => ret ()
  | q :: rest =>
      print (MsgQuality i (quality_resolution q) (quality_bandwidth q));;
      print_qualities (S i) rest
  end.

(** The [while True] of the interactive selection; each turn reads one item
    of the input, so [fuel] above the length of the input is never used up. *)
Fixpoint interactive_select (fuel : nat) (qualities : list Quality)
  : M (option Quality) :=
  match fuel with
  | O => raise EOFError
  | S fuel' =>
      print (MsgPrompt (length qualities));;
      l <- input;;
      match l with
      | None => print MsgCancelled;; ret None
      | Some line =>
          let choice := PyStr.strip line in
          match (if PyStr.isdigit choice then PyStr.to_int choice else None) with
          | Some c =>
              if bool_decide (1 ≤ c ≤ Z.of_nat (length qualities))%Z then
                match qualities !! Z.to_nat (c - 1) with
                | Some q => ret (Some q)
                | None => raise IndexError
                end
              else print (MsgInvalidChoice (length qualities));;
                   interactive_select fuel' qualities
          | None => print (MsgInvalidChoice (length qualities));;
                    interactive_select fuel' qualities
          end
      end
  end.

(** An optional [str] in a condition: [None] and [""] are false. *)
Definition truthy (o : option string) : option string :=
  match o with
  | Some s => if bool_decide (s = "") then None else Some s
  | None => None
  end.

(** [l[0]] and [l[-1]] *)
Definition first_item {A} (l : list A) : M A :=
  match l with x :: _ => ret x | [] => raise IndexError end.
Definition last_item {A} (l : list A) : M A :=
  match last l with Some x => ret x | None => raise IndexError end.

Definition _select_quality (master_playlist : M3U8)
    (quality_preference : option string) : M (option string) :=
  if bool_decide (playlists master_playlist = []) then
    print MsgNoVariants;; ret None
  else
    let qualities := extract_qualities (playlists master_playlist) in
    match sort_by_height qualities with
    | None => raise ValueError
    | Some qualities =>
        print MsgAvailable;;
        print_qualities 1 qualities;;
        selected <-
          (if bool_decide (quality_preference = Some "best") then
             q <- first_item qualities;; ret (Some q)
           else if bool_decide (quality_preference = Some "worst") then
             q <- last_item qualities;; ret (Some q)
           else
             match truthy quality_preference with
             | Some preference =>
                 match find (λ q, PyStr.is_substring (PyStr.lower preference)
                                    (PyStr.lower (quality_resolution q)))
                            qualities with
                 | Some q => ret (Some q)
                 | None =>
                     print (MsgQualityNotFound preference);;
                     q <- first_item qualities;; ret (Some q)
                 end
             | None =>
                 n <- get (λ st, length (stdin st));;
                 interactive_select (S n) qualities
             end);;
        match selected with
        | None => ret None
        | Some q =>
            print (MsgSelected (quality_resolution q));;
            ret (Some (quality_url q))
        end
    end.

(** ** The thread pool

    [ThreadPoolExecutor(max_workers)] with every task submitted: the tasks
    wait in a queue in the order of submission, a free worker takes the head
    of the queue, and any busy worker may be the next to finish.  A task is
    run in one piece when its worker finishes.  The choice [0] lets a free
    worker take a task (when there is none, the first busy worker finishes);
    the choice [S j] makes the busy worker number [j] finish.  Each step
    starts or finishes one task, so twice as many steps as tasks are enough. *)
Section pool.
Context {T : Type} (work : T → M bool).

Fixpoint run_pool (fuel max_workers : nat) (choices : list nat)
    (queue running : list T) (completed : list (T * bool))
  : M (list (T * bool)) :=
  match fuel with
  | O => ret completed
  | S fuel' =>
      let finish j :=
        match running !! j with
        | Some t =>
            ok <- work t;;
            run_pool fuel' max_workers (tail choices) queue
                     (delete j running) (completed ++ [(t, ok)])
        | None => ret completed
        end in
      match queue, running with
      | [], [] => ret completed
      | t :: queue', [] =>
          if bool_decide (max_workers = 0)%nat then ret completed
          else run_pool fuel' max_workers (tail choices) queue' [t] completed
      | [], _ :: _ => finish (pred (hd 0%nat choices) `mod` length running)%nat
      | t :: queue', _ :: _ =>
          match hd 0%nat choices with
          | O =>
              if bool_decide (length running < max_workers)%nat then
                run_pool fuel' max_workers (tail choices) queue'
                         (running ++ [t]) completed
              else finish 0%nat
          | S j => finish (j `mod` length running)%nat
          end
      end
  end.
End pool.

(** The path [os.path.join(self.temp_dir, f"segment_{index:05d}.ts")]. *)
Definition segment_file_name (d : string) (index : nat) : string :=
  os_path_join d ("segment_" +:+ PyStr.zero_pad 5 (N.of_nat index) +:+ ".ts").

(** The closure [download_segment] of [_download_segments]: the address is
    formed, the request sent and the file written inside the [try]; [k] is
    the number of the request, by which the world answers the write. *)
Definition download_segment (E : env) (base_url : string)
    (segment : Segment) (index : nat) : M bool :=
  try_except
    (segment_url <- py_urljoin E base_url (segment_uri segment);;
     k <- get sent;;
     response <- session_get E (ASegment index segment) segment_url;;
     raise_for_status response;;
     d <- get temp_dir;;
     match d with
     | None => raise TypeError
     | Some d =>
         let segment_file := segment_file_name d index in
         write_bytes E k segment_file (content response);;
         append_segment_file segment_file;;
         emit (EProgress 1);;
         ret true
     end)
    (λ e, print (MsgSegmentError index e);; ret false).

(** [enumerate(playlist.segments)], one task for each pair. *)
Definition tasks_of (playlist : M3U8) : list (Segment * nat) :=
  imap (λ i segment, (segment, i)) (segments playlist).

(** [sum(1 for future in as_completed(futures) if future.result())] *)
Definition success_count {T} (results : list (T * bool)) : nat :=
  length (filter (λ r, r.2 = true) results).

Definition _download_segments (E : env) (playlist : M3U8) (base_url : string)
    (max_workers : Z) : M bool :=
  if bool_decide (segments playlist = []) then print MsgNoSegments;; ret false
  else
    d <- mkdtemp E "m3u8_download_";;
    set_temp_dir d;;
    print (MsgDownloading (length (segments playlist)));;
    if bool_decide (max_workers ≤ 0)%Z then raise ValueError
    else
      let tasks := tasks_of playlist in
      results <- run_pool (λ t, download_segment E base_url t.1 t.2)
                   (2 * length tasks) (Z.to_nat max_workers)
                   (scheduler E) tasks [] [];;
      if bool_decide (success_count results ≠ length (segments playlist)) then
        print (MsgFailedSegments
                 (Z.of_nat (length (segments playlist))
                  - Z.of_nat (success_count results)));;
        ret false
      else ret true.

(** ** Conversion *)

Definition newline : string := String (ascii_of_nat 10) EmptyString.

(** The lines written into [concat.txt]. *)
Definition concat_lines (files : list string) : list string :=
  map (λ segment_file, "file '" +:+ segment_file +:+ "'" +:+ newline) files.

(** The body both conversion methods share, inside their [try]: write
    [concat.txt] from the sorted [segment_files], then run ffmpeg on it with
    the given codecs. *)
Definition ffmpeg_concat (E : env) (vcodec acodec output_path : string) : M unit :=
  d <- get temp_dir;;
  match d with
  | None => raise TypeError
  | Some d =>
      let concat_file := os_path_join d "concat.txt" in
      files <- get segment_files;;
      write_lines E vcodec concat_file (concat_lines (sorted files));;
      emit (EFfmpeg vcodec acodec concat_file output_path);;
      if ffmpeg_run E vcodec acodec (concat_lines (sorted files)) output_path
      then ret () else raise FfmpegError
  end.

Definition _convert_alternative (E : env) (output_path : string) : M bool :=
  try_except
    (print MsgTryingAlternative;;
     ffmpeg_concat E "libx264" "aac" output_path;;
     print (MsgAlternativeConverted output_path);;
     ret true)
    (λ e, print (MsgAlternativeFailed e);; ret false).

Definition _convert_to_mp4 (E : env) (playlist : M3U8)
    (output_path : option string) : M bool :=
  files <- get segment_files;;
  if bool_decide (files = []) then print MsgNothingToConvert;; ret false
  else
    let output_path :=
      match truthy output_path with
      | Some p => p
      | None =>
          "downloaded_video_" +:+ PyStr.of_N (N.of_nat (length files))
                              +:+ "_segments.mp4"
      end in
    print (MsgConverting output_path);;
    try_except
      (ffmpeg_concat E "copy" "copy" output_path;;
       print (MsgConverted output_path);;
       ret true)
      (λ e, print (MsgConversionError e);; _convert_alternative E output_path).

(** ** Cleanup and the whole pipeline *)

Definition _cleanup (E : env) : M unit :=
  d <- get temp_dir;;
  ds <- get dirs;;
  match d with
  | Some d =>
      if bool_decide (d ≠ "") && bool_decide (d ∈ ds) then
        try_except
          (emit (ERmtree d);;
           if rmtree_ok E d then set_dirs (λ ds, ds ∖ {[d]}) else raise OSError)
          (λ e, print (MsgCleanupWarning e))
      else ret ()
  | None => ret ()
  end.

(** The address the selected variant is joined to:
    [f"{parsed_master.scheme}://{parsed_master.netloc}{parsed_master.path}"]. *)
Definition cleaned_master_url (E : env) (url : string) : string :=
  let parsed_master := urlparse E url in
  scheme parsed_master +:+ "://" +:+ netloc parsed_master +:+ path parsed_master.

Definition download_m3u8 (E : env) (url : string)
    (output_path quality : option string) (max_workers : Z)
    (custom_headers : option string) : M bool :=
  try_finally
    (try_except
       (print (MsgFetching url);;
        match truthy custom_headers with
        | Some headers_str => _add_custom_headers headers_str
        | None => ret ()
        end;;
        playlist <- _parse_playlist E url;;
        match playlist with
        | None => raise AttributeError
        | Some playlist =>
            print (MsgData (data playlist));;
            playlist <-
              (if bool_decide (playlists playlist ≠ []) then
                 print MsgMaster;;
                 selected_url <- _select_quality playlist quality;;
                 match truthy selected_url with
                 | Some selected_url =>
                     parsed_master <- py_urlparse E url;;
                     let cleaned_master_url :=
                       scheme parsed_master +:+ "://" +:+ netloc parsed_master
                                            +:+ path parsed_master in
                     fixed_selected_url <-
                       py_urljoin E cleaned_master_url selected_url;;
                     _parse_playlist E fixed_selected_url
                 | None => ret None
                 end
               else ret (Some playlist));;
            match playlist with
            | None => ret false
            | Some playlist =>
                ok <- _download_segments E playlist url max_workers;;
                if negb ok then ret false
                else
                  ok <- _convert_to_mp4 E playlist output_path;;
                  if negb ok then ret false
                  else print MsgCompleted;; ret true
            end
        end)
       (λ e, print (MsgError e);; ret false))
    (_cleanup E).

(** ** The command line *)






(** * What the properties are stated with *)

(** The [k] last digits of [n]. *)
Fixpoint fixed_digits (k : nat) (n : N) : string :=
  match k with
  | O => EmptyString
  | S k' => fixed_digits k' (n / 10) +:+ String (PyStr.digit_char (n mod 10)) EmptyString
  end.

(** What comes before the number in the name of a segment file. *)
Definition segment_prefix (d : string) : string :=
  (if bool_decide (d = "") || ends_with_sep d then d else d +:+ "/") +:+ "segment_".

(** The tasks run one after the other, in the order [ts]. *)
Fixpoint run_seq {T} (work : T → M bool) (ts : list T)
    (completed : list (T * bool)) : M (list (T * bool)) :=
  match ts with
  | [] => ret completed
  | t :: ts' => ok <- work t;; run_seq work ts' (completed ++ [(t, ok)])
  end.

(** The requests sent for playlists, in order. *)
Definition playlist_gets (evs : list event) : list string :=
  omap (λ e, match e with EGet APlaylist u => Some u | _ => None end) evs.

(** The requests sent for segments: index, segment and address. *)
Definition segment_gets (evs : list event) : list (nat * Segment * string) :=
  omap (λ e, match e with
             | EGet (ASegment i seg) u => Some (i, seg, u)
             | _ => None
             end) evs.

(** What the progress bar counts: the sum of its updates. *)
Definition progress_total (evs : list event) : nat :=
  sum_list (omap (λ e, match e with EProgress n => Some n | _ => None end) evs).

(** The indices the workers reported as failed, one error line each. *)
Definition segment_errors (evs : list event) : list nat :=
  omap (λ e, match e with
             | EPrint (MsgSegmentError i _) => Some i
             | _ => None
             end) evs.

(** The segment files written. *)
Definition stored_files (evs : list event) : list string :=
  omap (λ e, match e with EWriteBytes f _ => Some f | _ => None end) evs.

(** The codecs of the runs of ffmpeg, in order. *)
Definition ffmpeg_calls (evs : list event) : list (string * string) :=
  omap (λ e, match e with EFfmpeg v a _ _ => Some (v, a) | _ => None end) evs.

(** The contents written to [concat.txt]. *)
Definition concat_writes (evs : list event) : list (list string) :=
  omap (λ e, match e with EWriteLines _ l => Some l | _ => None end) evs.

Definition mkdtemp_calls (evs : list event) : list string :=
  omap (λ e, match e with EMkdtemp d => Some d | _ => None end) evs.

Definition rmtree_calls (evs : list event) : list string :=
  omap (λ e, match e with ERmtree d => Some d | _ => None end) evs.

(** The numbers [_download_segments] printed as "Downloading n segments". *)
Definition announced (evs : list event) : list nat :=
  omap (λ e, match e with EPrint (MsgDownloading n) => Some n | _ => None end) evs.

(** The numbers printed as "Failed to download k segments". *)
Definition failure_reports (evs : list event) : list Z :=
  omap (λ e, match e with EPrint (MsgFailedSegments k) => Some k | _ => None end) evs.

(** The part of [download_m3u8] an event comes from: finding the playlist,
    fetching the segments, converting, the end of the [try], the cleanup. *)
Inductive stage := Front | Fetch | Convert | Wrap | Cleanup.

Global Instance stage_eq_dec : EqDecision stage.
Proof. solve_decision. Defined.

Definition stage_of (e : event) : stage :=
  match e with
  | EPrint m =>
      match m with
      | MsgNoSegments | MsgDownloading _ | MsgSegmentError _ _
      | MsgFailedSegments _ => Fetch
      | MsgNothingToConvert | MsgConverting _ | MsgConverted _
      | MsgConversionError _ | MsgTryingAlternative
      | MsgAlternativeConverted _ | MsgAlternativeFailed _ => Convert
      | MsgCompleted | MsgError _ => Wrap
      | MsgCleanupWarning _ => Cleanup
      | _ => Front
      end
  | EHeaders _ | EGet APlaylist _ => Front
  | EGet (ASegment _ _) _ | EMkdtemp _ | EWriteBytes _ _ | EProgress _ => Fetch
  | EWriteLines _ _ | EFfmpeg _ _ _ _ => Convert
  | ERmtree _ => Cleanup
  end.

Definition from_stage (s : stage) (evs : list event) : Prop :=
  Forall (λ e, stage_of e = s) evs.

(** The answer to the request number [k], sent to [u], as [download_segment]
    takes it: the payload, or the exception of the request or of
    [raise_for_status]. *)
Definition segment_outcome (E : env) (k : nat) (u : string) : result string :=
  match http E k u with
  | Responded r =>
      if bool_decide (400 ≤ status_code r < 600)%Z
      then Raise (HTTPError (status_code r)) else Ok (content r)
  | Failed e => Raise e
  end.

(** What the task [t], sending the request number [k], does when
    [self.temp_dir] is [od]: its result, its events, the file it appends. *)
Definition task_result (E : env) (base_url : string) (od : option string)
    (k : nat) (t : Segment * nat) : result string :=
  if urljoin_raises E base_url (segment_uri t.1) then Raise ValueError
  else
    match segment_outcome E k (urljoin E base_url (segment_uri t.1)), od with
    | Ok payload, Some d =>
        if store_ok E k (segment_file_name d t.2) then Ok payload
        else Raise OSError
    | Ok _, None => Raise TypeError
    | Raise e, _ => Raise e
    end.

(** The requests the task sends: one, or none when its address cannot be
    formed. *)
Definition task_requests (E : env) (base_url : string) (t : Segment * nat)
  : list (nat * Segment * string) :=
  if urljoin_raises E base_url (segment_uri t.1) then []
  else [(t.2, t.1, urljoin E base_url (segment_uri t.1))].

Definition task_ok (E : env) (base_url : string) (od : option string)
    (k : nat) (t : Segment * nat) : bool :=
  match task_result E base_url od k t with Ok _ => true | Raise _ => false end.

Definition task_file (od : option string) (t : Segment * nat) : string :=
  segment_file_name (default "" od) t.2.

Definition task_events (E : env) (base_url : string) (od : option string)
    (k : nat) (t : Segment * nat) : list event :=
  ((λ r, EGet (ASegment r.1.1 r.1.2) r.2) <$> task_requests E base_url t)
  ++ match task_result E base_url od k t with
     | Ok payload => [EWriteBytes (task_file od t) payload; EProgress 1]
     | Raise e => [EPrint (MsgSegmentError t.2 e)]
     end.

(** The tasks that succeed and those that fail when they run in the order
    [ts], the first sending the request number [k]. *)
Fixpoint pool_ok (E : env) (base_url : string) (od : option string)
    (k : nat) (ts : list (Segment * nat)) : list bool :=
  match ts with
  | [] => []
  | t :: ts' =>
      task_ok E base_url od k t
      :: pool_ok E base_url od (k + length (task_requests E base_url t)) ts'
  end.

Fixpoint pool_events (E : env) (base_url : string) (od : option string)
    (k : nat) (ts : list (Segment * nat)) : list event :=
  match ts with
  | [] => []
  | t :: ts' =>
      task_events E base_url od k t
      ++ pool_events E base_url od (k + length (task_requests E base_url t)) ts'
  end.

(** The requests of the pool. *)
Definition pool_requests (E : env) (base_url : string)
    (ts : list (Segment * nat)) : list (nat * Segment * string) :=
  ts ≫= task_requests E base_url.

(** The tasks of [ts] that the flags [oks] mark, and those they do not. *)
Definition succeeded {T} (ts : list T) (oks : list bool) : list T :=
  (filter (λ r, r.2 = true) (zip ts oks)).*1.
Definition failed {T} (ts : list T) (oks : list bool) : list T :=
  (filter (λ r, r.2 = false) (zip ts oks)).*1.

(** [st'] is [st] after the events [evs], [k] requests and the new segment
    files [files], with the same temporary directory and directories. *)
Record extends (st st' : state) (evs : list event) (files : list string)
    (k : nat) : Prop := Extends {
  ext_trace : trace st' = trace st ++ evs;
  ext_files : segment_files st' = segment_files st ++ files;
  ext_sent : sent st' = (sent st + k)%nat;
  ext_temp_dir : temp_dir st' = temp_dir st;
  ext_dirs : dirs st' = dirs st }.

(** The directory [mkdtemp] makes when it draws [name]. *)
Definition temp_path (E : env) (name : string) : string :=
  os_path_join (gettempdir E) ("m3u8_download_" +:+ name).

(** A relation between the states before and after, kept by every step of a
    method, is kept by the method. *)
Definition preserves (R : relation state) {A} (m : M A) : Prop :=
  ∀ st, R st (m st).2.

(** An event of the first part of the pipeline that is not a request. *)
Definition silent (e : event) : Prop :=
  stage_of e = Front ∧ playlist_gets [e] = [].

(** The state moves by such events (and by reading the console); nothing
    else changes. *)
Definition talks (st st' : state) : Prop :=
  ∃ evs, extends st st' evs [] 0 ∧ Forall silent evs.

(** What a method returns, when it returns. *)
Definition returns {A} (P : A → Prop) (m : M A) : Prop :=
  ∀ st a, (m st).1 = Ok a → P a.

(** The name [_convert_to_mp4] gives the output when it has none. *)
Definition output_name (output_path : option string) (files : list string) : string :=
  match truthy output_path with
  | Some p => p
  | None => "downloaded_video_" +:+ PyStr.of_N (N.of_nat (length files))
                                +:+ "_segments.mp4"
  end.

(** The [try] block up to the playlist of segments: [None] when the method
    returns [False] before it has one. *)
Definition find_playlist (E : env) (url : string)
    (quality custom_headers : option string) : M (option M3U8) :=
  print (MsgFetching url);;
  match truthy custom_headers with
  | Some headers_str => _add_custom_headers headers_str
  | None => ret ()
  end;;
  playlist <- _parse_playlist E url;;
  match playlist with
  | None => raise AttributeError
  | Some playlist =>
      print (MsgData (data playlist));;
      if bool_decide (playlists playlist ≠ []) then
        print MsgMaster;;
        selected_url <- _select_quality playlist quality;;
        match truthy selected_url with
        | Some selected_url =>
            parsed_master <- py_urlparse E url;;
            let cleaned_master_url :=
              scheme parsed_master +:+ "://" +:+ netloc parsed_master
                                   +:+ path parsed_master in
            fixed_selected_url <- py_urljoin E cleaned_master_url selected_url;;
            _parse_playlist E fixed_selected_url
        | None => ret None
        end
      else ret (Some playlist)
  end.

(** The rest of the [try] block. *)
Definition fetch_and_convert (E : env) (url : string)
    (output_path : option string) (max_workers : Z)
    (playlist : option M3U8) : M bool :=
  match playlist with
  | None => ret false
  | Some playlist =>
      ok <- _download_segments E playlist url max_workers;;
      if negb ok then ret false
      else
        ok <- _convert_to_mp4 E playlist output_path;;
        if negb ok then ret false
        else print MsgCompleted;; ret true
  end.

(** The state moves by events of the first part of the pipeline, the
    requests for playlists being those sent to [gets]. *)
Definition front (st st' : state) (gets : list string) : Prop :=
  ∃ evs k, extends st st' evs [] k ∧ from_stage Front evs
           ∧ playlist_gets evs = gets.

(** What the first request of a run to [url] from [st] allows the requests
    for playlists to be. *)
Definition playlist_requests (E : env) (url : string) (st : state)
    (gets : list string) : Prop :=
  gets = [url]
  ∨ ∃ resp master v,
      http E (sent st) url = Responded resp
      ∧ m3u8_loads E (content resp) = Some master
      ∧ v ∈ playlists master ∧ resolution (stream_info v) ≠ None
      ∧ gets = [url; urljoin E (cleaned_master_url E url) (playlist_uri v)].

(** The events of a run of [download_m3u8] from [st] that returned [b] in
    [st'] are those of the five parts, in order: [_download_segments] is
    called at most once, on the address given, [_convert_to_mp4] only after
    it returned [True], and [_cleanup] last, in the state [st4], on the
    temporary directory [_download_segments] left. *)
Definition pipeline_run (E : env) (url : string) (out : option string)
    (K : Z) (st : state) (b : bool) (st' : state) : Prop :=
  ∃ e_front e_fetch e_conv e_wrap e_clean st4,
    trace st' = trace st ++ e_front ++ e_fetch ++ e_conv ++ e_wrap ++ e_clean
    ∧ from_stage Front e_front ∧ from_stage Fetch e_fetch
    ∧ from_stage Convert e_conv ∧ from_stage Wrap e_wrap
    ∧ from_stage Cleanup e_clean
    ∧ playlist_requests E url st (playlist_gets e_front)
    ∧ _cleanup E st4 = (Ok (), st')
    ∧ trace st' = trace st4 ++ e_clean
    ∧ ((e_fetch = [] ∧ e_conv = [] ∧ b = false
        ∧ temp_dir st4 = temp_dir st ∧ dirs st4 = dirs st)
       ∨ ∃ pl st1 r1 st2,
           _download_segments E pl url K st1 = (r1, st2)
           ∧ trace st2 = trace st1 ++ e_fetch
           ∧ temp_dir st1 = temp_dir st ∧ dirs st1 = dirs st
           ∧ segment_files st1 = segment_files st
           ∧ temp_dir st4 = temp_dir st2 ∧ dirs st4 = dirs st2
           ∧ (r1 ≠ Ok true → e_conv = [] ∧ b = false)
           ∧ (r1 = Ok true →
                ∃ st3, _convert_to_mp4 E pl out st2 = (Ok b, st3)
                       ∧ trace st3 = trace st2 ++ e_conv)).

(** The height of a variant, when it has a resolution. *)
Definition height (v : Playlist) : option Z := snd <$> resolution (stream_info v).

Definition quality_height (q : Quality) : Z :=
  default 0%Z (height (quality_playlist q)).

(** What the policy of the specification would select: a variant of the
    greatest height and, among those, of the greatest bandwidth. *)
Definition best_by_height_then_bandwidth (ps : list Playlist) (u : string) : Prop :=
  ∃ v h, v ∈ ps ∧ playlist_uri v = u ∧ height v = Some h
    ∧ ∀ v' h', v' ∈ ps → height v' = Some h' →
        (h' < h)%Z
        ∨ (h' = h ∧ (default 0 (bandwidth (stream_info v'))
                     ≤ default 0 (bandwidth (stream_info v)))%Z).

Module Demo.
(** Two variants of one height; the second has the greater bandwidth. *)
Definition tie : M3U8 :=
  {| playlists :=
       [ {| playlist_uri := "first.m3u8";
            stream_info := {| resolution := Some (1920, 1080)%Z;
                              bandwidth := Some 1000000%Z |} |};
         {| playlist_uri := "second.m3u8";
            stream_info := {| resolution := Some (1920, 1080)%Z;
                              bandwidth := Some 3000000%Z |} |} ];
     segments := []; data := "" |}.

(** A small [urlparse], for addresses [scheme://host/path?query#fragment]. *)
Definition parse_url (u : string) : ParseResult :=
  match String.index 0 "://" u with
  | None => {| scheme := ""; netloc := ""; path := u; params := "";
               query := ""; fragment := "" |}
  | Some i =>
      let rest := String.substring (i + 3) (String.length u - (i + 3)) u in
      let '(r1, frag) :=
        match PyStr.split1 "#" rest with [a; b] => (a, b) | _ => (rest, "") end in
      let '(r2, q) :=
        match PyStr.split1 "?" r1 with [a; b] => (a, b) | _ => (r1, "") end in
      let '(host, p) :=
        match PyStr.split1 "/" r2 with
        | [a; b] => (a, String "/" b)
        | _ => (r2, "")
        end in
      {| scheme := String.substring 0 i u; netloc := host; path := p;
         params := ""; query := q; fragment := frag |}
  end.

Fixpoint dir_of (s : string) : string :=
  match s with
  | EmptyString => EmptyString
  | String c s' =>
      if PyStr.contains_char "/" s' then String c (dir_of s')
      else if Ascii.eqb c "/" then "/" else EmptyString
  end.

(** A small [urljoin], for a reference that is absolute, starts at the
    root, or is relative to the directory of the base. *)
Definition join_url (base ref : string) : string :=
  let p := parse_url base in
  match String.index 0 "://" ref with
  | Some _ => ref
  | None =>
      if String.prefix "/" ref then scheme p +:+ "://" +:+ netloc p +:+ ref
      else scheme p +:+ "://" +:+ netloc p
           +:+ (if bool_decide (path p = "") then "/" else dir_of (path p))
           +:+ ref
  end.

(** A master playlist of two variants and the playlist of five segments
    of its second variant. *)
Definition master : M3U8 :=
  {| playlists :=
       [ {| playlist_uri := "low/index.m3u8";
            stream_info := {| resolution := Some (640, 360)%Z;
                              bandwidth := Some 500000%Z |} |};
         {| playlist_uri := "hd/index.m3u8";
            stream_info := {| resolution := Some (1920, 1080)%Z;
                              bandwidth := Some 3000000%Z |} |} ];
     segments := []; data := "master" |}.

Definition media : M3U8 :=
  {| playlists := [];
     segments := (λ u, {| segment_uri := u |})
                 <$> ["s0.ts"; "s1.ts"; "s2.ts"; "s3.ts"; "s4.ts"];
     data := "media" |}.

(** A playlist whose second segment has an address that cannot be read. *)
Definition broken : M3U8 :=
  {| playlists := [];
     segments := (λ u, {| segment_uri := u |})
                 <$> ["s0.ts"; "http://[bad/seg.ts"; "s2.ts"];
     data := "broken" |}.

Definition master_url : string := "https://cdn.example.com/v/master.m3u8?token=abc".

(** An address that opens a bracket after [://] and never closes it, as
    ["http://[bad/seg.ts"]: the addresses the library refuses to read. *)
Definition malformed (u : string) : bool :=
  PyStr.is_substring "://[" u && negb (PyStr.contains_char "]" u).

(** The world: the master playlist at [master_url], answered after a
    redirection; the playlist of its second variant; segments that answer
    with their own address, but for those of [timeouts]. *)
Definition world (timeouts : list string) (sched : list nat)
    (copy_ok : bool) (rm_ok : bool) : env :=
  {| urlparse := parse_url;
     urljoin := join_url;
     m3u8_loads := λ s,
       if bool_decide (s = "MASTER") then Some master
       else if bool_decide (s = "MEDIA") then Some media else None;
     http := λ k u,
       if bool_decide (u = master_url) then
         Responded {| status_code := 200;
                      response_url := "https://edge7.example.net/r/master.m3u8";
                      content := "MASTER" |}
       else if bool_decide (u = "https://cdn.example.com/v/hd/index.m3u8") then
         Responded {| status_code := 200; response_url := u; content := "MEDIA" |}
       else if bool_decide (u ∈ timeouts) then Failed Timeout
       else Responded {| status_code := 200; response_url := u; content := u |};
     gettempdir := "/tmp";
     mkdtemp_name := Some "k3x9";
     scheduler := sched;
     ffmpeg_run := λ vcodec acodec lines out,
       copy_ok || negb (bool_decide (vcodec = "copy"));
     rmtree_ok := λ _, rm_ok;
     urlparse_raises := malformed;
     urljoin_raises := λ base ref, malformed base || malformed ref;
     store_ok := λ _ _, true;
     concat_ok := λ _ _, true |}.

Definition run (E : env) : result bool * state :=
  download_m3u8 E master_url None (Some "best") 4 None (init []).
End Demo.

(** The environment in which every response claims to come from [f] of the
    address that answered: a redirection. *)
Definition redirected (f : string → string) (E : env) : env :=
  {| urlparse := urlparse E; urljoin := urljoin E; m3u8_loads := m3u8_loads E;
     http := λ k u,
       match http E k u with
       | Responded r =>
           Responded {| status_code := status_code r;
                        response_url := f (response_url r);
                        content := content r |}
       | Failed e => Failed e
       end;
     gettempdir := gettempdir E; mkdtemp_name := mkdtemp_name E;
     scheduler := scheduler E; ffmpeg_run := ffmpeg_run E;
     rmtree_ok := rmtree_ok E;
     urlparse_raises := urlparse_raises E; urljoin_raises := urljoin_raises E;
     store_ok := store_ok E; concat_ok := concat_ok E |}.

(** The environment in which the files are written as [store] and [concat]
    say. *)
Definition with_files (store : nat → string → bool)
    (concat : string → string → bool) (E : env) : env :=
  {| urlparse := urlparse E; urljoin := urljoin E; m3u8_loads := m3u8_loads E;
     http := http E; gettempdir := gettempdir E; mkdtemp_name := mkdtemp_name E;
     scheduler := scheduler E; ffmpeg_run := ffmpeg_run E;
     rmtree_ok := rmtree_ok E;
     urlparse_raises := urlparse_raises E; urljoin_raises := urljoin_raises E;
     store_ok := store; concat_ok := concat |}.

(** The requests [_download_segments] sends for the segments of [pl]: one
    for each segment whose address [urljoin] forms from [base_url]. *)
Definition requests_of (E : env) (base_url : string) (pl : M3U8)
  : list (nat * Segment * string) :=
  (λ t, (t.2, t.1, urljoin E base_url (segment_uri t.1)))
  <$> filter (λ t, urljoin_raises E base_url (segment_uri t.1) = false)
        (tasks_of pl).

(** ** For the properties of the other paths of the code *)

(** The updates of the headers of the session. *)
Definition header_updates (evs : list event) : list (gmap string string) :=
  omap (λ e, match e with EHeaders h => Some h | _ => None end) evs.

(** One step of the loop of [_add_custom_headers]. *)
Definition header_step (headers : gmap string string) (header_pair : string)
  : gmap string string :=
  if PyStr.contains_char ":" header_pair then
    match PyStr.split1 ":" header_pair with
    | [key; value] => <[PyStr.strip key := PyStr.strip value]> headers
    | _ => headers
    end
  else headers.

(** The entry of [qualities] made from a variant, when it has a resolution. *)
Definition quality_of (playlist : Playlist) : option Quality :=
  match resolution (stream_info playlist) with
  | Some (width, height) =>
      Some {| quality_url := playlist_uri playlist;
              quality_resolution :=
                PyStr.of_Z width +:+ "x" +:+ PyStr.of_Z height;
              quality_bandwidth := bandwidth (stream_info playlist);
              quality_playlist := playlist |}
  | None => None
  end.

(** [st] after the events [evs]. *)
Definition add_events (st : state) (evs : list event) : state :=
  {| temp_dir := temp_dir st; segment_files := segment_files st;
     trace := trace st ++ evs; sent := sent st;
     stdin := stdin st; dirs := dirs st |}.

(** The lines [_select_quality] prints under "Available qualities". *)
Definition quality_lines (i : nat) (qualities : list Quality) : list event :=
  imap (λ j q, EPrint (MsgQuality (i + j) (quality_resolution q)
                         (quality_bandwidth q))) qualities.

(** The choice of [_select_quality] among the sorted [qualities]. *)
Definition select_entry (quality_preference : option string)
    (qualities : list Quality) : M (option Quality) :=
  if bool_decide (quality_preference = Some "best") then
    q <- first_item qualities;; ret (Some q)
  else if bool_decide (quality_preference = Some "worst") then
    q <- last_item qualities;; ret (Some q)
  else
    match truthy quality_preference with
    | Some preference =>
        match find (λ q, PyStr.is_substring (PyStr.lower preference)
                           (PyStr.lower (quality_resolution q)))
                   qualities with
        | Some q => ret (Some q)
        | None =>
            print (MsgQualityNotFound preference);;
            q <- first_item qualities;; ret (Some q)
        end
    | None =>
        n <- get (λ st, length (stdin st));;
        interactive_select (S n) qualities
    end.

(** Whether the resolution of a variant, as printed, holds the preference. *)
Definition resolution_matches (preference : string) (v : Playlist) : bool :=
  match quality_of v with
  | Some q => PyStr.is_substring (PyStr.lower preference)
                (PyStr.lower (quality_resolution q))
  | None => false
  end.

(** The entries made from the two variants of [Demo.master], sorted. *)
Definition demo_hd : Quality :=
  {| quality_url := "hd/index.m3u8"; quality_resolution := "1920x1080";
     quality_bandwidth := Some 3000000%Z;
     quality_playlist :=
       {| playlist_uri := "hd/index.m3u8";
          stream_info := {| resolution := Some (1920, 1080)%Z;
                            bandwidth := Some 3000000%Z |} |} |}.

Definition demo_low : Quality :=
  {| quality_url := "low/index.m3u8"; quality_resolution := "640x360";
     quality_bandwidth := Some 500000%Z;
     quality_playlist :=
       {| playlist_uri := "low/index.m3u8";
          stream_info := {| resolution := Some (640, 360)%Z;
                            bandwidth := Some 500000%Z |} |} |}.

Definition demo_qualities : list Quality := [demo_hd; demo_low].

(** [st] with the input [rest] left to read. *)
Definition with_stdin (st : state) (rest : list input_item) : state :=
  {| temp_dir := temp_dir st; segment_files := segment_files st;
     trace := trace st; sent := sent st; stdin := rest; dirs := dirs st |}.

(** What the console shows for one line that is not a choice. *)
Definition invalid_turn (n : nat) : list event :=
  [EPrint (MsgPrompt n); EPrint (MsgInvalidChoice n)].

(** A line of the ASCII range that the interactive selection among [n]
    entries refuses: it is not a number or, a number that [int] reads, it is
    not between 1 and [n]. *)
Definition refused (n : nat) (line : string) : Prop :=
  PyStr.is_ascii line = true
  ∧ (PyStr.isdigit (PyStr.strip line) = true →
     (N.of_nat (String.length (PyStr.strip line)) ≤ PyStr.max_str_digits)%N
     ∧ ∀ c, PyStr.to_int (PyStr.strip line) = Some c →
            ¬ (1 ≤ c ≤ Z.of_nat n)%Z).

(** [st] after one request and the events [evs]. *)
Definition after_request (st : state) (evs : list event) : state :=
  {| temp_dir := temp_dir st; segment_files := segment_files st;
     trace := trace st ++ evs; sent := S (sent st);
     stdin := stdin st; dirs := dirs st |}.

(** What [_parse_playlist] prints for a response of an error status. *)
Definition status_report (status : Z) : list message :=
  if bool_decide (status = 403%Z) then [MsgForbidden; MsgTryDifferentUrl]
  else if bool_decide (status = 404%Z) then [MsgNotFound]
  else [MsgHttpError status].

(** What [_parse_playlist] prints when it has caught [e]. *)
Definition failure_report (e : exn) : list message :=
  match e with
  | HTTPError status => status_report status
  | ConnectionError => [MsgConnectionError]
  | Timeout => [MsgTimeout]
  | _ => [MsgParseError e]
  end.

(** The exception [_parse_playlist] catches, if any, when the request
    number [k] is sent to [u]. *)
Definition playlist_failure (E : env) (k : nat) (u : string) : option exn :=
  match http E k u with
  | Responded r =>
      if bool_decide (400 ≤ status_code r < 600)%Z
      then Some (HTTPError (status_code r))
      else match m3u8_loads E (content r) with
           | Some _ => None
           | None => Some ParseFailure
           end
  | Failed e => Some e
  end.

(** What [_parse_playlist] returns then. *)
Definition playlist_answer (E : env) (k : nat) (u : string) : option M3U8 :=
  match http E k u with
  | Responded r =>
      if bool_decide (400 ≤ status_code r < 600)%Z then None
      else m3u8_loads E (content r)
  | Failed e => None
  end.

Definition playlist_report (E : env) (k : nat) (u : string) : list message :=
  from_option failure_report [] (playlist_failure E k u).

(** What [_add_custom_headers] does with a string. *)
Definition header_events (headers_str : string) : list event :=
  if bool_decide (PyStr.strip headers_str = "") then []
  else EPrint MsgAddingHeaders
       :: (if bool_decide (parse_headers headers_str = ∅) then []
           else [EHeaders (parse_headers headers_str);
                 EPrint (MsgAddedHeaders (size (parse_headers headers_str)))]).

(** The events of [download_m3u8] before its first request. *)
Definition opening_events (url : string) (custom_headers : option string)
  : list event :=
  EPrint (MsgFetching url)
  :: match truthy custom_headers with
     | Some headers_str => header_events headers_str
     | None => []
     end.

(** The state in which [download_m3u8], called in [st], has the answer to
    its first request. *)
Definition first_answer (E : env) (url : string)
    (custom_headers : option string) (st : state) : state :=
  after_request (add_events st (opening_events url custom_headers))
    (EGet APlaylist url :: (EPrint <$> playlist_report E (sent st) url)).

(** The events of the first part of a run whose first answer is a playlist. *)
Definition answered_events (url : string) (custom_headers : option string)
    (pl : M3U8) : list event :=
  opening_events url custom_headers
  ++ [EGet APlaylist url; EPrint (MsgData (data pl))].

(** The events of [_convert_to_mp4] on the files [files], in the directory
    [d], when [concat.txt] is written or not and ffmpeg answers [copy_run],
    in the first try, and the same in the second. *)
Definition conversion_events (d : string) (files : list string)
    (out : option string) (copy_written copy_run trans_written trans_run : bool)
  : list event :=
  let lines := concat_lines (sorted files) in
  let out' := output_name out files in
  let concat_file := os_path_join d "concat.txt" in
  let attempt (written : bool) vcodec acodec :=
    if written
    then [EWriteLines concat_file lines; EFfmpeg vcodec acodec concat_file out']
    else [] in
  let failure (written : bool) := if written then FfmpegError else OSError in
  [EPrint (MsgConverting out')]
  ++ attempt copy_written "copy" "copy"
  ++ (if copy_written && copy_run then [EPrint (MsgConverted out')]
      else [EPrint (MsgConversionError (failure copy_written));
            EPrint MsgTryingAlternative]
           ++ attempt trans_written "libx264" "aac"
           ++ [EPrint (if trans_written && trans_run
                       then MsgAlternativeConverted out'
                       else MsgAlternativeFailed (failure trans_written))]).

(** * Facts about strings *)

Module PyStrFacts.
Import PyStr.

Lemma append_cons x a b : String x a +:+ b = String x (a +:+ b).
Proof. reflexivity. Qed.

Lemma ascii_compare_refl c : Ascii.compare c c = Eq.
Proof. apply N.compare_refl. Qed.

Lemma compare_refl s : String.compare s s = Eq.
Proof. induction s as [|c s IH]; simpl; [done|]. by rewrite ascii_compare_refl. Qed.

Lemma ascii_compare_lt_trans a b c :
  Ascii.compare a b = Lt → Ascii.compare b c = Lt → Ascii.compare a c = Lt.
Proof. unfold Ascii.compare. rewrite !N.compare_lt_iff. lia. Qed.

Lemma lt_trans a b c : lt a b → lt b c → lt a c.
Proof.
  unfold lt. revert b c.
  induction a as [|x a IH]; intros [|y b] [|z c]; simpl; try done.
  destruct (Ascii.compare x y) eqn:Hxy; try done.
  - apply Ascii.compare_eq_iff in Hxy as ->.
    destruct (Ascii.compare y z); try done. apply IH.
  - intros _. destruct (Ascii.compare y z) eqn:Hyz; try done.
    + apply Ascii.compare_eq_iff in Hyz as <-. by rewrite Hxy.
    + by rewrite (ascii_compare_lt_trans _ _ _ Hxy Hyz).
Qed.

Lemma le_lt_or_eq a b : le a b ↔ lt a b ∨ a = b.
Proof.
  unfold le, lt, String.leb. split.
  - destruct (String.compare a b) eqn:H; try done; [|by left].
    right. by apply String.compare_eq_iff.
  - intros [->| ->]; [done|]. by rewrite compare_refl.
Qed.

Lemma lt_irrefl a : ¬ lt a a.
Proof. unfold lt. by rewrite compare_refl. Qed.

Lemma lt_not_le a b : lt a b → ¬ le b a.
Proof.
  intros Hab [Hba| ->]%le_lt_or_eq.
  - by eapply lt_irrefl, lt_trans.
  - by eapply lt_irrefl.
Qed.

Global Instance le_trans : Transitive le.
Proof.
  intros a b c [Hab| ->]%le_lt_or_eq [Hbc| ->]%le_lt_or_eq;
    apply le_lt_or_eq; eauto using lt_trans.
Qed.

Global Instance le_antisym : AntiSymm (=) le.
Proof. intros a b. apply String.leb_antisym. Qed.

Global Instance le_total : Total le.
Proof. intros a b. apply String.leb_total. Qed.

Global Instance le_refl : Reflexive le.
Proof. intros a. apply le_lt_or_eq. by right. Qed.

(** A common prefix does not count. *)
Lemma compare_app_l p a b :
  String.compare (p +:+ a) (p +:+ b) = String.compare a b.
Proof. induction p as [|c p IH]; simpl; [done|]. by rewrite ascii_compare_refl. Qed.

(** With first parts of one length, what follows them counts only when
    they are equal. *)
Lemma compare_app_lt a b s t :
  String.length a = String.length b →
  String.compare a b = Lt → String.compare (a +:+ s) (b +:+ t) = Lt.
Proof.
  revert b. induction a as [|x a IH]; intros [|y b]; simpl; try done.
  intros [=Hlen]. destruct (Ascii.compare x y); try done. by apply IH.
Qed.

Lemma compare_snoc a b c d :
  String.length a = String.length b →
  String.compare (a +:+ String c EmptyString) (b +:+ String d EmptyString)
  = match String.compare a b with Eq => Ascii.compare c d | r => r end.
Proof.
  revert b. induction a as [|x a IH]; intros [|y b]; simpl; try done.
  - intros _. by destruct (Ascii.compare c d).
  - intros [=Hlen]. destruct (Ascii.compare x y); try done. by apply IH.
Qed.

Lemma length_app a b :
  String.length (a +:+ b) = (String.length a + String.length b)%nat.
Proof. induction a as [|x a IH]; simpl; [done|by rewrite IH]. Qed.

Lemma app_assoc a b c : (a +:+ b) +:+ c = a +:+ b +:+ c.
Proof. induction a as [|x a IH]; [done|]. by rewrite !append_cons, IH. Qed.

Lemma app_inv_head p a b : p +:+ a = p +:+ b → a = b.
Proof. induction p; simpl; [done|]. intros [=]. auto. Qed.

(** ** Decimal digits *)

Lemma N_of_digit_char d : (d < 10)%N → N_of_ascii (digit_char d) = (48 + d)%N.
Proof. intros. unfold digit_char. apply N_ascii_embedding. lia. Qed.

Lemma digit_char_compare x y :
  (x < 10)%N → (y < 10)%N →
  Ascii.compare (digit_char x) (digit_char y) = (x ?= y)%N.
Proof.
  intros. unfold Ascii.compare. rewrite !N_of_digit_char by done.
  destruct (N.compare_spec x y); [subst; apply N.compare_refl|..].
  - apply N.compare_lt_iff. lia.
  - apply N.compare_gt_iff. lia.
Qed.

Lemma div10_lt n k : (n < 10 ^ N.of_nat (S k))%N → (n / 10 < 10 ^ N.of_nat k)%N.
Proof.
  rewrite Nat2N.inj_succ, N.pow_succ_r'. intros.
  apply N.Div0.div_lt_upper_bound. lia.
Qed.

(** More fuel than digits changes nothing. *)
Lemma decimal_digits_fuel k fuel n :
  (n < 10 ^ N.of_nat k)%N → (k ≤ fuel)%nat → (0 < k)%nat →
  decimal_digits fuel n = decimal_digits k n.
Proof.
  revert fuel n. induction k as [|k IH]; intros fuel n Hn Hk Hpos; [lia|].
  destruct fuel as [|fuel]; [lia|]. simpl.
  destruct (n <? 10)%N eqn:Hlt; [done|].
  apply N.ltb_ge in Hlt. f_equal.
  destruct k as [|k]; [simpl in Hn; lia|].
  apply IH; [by apply div10_lt|lia..].
Qed.

Lemma lt_pow10_log2 n : (n < 10 ^ N.of_nat (S (N.to_nat (N.log2 n))))%N.
Proof.
  rewrite Nat2N.inj_succ, N2Nat.id.
  destruct (decide (n = 0%N)) as [->|]; [done|].
  eapply N.lt_le_trans; [apply N.log2_spec; lia|].
  apply N.pow_le_mono_l. lia.
Qed.

Lemma of_N_eq k n :
  (n < 10 ^ N.of_nat k)%N → (0 < k)%nat → of_N n = decimal_digits k n.
Proof.
  intros Hn Hk. unfold of_N.
  destruct (le_ge_dec k (S (N.to_nat (N.log2 n)))).
  - by apply decimal_digits_fuel.
  - symmetry. apply decimal_digits_fuel; [apply lt_pow10_log2|lia..].
Qed.

(** The equation of [str] on the naturals. *)
Lemma of_N_unfold n :
  of_N n = if (n <? 10)%N then String (digit_char n) EmptyString
           else of_N (n / 10) +:+ String (digit_char (n mod 10)) EmptyString.
Proof.
  unfold of_N at 1. simpl. destruct (n <? 10)%N eqn:Hlt; [done|].
  apply N.ltb_ge in Hlt. f_equal. symmetry.
  destruct (N.to_nat (N.log2 n)) as [|k] eqn:Hk.
  - assert (N.log2 n = 0%N) as H0 by lia.
    apply N.log2_null in H0. lia.
  - apply of_N_eq; [|lia]. apply div10_lt. rewrite <- Hk. apply lt_pow10_log2.
Qed.

Lemma length_fixed_digits k n : String.length (fixed_digits k n) = k.
Proof.
  revert n. induction k as [|k IH]; intros n; simpl; [done|].
  rewrite length_app, IH. simpl. lia.
Qed.

Lemma zeros_app_0 k : zeros k +:+ "0" = zeros (S k).
Proof.
  induction k as [|k IH]; [done|].
  cbn [zeros]. by rewrite append_cons, IH.
Qed.

Lemma fixed_digits_0 k : fixed_digits k 0 = zeros k.
Proof.
  induction k as [|k IH]; [done|].
  cbn [fixed_digits]. change (0 / 10)%N with 0%N. rewrite IH.
  apply zeros_app_0.
Qed.

Lemma length_of_N_pos n : (0 < String.length (of_N n))%nat.
Proof.
  rewrite of_N_unfold. destruct (n <? 10)%N; simpl; [lia|].
  rewrite length_app. simpl. lia.
Qed.

Lemma length_of_N_le k n :
  (n < 10 ^ N.of_nat k)%N → (0 < k)%nat → (String.length (of_N n) ≤ k)%nat.
Proof.
  revert n. induction k as [|k IH]; intros n Hn Hk; [lia|].
  rewrite of_N_unfold. destruct (n <? 10)%N eqn:Hlt; simpl; [lia|].
  apply N.ltb_ge in Hlt. rewrite length_app. simpl.
  destruct k as [|k]; [simpl in Hn; lia|].
  specialize (IH (n / 10)%N (div10_lt _ _ Hn)). lia.
Qed.

(** Below [10^k], [zero_pad k] prints exactly [k] digits. *)
Lemma zero_pad_fixed k n :
  (n < 10 ^ N.of_nat k)%N → (0 < k)%nat → zero_pad k n = fixed_digits k n.
Proof.
  unfold zero_pad. revert n. induction k as [|k IH]; intros n Hn Hk; [lia|].
  rewrite of_N_unfold. simpl fixed_digits.
  destruct (n <? 10)%N eqn:Hlt.
  - apply N.ltb_lt in Hlt. simpl String.length.
    rewrite N.div_small, N.mod_small, fixed_digits_0 by done.
    by replace (S k - 1)%nat with k by lia.
  - apply N.ltb_ge in Hlt.
    destruct k as [|k]; [simpl in Hn; lia|].
    rewrite <- (IH (n / 10)%N) by (by apply div10_lt || lia).
    rewrite length_app. simpl String.length.
    rewrite app_assoc. do 2 f_equal. lia.
Qed.

(** Numbers of one width are ordered as their digits are. *)
Lemma fixed_digits_lt k a b :
  (a < b)%N → (b < 10 ^ N.of_nat k)%N → lt (fixed_digits k a) (fixed_digits k b).
Proof.
  unfold lt. revert a b. induction k as [|k IH]; intros a b Hab Hb.
  { simpl in Hb. lia. }
  simpl. rewrite compare_snoc by (by rewrite !length_fixed_digits).
  assert (a / 10 ≤ b / 10)%N as Hle by (apply N.Div0.div_le_mono; lia).
  pose proof (N.Div0.div_mod a 10). pose proof (N.Div0.div_mod b 10).
  pose proof (N.mod_lt a 10). pose proof (N.mod_lt b 10).
  destruct (decide (a / 10 = b / 10)%N) as [Heq|Hne].
  - rewrite Heq, compare_refl, digit_char_compare by lia.
    apply N.compare_lt_iff. lia.
  - rewrite IH; [done|lia|by apply div10_lt].
Qed.

Lemma zero_pad_lt k a b :
  (0 < k)%nat → (a < b)%N → (b < 10 ^ N.of_nat k)%N →
  lt (zero_pad k a) (zero_pad k b).
Proof.
  intros. rewrite !zero_pad_fixed by (done || lia). by apply fixed_digits_lt.
Qed.

Lemma length_zero_pad k n :
  (n < 10 ^ N.of_nat k)%N → (0 < k)%nat → String.length (zero_pad k n) = k.
Proof. intros. rewrite zero_pad_fixed by done. apply length_fixed_digits. Qed.

(** At its width or above, a number is printed as it is. *)
Lemma zero_pad_wide k n :
  (k ≤ String.length (of_N n))%nat → zero_pad k n = of_N n.
Proof.
  intros. unfold zero_pad.
  by replace (k - String.length (of_N n))%nat with 0%nat by lia.
Qed.
End PyStrFacts.

(** * Facts about sorting *)

Section stable_sort_facts.
Context {A : Type} (le_b : A → A → bool).

Lemma insert_sorted_perm x l : insert_sorted le_b x l ≡ₚ x :: l.
Proof.
  induction l as [|y l IH]; simpl; [done|].
  destruct (le_b x y); [done|]. rewrite IH. apply Permutation_swap.
Qed.

Lemma stable_sort_perm l : stable_sort le_b l ≡ₚ l.
Proof.
  induction l as [|x l IH]; simpl; [done|].
  by rewrite insert_sorted_perm, IH.
Qed.

Lemma stable_sort_nil_inv l : stable_sort le_b l = [] → l = [].
Proof.
  intros H. apply Permutation_nil_r. rewrite <- H.
  symmetry. apply stable_sort_perm.
Qed.

Context (R : relation A) (R_spec : ∀ a b, le_b a b = true ↔ R a b).
Context `{!Total R}.

Lemma insert_sorted_Sorted x l :
  Sorted R l → Sorted R (insert_sorted le_b x l).
Proof.
  induction 1 as [|y l Hl IH Hhd]; simpl; [by repeat constructor|].
  destruct (le_b x y) eqn:Hxy.
  - apply R_spec in Hxy. by repeat constructor.
  - assert (R y x) as Hyx.
    { destruct (total R x y) as [Hc|Hc]; [|done].
      apply R_spec in Hc. congruence. }
    constructor; [done|].
    destruct Hhd as [|z l' Hyz]; simpl; [by constructor|].
    destruct (le_b x z); by constructor.
Qed.

Lemma stable_sort_Sorted l : Sorted R (stable_sort le_b l).
Proof.
  induction l as [|x l IH]; simpl; [constructor|].
  by apply insert_sorted_Sorted.
Qed.
End stable_sort_facts.

(** The first entry after a sort on a key, greatest first, is the first of
    the entries of the greatest key. *)
Lemma stable_sort_desc_head {A} (key : A → Z) (l : list A) m rest :
  stable_sort (λ a b, (key a >=? key b)%Z) l = m :: rest →
  ∃ l1 l2, l = l1 ++ m :: l2
           ∧ Forall (λ y, key y < key m)%Z l1
           ∧ Forall (λ y, key y ≤ key m)%Z l2.
Proof.
  revert m rest. induction l as [|x l IH]; intros m rest; simpl; [done|].
  destruct (stable_sort _ l) as [|h t] eqn:Hs.
  - apply stable_sort_nil_inv in Hs as ->. intros [= <- <-].
    by exists [], [].
  - destruct (IH h t eq_refl) as (l1 & l2 & -> & H1 & H2). simpl.
    destruct (key x >=? key h)%Z eqn:Hge.
    + intros [= <- <-]. exists [], (l1 ++ h :: l2). split_and!; [done..|].
      apply Z.geb_le in Hge.
      apply Forall_app. split; [|constructor].
      * eapply Forall_impl; [exact H1|]. intros y ?. simpl in *. lia.
      * done.
      * eapply Forall_impl; [exact H2|]. intros y ?. simpl in *. lia.
    + intros [= <- <-]. exists (x :: l1), l2. split_and!; [done| |done].
      constructor; [|done]. rewrite Z.geb_leb in Hge.
      apply Z.leb_gt in Hge. lia.
Qed.

Lemma sorted_perm l : sorted l ≡ₚ l.
Proof. apply stable_sort_perm. Qed.

Lemma sorted_Sorted l : Sorted PyStr.le (sorted l).
Proof. apply (stable_sort_Sorted String.leb PyStr.le); [done|apply _]. Qed.

(** Sorting any arrangement of an ordered list gives the ordered list. *)
Lemma sorted_of_perm l l' :
  Sorted PyStr.le l' → l ≡ₚ l' → sorted l = l'.
Proof.
  intros Hl' Hp. apply (Sorted_unique PyStr.le); [apply sorted_Sorted|done|].
  by rewrite sorted_perm.
Qed.

(** A list whose entries go up one after the other is ordered. *)
Lemma Sorted_lt_map {B} (f : B → string) (l : list B) :
  (∀ i a b, l !! i = Some a → l !! S i = Some b → PyStr.lt (f a) (f b)) →
  Sorted PyStr.le (f <$> l).
Proof.
  induction l as [|a l IH]; intros H; simpl; [constructor|].
  constructor.
  - apply IH. intros i x y ??. by apply (H (S i)).
  - destruct l as [|b l]; simpl; constructor.
    apply PyStrFacts.le_lt_or_eq. left. by apply (H 0%nat).
Qed.

(** * The segment files and their order *)

Lemma segment_file_name_eq d i :
  segment_file_name d i
  = segment_prefix d +:+ PyStr.zero_pad 5 (N.of_nat i) +:+ ".ts".
Proof.
  unfold segment_file_name, segment_prefix, os_path_join.
  change (String.prefix "/" ("segment_" +:+ _)) with false. cbv iota.
  destruct (bool_decide (d = "") || ends_with_sep d);
    by rewrite !PyStrFacts.app_assoc.
Qed.

(** Up to five digits, the names are ordered as the indices are. *)
Lemma segment_file_name_lt d i j :
  (i < j)%nat → (N.of_nat j < 100000)%N →
  PyStr.lt (segment_file_name d i) (segment_file_name d j).
Proof.
  intros Hij Hj. unfold PyStr.lt.
  rewrite !segment_file_name_eq, PyStrFacts.compare_app_l.
  apply PyStrFacts.compare_app_lt.
  - rewrite !PyStrFacts.length_zero_pad; [done|try lia..];
      change (10 ^ N.of_nat 5)%N with 100000%N; lia.
  - apply PyStrFacts.zero_pad_lt; [lia..|].
    change (10 ^ N.of_nat 5)%N with 100000%N. lia.
Qed.

(** With a sixth digit, they are not: segment 100000 is named before
    segment 99999. *)
Lemma segment_file_name_100000 d :
  PyStr.lt (segment_file_name d (N.to_nat 100000))
           (segment_file_name d (N.to_nat 99999)).
Proof.
  unfold PyStr.lt.
  rewrite !segment_file_name_eq, PyStrFacts.compare_app_l, !N2Nat.id.
  by vm_compute.
Qed.

Lemma segment_file_names_Sorted d n :
  (N.of_nat n ≤ 100000)%N → Sorted PyStr.le (segment_file_name d <$> seq 0 n).
Proof.
  intros Hn. apply Sorted_lt_map. intros i a b Ha Hb.
  apply lookup_seq in Ha as [-> ?]. apply lookup_seq in Hb as [-> ?].
  apply segment_file_name_lt; simpl in *; lia.
Qed.

(** Sorting the files of at most 100000 segments, fetched in any order,
    gives them in the order of the playlist. *)
Lemma sorted_segment_files d n order :
  (N.of_nat n ≤ 100000)%N → order ≡ₚ seq 0 n →
  sorted (segment_file_name d <$> order) = segment_file_name d <$> seq 0 n.
Proof.
  intros Hn Hp. apply sorted_of_perm; [by apply segment_file_names_Sorted|].
  by rewrite Hp.
Qed.

(** * The pool runs every task once *)

Section pool_facts.
Context {T : Type} (work : T → M bool).

Lemma bind_ext {A B} (m : M A) (k k' : A → M B) st :
  (∀ a st', k a st' = k' a st') → bind m k st = bind m k' st.
Proof. intros H. unfold bind. destruct (m st) as [[a|e] st']; auto. Qed.

(** Whatever the workers and the scheduler, the pool is a run of all the
    tasks in some order: the order in which they finish. *)
Lemma run_pool_linear fuel max_workers choices queue running :
  (0 < max_workers)%nat →
  (2 * length queue + length running ≤ fuel)%nat →
  ∃ order, order ≡ₚ running ++ queue ∧
    ∀ completed st,
      run_pool work fuel max_workers choices queue running completed st
      = run_seq work order completed st.
Proof.
  intros HK. revert choices queue running.
  induction fuel as [|fuel IH]; intros choices queue running Hfuel.
  { destruct queue, running; simpl in *; try lia. by exists []. }
  assert (∀ j t, running !! j = Some t →
    (2 * length queue + length (delete j running) ≤ fuel)%nat) as Hdel.
  { intros j t Hj. pose proof (lookup_lt_Some _ _ _ Hj).
    rewrite length_delete by eauto. lia. }
  assert (∀ j, (j < length running)%nat →
    ∃ order, order ≡ₚ running ++ queue ∧
      ∀ completed st,
        match running !! j with
        | Some t =>
            ok <- work t;;
            run_pool work fuel max_workers (tail choices) queue
              (delete j running) (completed ++ [(t, ok)])
        | None => ret completed
        end st = run_seq work order completed st) as Hfinish.
  { intros j Hj. destruct (lookup_lt_is_Some_2 _ _ Hj) as [t Ht].
    destruct (IH (tail choices) queue (delete j running) (Hdel _ _ Ht))
      as (order & Hp & Heq).
    exists (t :: order). split.
    - rewrite Hp. rewrite (delete_Permutation running j t) at 2 by done. done.
    - intros completed st. rewrite Ht. simpl. apply bind_ext. auto. }
  destruct queue as [|t queue], running as [|r running].
  - by exists [].
  - apply Hfinish, Nat.mod_upper_bound. done.
  - simpl. rewrite bool_decide_eq_false_2 by lia.
    destruct (IH (tail choices) queue [t]) as (order & Hp & Heq).
    { simpl in *. lia. }
    exists order. split; [|done]. by rewrite Hp.
  - cbn [run_pool]. destruct (hd 0%nat choices) as [|j].
    + case_bool_decide as Hfree.
      * destruct (IH (tail choices) queue ((r :: running) ++ [t]))
          as (order & Hp & Heq).
        { rewrite length_app. simpl in *. lia. }
        exists order. split; [|done].
        rewrite Hp. by rewrite <- (assoc_L (++)).
      * apply (Hfinish 0%nat). simpl. lia.
    + apply Hfinish, Nat.mod_upper_bound. done.
Qed.
End pool_facts.

(** * How the methods move the state *)

Lemma extends_refl st : extends st st [] [] 0.
Proof. split; rewrite ?app_nil_r; auto with lia. Qed.

Lemma extends_trans st1 st2 st3 e1 e2 f1 f2 k1 k2 :
  extends st1 st2 e1 f1 k1 → extends st2 st3 e2 f2 k2 →
  extends st1 st3 (e1 ++ e2) (f1 ++ f2) (k1 + k2).
Proof.
  intros [] []. split; rewrite ?(assoc_L (++)); try congruence. lia.
Qed.

Ltac run :=
  unfold py_urlparse, py_urljoin, write_bytes, write_lines in *;
  unfold bind, ret, raise, try_except, try_finally, get, emit, print,
    set_temp_dir, append_segment_file, set_dirs, session_get,
    raise_for_status in *; simpl in *.

Lemma download_segment_spec E base seg i st :
  ∃ st',
    download_segment E base seg i st
    = (Ok (task_ok E base (temp_dir st) (sent st) (seg, i)), st')
    ∧ extends st st' (task_events E base (temp_dir st) (sent st) (seg, i))
        (if task_ok E base (temp_dir st) (sent st) (seg, i)
         then [task_file (temp_dir st) (seg, i)] else [])
        (length (task_requests E base (seg, i))).
Proof.
  unfold download_segment, task_ok, task_events, task_result, task_requests,
    segment_outcome, task_file. run.
  destruct (urljoin_raises E base (segment_uri seg)); simpl.
  { eexists; split; [done|]. split; simpl; rewrite <- ?(assoc_L (++)); auto with lia.
    by rewrite app_nil_r. }
  destruct (http E (sent st) _) as [r|e]; simpl.
  - case_bool_decide; simpl.
    + eexists; split; [done|]. split; simpl; rewrite <- ?(assoc_L (++)); auto with lia.
      by rewrite app_nil_r.
    + destruct (temp_dir st) as [d|] eqn:Hd; simpl.
      * destruct (store_ok E (sent st) (segment_file_name d i)); simpl.
        -- eexists; split; [done|]. split; simpl; rewrite <- ?(assoc_L (++)); auto with lia.
        -- eexists; split; [done|]. split; simpl; rewrite <- ?(assoc_L (++)); auto with lia.
           by rewrite app_nil_r.
      * eexists; split; [done|]. split; simpl; rewrite <- ?(assoc_L (++)); auto with lia.
        by rewrite app_nil_r.
  - eexists; split; [done|]. split; simpl; rewrite <- ?(assoc_L (++)); auto with lia.
    by rewrite app_nil_r.
Qed.

Lemma run_seq_spec E base ts : ∀ completed st,
  ∃ st',
    run_seq (λ t, download_segment E base t.1 t.2) ts completed st
    = (Ok (completed ++ zip ts (pool_ok E base (temp_dir st) (sent st) ts)), st')
    ∧ extends st st' (pool_events E base (temp_dir st) (sent st) ts)
        (task_file (temp_dir st) <$> succeeded ts (pool_ok E base (temp_dir st) (sent st) ts))
        (length (pool_requests E base ts)).
Proof.
  induction ts as [|[seg i] ts IH]; intros completed st; simpl.
  - eexists. split; [by rewrite app_nil_r|]. apply extends_refl.
  - destruct (download_segment_spec E base seg i st) as (st1 & Hrun & Hext).
    unfold bind. rewrite Hrun.
    destruct (IH (completed ++ [((seg, i), task_ok E base (temp_dir st) (sent st) (seg, i))]) st1)
      as (st2 & Hrun2 & Hext2).
    rewrite Hrun2.
    rewrite (ext_temp_dir _ _ _ _ _ Hext), (ext_sent _ _ _ _ _ Hext) in Hext2 |- *.
    eexists. split; [by rewrite <- (assoc_L (++))|].
    pose proof (extends_trans _ _ _ _ _ _ _ _ _ Hext Hext2) as H.
    rewrite length_app.
    unfold succeeded in *. simpl. rewrite filter_cons. simpl.
    destruct (task_ok _ _ _ _ _); simpl in *; done.
Qed.

(** ** What the trace of the pool shows *)

Section pool_trace.
Context (E : env) (base : string) (od : option string).

Lemma segment_gets_pool k ts :
  segment_gets (pool_events E base od k ts) = pool_requests E base ts.
Proof.
  revert k. induction ts as [|t ts IH]; intros k; [done|].
  unfold segment_gets, pool_requests in *. simpl.
  rewrite !omap_app, IH. f_equal.
  unfold task_events, task_requests. rewrite omap_app.
  destruct (urljoin_raises E base _); simpl;
    by destruct (task_result _ _ _ _ _).
Qed.

Lemma progress_total_pool k ts :
  progress_total (pool_events E base od k ts)
  = length (succeeded ts (pool_ok E base od k ts)).
Proof.
  revert k. induction ts as [|t ts IH]; intros k; [done|].
  unfold progress_total, succeeded in *. simpl.
  unfold task_events at 1, task_requests at 1.
  rewrite !omap_app, !sum_list_with_app, IH, filter_cons. unfold task_ok.
  destruct (urljoin_raises E base _); simpl;
    by destruct (task_result _ _ _ _ _).
Qed.

Lemma segment_errors_pool k ts :
  segment_errors (pool_events E base od k ts)
  = (failed ts (pool_ok E base od k ts)).*2.
Proof.
  revert k. induction ts as [|t ts IH]; intros k; [done|].
  unfold segment_errors, failed in *. simpl.
  unfold task_events at 1, task_requests at 1.
  rewrite !omap_app, IH, filter_cons. unfold task_ok.
  destruct (urljoin_raises E base _); simpl;
    by destruct (task_result _ _ _ _ _).
Qed.

Lemma stored_files_pool k ts :
  stored_files (pool_events E base od k ts)
  = task_file od <$> succeeded ts (pool_ok E base od k ts).
Proof.
  revert k. induction ts as [|t ts IH]; intros k; [done|].
  unfold stored_files, succeeded in *. simpl.
  unfold task_events at 1, task_requests at 1.
  rewrite !omap_app, IH, filter_cons. unfold task_ok.
  destruct (urljoin_raises E base _); simpl;
    by destruct (task_result _ _ _ _ _).
Qed.

Lemma pool_events_stage k ts : from_stage Fetch (pool_events E base od k ts).
Proof.
  revert k. induction ts as [|t ts IH]; intros k; [constructor|].
  simpl. apply Forall_app. split; [|apply IH].
  unfold task_events, task_requests.
  destruct (urljoin_raises E base _); simpl;
    destruct (task_result _ _ _ _ _); by repeat constructor.
Qed.

Lemma length_pool_ok k ts : length (pool_ok E base od k ts) = length ts.
Proof. revert k. induction ts; intros; simpl; auto. Qed.
End pool_trace.

Lemma succeeded_failed_perm {T} (ts : list T) oks :
  length oks = length ts → succeeded ts oks ++ failed ts oks ≡ₚ ts.
Proof.
  unfold succeeded, failed. revert oks.
  induction ts as [|t ts IH]; intros [|b oks] Hlen; simplify_eq/=; [done|].
  rewrite !filter_cons; simpl. destruct b; simpl.
  - by rewrite IH.
  - rewrite <- Permutation_middle. by rewrite IH.
Qed.

Lemma success_count_zip {T} (ts : list T) oks :
  success_count (zip ts oks) = length (succeeded ts oks).
Proof. unfold success_count, succeeded. by rewrite length_fmap. Qed.

Lemma length_succeeded_failed {T} (ts : list T) oks :
  length oks = length ts →
  (length (succeeded ts oks) + length (failed ts oks) = length ts)%nat.
Proof.
  intros H. rewrite <- length_app. by rewrite (succeeded_failed_perm ts oks H).
Qed.

(** An observer sees nothing in the events of the stages it does not read. *)
Lemma omap_stage_nil {X} (f : event → option X) s evs :
  (∀ e, stage_of e = s → f e = None) → from_stage s evs → omap f evs = [].
Proof.
  intros Hf. induction 1 as [|e evs He _ IH]; simpl; [done|].
  by rewrite (Hf e He).
Qed.

(** ** [_download_segments] *)

Lemma tasks_of_indices pl : (tasks_of pl).*2 = seq 0 (length (segments pl)).
Proof.
  unfold tasks_of. rewrite fmap_imap.
  rewrite (imap_ext _ (λ i _, id i)) by done.
  by rewrite imap_seq_0, list_fmap_id.
Qed.

Lemma length_tasks_of pl : length (tasks_of pl) = length (segments pl).
Proof. by rewrite <- (length_fmap snd), tasks_of_indices, length_seq. Qed.

Lemma download_segments_spec E pl base K st :
  let n := length (segments pl) in
  ∃ r st' evs,
    _download_segments E pl base K st = (r, st')
    ∧ trace st' = trace st ++ evs
    ∧ from_stage Fetch evs
    ∧ ((segments pl = [] ∧ r = Ok false ∧ evs = [EPrint MsgNoSegments]
        ∧ extends st st' evs [] 0)
       ∨ (segments pl ≠ [] ∧ mkdtemp_name E = None ∧ r = Raise OSError
          ∧ evs = [] ∧ st' = st)
       ∨ (∃ name, let d := temp_path E name in
          segments pl ≠ [] ∧ mkdtemp_name E = Some name
          ∧ temp_dir st' = Some d ∧ dirs st' = {[d]} ∪ dirs st
          ∧ (((K ≤ 0)%Z ∧ r = Raise ValueError
              ∧ evs = [EMkdtemp d; EPrint (MsgDownloading n)]
              ∧ segment_files st' = segment_files st ∧ sent st' = sent st)
             ∨ ((0 < K)%Z ∧ ∃ order,
                  let oks := pool_ok E base (Some d) (sent st) order in
                  order ≡ₚ tasks_of pl
                  ∧ r = Ok (bool_decide (failed order oks = []))
                  ∧ evs = [EMkdtemp d; EPrint (MsgDownloading n)]
                          ++ pool_events E base (Some d) (sent st) order
                          ++ (if bool_decide (failed order oks = []) then []
                              else [EPrint (MsgFailedSegments
                                      (Z.of_nat (length (failed order oks))))])
                  ∧ segment_files st'
                    = segment_files st
                      ++ (segment_file_name d <$> (succeeded order oks).*2)
                  ∧ sent st' = (sent st + length (pool_requests E base order))%nat)))).
Proof.
  intros n. unfold _download_segments.
  case_bool_decide as Hseg.
  { run. do 3 eexists. split; [done|]. split; [done|].
    split; [by repeat constructor|]. left. split_and!; try done.
    split; simpl; rewrite ?app_nil_r; auto with lia. }
  unfold mkdtemp. destruct (mkdtemp_name E) as [name|] eqn:Hname.
  2:{ run. exists (Raise OSError), st, []. rewrite app_nil_r.
      split_and!; try done; [constructor|]. right. left. done. }
  fold (temp_path E name). set (d := temp_path E name).
  destruct (decide (K ≤ 0)%Z) as [HK|HK].
  { run. rewrite bool_decide_eq_true_2 by done.
    do 3 eexists. split; [done|]. simpl. rewrite <- (assoc_L (++)).
    split; [done|]. split; [by repeat constructor|].
    right. right. exists name. split_and!; try done. left. done. }
  destruct (run_pool_linear (λ t, download_segment E base t.1 t.2)
              (2 * length (tasks_of pl)) (Z.to_nat K) (scheduler E)
              (tasks_of pl) []) as (order & Hp & Hlin); [lia|simpl; lia|].
  simpl in Hp.
  unfold bind at 1 2 3 4. run. rewrite bool_decide_eq_false_2 by done.
  rewrite Hlin.
  match goal with |- context [run_seq _ _ _ ?s] => set (st1 := s) end.
  destruct (run_seq_spec E base order [] st1) as (st2 & Hrun & Hext).
  rewrite Hrun. simpl in Hrun, Hext |- *.
  set (oks := pool_ok E base (Some d) (sent st) order) in *.
  assert (length oks = length order) as Hlen by apply length_pool_ok.
  pose proof (length_succeeded_failed order oks Hlen) as Hsum.
  assert (length order = n) as Hn.
  { by rewrite Hp, length_tasks_of. }
  rewrite success_count_zip.
  destruct Hext as [Ht Hf Hs Hd Hdirs]. simpl in *.
  assert (task_file (Some d) <$> succeeded order oks
          = segment_file_name d <$> (succeeded order oks).*2) as Hfiles.
  { by rewrite <- list_fmap_compose. }
  case_bool_decide as Hcount.
  - run. do 3 eexists. split; [done|]. simpl. rewrite Ht.
    rewrite <- !(assoc_L (++)). split; [done|]. simpl.
    split.
    { repeat constructor. apply Forall_app. split; [apply pool_events_stage|].
      by repeat constructor. }
    right. right. exists name. split_and!; try done. right. split; [lia|].
    exists order. fold oks.
    assert (failed order oks ≠ []) as Hfail.
    { intros Hnil. rewrite Hnil in Hsum. simpl in Hsum. fold n in Hcount. lia. }
    rewrite bool_decide_eq_false_2 by done.
    split_and!; try done.
    + fold d oks n.
      by replace (Z.of_nat n - Z.of_nat (length (succeeded order oks)))%Z
        with (Z.of_nat (length (failed order oks))) by lia.
    + by rewrite Hf, Hfiles.
  - do 3 eexists. split; [done|]. rewrite Ht.
    rewrite <- !(assoc_L (++)). split; [done|]. simpl.
    split.
    { repeat constructor. apply pool_events_stage. }
    right. right. exists name. split_and!; try done. right. split; [lia|].
    exists order. fold oks.
    assert (failed order oks = []) as Hfail.
    { apply nil_length_inv. fold n in Hcount. lia. }
    rewrite bool_decide_eq_true_2 by done.
    split_and!; try done.
    + by rewrite app_nil_r.
    + by rewrite Hf, Hfiles.
Qed.

(** ** Methods that only talk *)

Section preserves.
Context (R : relation state) `{!PreOrder R}.

Lemma preserves_ret {A} (a : A) : preserves R (ret a).
Proof. intros st. simpl. reflexivity. Qed.

Lemma preserves_raise {A} e : preserves R (@raise A e).
Proof. intros st. simpl. reflexivity. Qed.

Lemma preserves_get {A} (f : state → A) : preserves R (get f).
Proof. intros st. simpl. reflexivity. Qed.

Lemma preserves_bind {A B} (m : M A) (k : A → M B) :
  preserves R m → (∀ a, preserves R (k a)) → preserves R (bind m k).
Proof.
  intros Hm Hk st. unfold bind. specialize (Hm st).
  destruct (m st) as [[a|e] st1]; simpl in *; [|done].
  etrans; [done|]. apply Hk.
Qed.

Lemma preserves_try_except {A} (m : M A) h :
  preserves R m → (∀ e, preserves R (h e)) → preserves R (try_except m h).
Proof.
  intros Hm Hh st. unfold try_except. specialize (Hm st).
  destruct (m st) as [[a|e] st1]; simpl in *; [done|].
  etrans; [done|]. apply Hh.
Qed.
End preserves.

Global Instance talks_preorder : PreOrder talks.
Proof.
  split.
  - intros st. exists []. split; [apply extends_refl|constructor].
  - intros st1 st2 st3 (m1 & H1 & F1) (m2 & H2 & F2).
    exists (m1 ++ m2). split; [|by apply Forall_app].
    apply (extends_trans _ _ _ _ _ _ _ _ _ H1 H2).
Qed.

Lemma talks_emit e : silent e → preserves talks (emit e).
Proof.
  intros He st. exists [e]. split; [|by constructor].
  split; simpl; rewrite ?app_nil_r; auto with lia.
Qed.

Lemma talks_print m : stage_of (EPrint m) = Front → preserves talks (print m).
Proof. intros. by apply talks_emit. Qed.

Lemma talks_input : preserves talks input.
Proof.
  intros st. unfold input. destruct (stdin st); simpl; [reflexivity|].
  exists []. split; [|constructor].
  split; simpl; rewrite ?app_nil_r; auto with lia.
Qed.

Ltac talks_with leaf :=
  repeat first
    [ leaf
    | apply talks_input
    | apply talks_print; reflexivity
    | apply talks_emit; done
    | apply (preserves_ret talks)
    | apply (preserves_raise talks)
    | apply (preserves_get talks)
    | apply (preserves_bind talks); [|intros ?]
    | apply (preserves_try_except talks); [|intros ?]
    | progress case_match ].
Ltac talks := talks_with fail.

Lemma talks_print_qualities qs : ∀ i, preserves talks (print_qualities i qs).
Proof. induction qs as [|q qs IH]; intros i; simpl; talks. apply IH. Qed.

Lemma talks_interactive_select fuel qs :
  preserves talks (interactive_select fuel qs).
Proof. induction fuel as [|fuel IH]; simpl; talks; apply IH. Qed.

Lemma talks_select_quality mp q : preserves talks (_select_quality mp q).
Proof.
  unfold _select_quality, first_item, last_item.
  talks_with ltac:(first [apply talks_print_qualities
                         | apply talks_interactive_select]).
Qed.

Lemma talks_add_custom_headers h : preserves talks (_add_custom_headers h).
Proof. unfold _add_custom_headers. talks. Qed.

Lemma returns_ret {A} (P : A → Prop) a : P a → returns P (ret a).
Proof. intros H st b [= <-]. done. Qed.

Lemma returns_raise {A} (P : A → Prop) e : returns P (raise e).
Proof. intros st b [=]. Qed.

Lemma returns_bind {A B} (Q : A → Prop) (P : B → Prop) (m : M A) k :
  returns Q m → (∀ a, Q a → returns P (k a)) → returns P (bind m k).
Proof.
  intros Hm Hk st b. unfold bind. specialize (Hm st).
  destruct (m st) as [[a|e] st1]; simpl in *; [|done].
  apply Hk. by apply Hm.
Qed.

Lemma returns_any {A} (m : M A) : returns (λ _, True) m.
Proof. done. Qed.

Lemma returns_interactive_select fuel qs :
  returns (λ r, ∀ q, r = Some q → q ∈ qs) (interactive_select fuel qs).
Proof.
  induction fuel as [|fuel IH]; simpl; [apply returns_raise|].
  eapply returns_bind; [apply returns_any|intros _ _].
  eapply returns_bind; [apply returns_any|intros l _].
  destruct l as [line|].
  2:{ eapply returns_bind; [apply returns_any|intros _ _].
      by apply returns_ret. }
  simpl. case_match.
  - case_bool_decide.
    + destruct (qs !! _) eqn:Hq; [|apply returns_raise].
      apply returns_ret. intros ? [= <-]. by eapply list_elem_of_lookup_2.
    + eapply returns_bind; [apply returns_any|intros _ _]. apply IH.
  - eapply returns_bind; [apply returns_any|intros _ _]. apply IH.
Qed.

Lemma elem_of_extract_qualities q ps :
  q ∈ extract_qualities ps →
  ∃ v w h, v ∈ ps ∧ resolution (stream_info v) = Some (w, h)
           ∧ quality_playlist q = v ∧ quality_url q = playlist_uri v
           ∧ quality_resolution q = (PyStr.of_Z w +:+ "x" +:+ PyStr.of_Z h).
Proof.
  unfold extract_qualities. rewrite list_elem_of_omap.
  intros (v & Hv & Hq). destruct (resolution (stream_info v)) as [[w h]|] eqn:Hr;
    simplify_eq. exists v, w, h. done.
Qed.

Lemma sort_by_height_perm qs qs' : sort_by_height qs = Some qs' → qs' ≡ₚ qs.
Proof.
  unfold sort_by_height. intros H.
  destruct (mapM _ qs) as [keyed|] eqn:Hm; simplify_eq/=.
  rewrite stable_sort_perm.
  apply mapM_fmap_Some_inv with (g := snd) in Hm; [by rewrite Hm|].
  intros x [k y] Hy. destruct (height_key x); by simplify_eq/=.
Qed.

Lemma returns_first_item {A} (l : list A) : returns (λ x, x ∈ l) (first_item l).
Proof.
  destruct l; simpl; [apply returns_raise|]. apply returns_ret. by left.
Qed.

Lemma returns_last_item {A} (l : list A) : returns (λ x, x ∈ l) (last_item l).
Proof.
  unfold last_item. destruct (last l) eqn:Hl; [|apply returns_raise].
  apply returns_ret. by apply last_Some_elem_of.
Qed.

(** The address [_select_quality] returns is the one of a variant of the
    master playlist that has a resolution. *)
Lemma returns_select_quality mp q :
  returns (λ r, ∀ u, r = Some u →
             ∃ v, v ∈ playlists mp ∧ resolution (stream_info v) ≠ None
                  ∧ u = playlist_uri v)
          (_select_quality mp q).
Proof.
  unfold _select_quality. case_bool_decide.
  { eapply returns_bind; [apply returns_any|intros _ _]. by apply returns_ret. }
  destruct (sort_by_height _) as [qs|] eqn:Hs; [|apply returns_raise].
  apply sort_by_height_perm in Hs.
  eapply returns_bind; [apply returns_any|intros _ _].
  eapply returns_bind; [apply returns_any|intros _ _].
  apply (returns_bind (λ r, ∀ x, r = Some x → x ∈ qs)).
  - assert (∀ m : M Quality, returns (λ x, x ∈ qs) m →
      returns (λ r, ∀ x, r = Some x → x ∈ qs) (q <- m;; ret (Some q))) as Hsome.
    { intros m Hm. eapply returns_bind; [exact Hm|]. intros x Hx.
      apply returns_ret. by intros ? [= <-]. }
    case_bool_decide; [apply Hsome, returns_first_item|].
    case_bool_decide; [apply Hsome, returns_last_item|].
    destruct (truthy q) as [preference|].
    + destruct (find _ qs) as [x|] eqn:Hfind.
      * apply returns_ret. intros ? [= <-].
        apply find_some in Hfind as [Hin _]. by apply list_elem_of_In.
      * eapply returns_bind; [apply returns_any|intros _ _].
        apply Hsome, returns_first_item.
    + eapply returns_bind; [apply returns_any|intros n _].
      apply returns_interactive_select.
  - intros [x|] Hx; [|by apply returns_ret].
    eapply returns_bind; [apply returns_any|intros _ _].
    apply returns_ret. intros u [= <-].
    specialize (Hx x eq_refl). rewrite Hs in Hx.
    apply elem_of_extract_qualities in Hx as (v & w & h & ? & Hr & ? & ? & ?).
    exists v. split_and!; [done| |done]. by rewrite Hr.
Qed.

(** ** [_parse_playlist] *)

Ltac ext_solve :=
  split; simpl;
  first [ reflexivity
        | by rewrite <- ?(assoc_L (++))
        | by rewrite ?app_nil_r
        | lia ].

Lemma parse_playlist_spec E u st :
  ∃ opl st' evs,
    _parse_playlist E u st = (Ok opl, st')
    ∧ extends st st' (EGet APlaylist u :: evs) [] 1
    ∧ Forall silent evs
    ∧ (∀ pl, opl = Some pl →
         ∃ r, http E (sent st) u = Responded r
              ∧ m3u8_loads E (content r) = Some pl).
Proof.
  unfold _parse_playlist. run.
  destruct (http E (sent st) u) as [r|e] eqn:Hhttp; simpl.
  - case_bool_decide; simpl.
    + repeat case_bool_decide; simpl; do 3 eexists;
        (split; [done|]); (split; [ext_solve|]);
        (split; [by repeat constructor|done]).
    + destruct (m3u8_loads E (content r)) eqn:Hloads; simpl; do 3 eexists;
        (split; [done|]); (split; [ext_solve|]);
        (split; [by repeat constructor|]); [|done].
      intros ? [= <-]. eauto.
  - destruct e; simpl; repeat case_bool_decide; simpl; do 3 eexists;
      (split; [done|]); (split; [ext_solve|]);
      (split; [by repeat constructor|done]).
Qed.

(** ** Conversion *)

Lemma convert_spec E pl out st :
  ∃ b st' evs,
    _convert_to_mp4 E pl out st = (Ok b, st')
    ∧ extends st st' evs [] 0
    ∧ from_stage Convert evs
    ∧ (segment_files st = [] → b = false ∧ ffmpeg_calls evs = []
                               ∧ concat_writes evs = [])
    ∧ (∀ d, segment_files st ≠ [] → temp_dir st = Some d →
         let lines := concat_lines (sorted (segment_files st)) in
         let out' := output_name out (segment_files st) in
         let concat_file := os_path_join d "concat.txt" in
         let copy_written := concat_ok E "copy" concat_file in
         let trans_written := concat_ok E "libx264" concat_file in
         let copy_ok := copy_written && ffmpeg_run E "copy" "copy" lines out' in
         let trans_ok :=
           trans_written && ffmpeg_run E "libx264" "aac" lines out' in
         b = copy_ok || trans_ok
         ∧ ffmpeg_calls evs
           = (if copy_written then [("copy", "copy")] else [])
             ++ (if copy_ok then []
                 else if trans_written then [("libx264", "aac")] else [])
         ∧ concat_writes evs
           = (if copy_written then [lines] else [])
             ++ (if copy_ok then []
                 else if trans_written then [lines] else [])
         ∧ (EPrint MsgTryingAlternative ∈ evs ↔ copy_ok = false)).
Proof.
  unfold _convert_to_mp4, _convert_alternative, ffmpeg_concat, output_name. run.
  case_bool_decide as Hfiles; simpl.
  { do 3 eexists. split; [done|]. split; [ext_solve|].
    split; [by repeat constructor|]. done. }
  destruct (temp_dir st) as [d|] eqn:Hd; simpl.
  - repeat (match goal with
            | |- context [concat_ok E ?v ?f] => destruct (concat_ok E v f) eqn:?
            | |- context [ffmpeg_run E ?v ?a ?l ?o] =>
                destruct (ffmpeg_run E v a l o) eqn:?
            end; simpl);
      do 3 eexists; (split; [done|]); (split; [ext_solve|]);
      (split; [by repeat constructor|]); (split; [done|]);
      intros ? _ [= <-]; cbv zeta;
      repeat (match goal with
              | H : concat_ok _ _ _ = _ |- _ => rewrite H; clear H
              | H : ffmpeg_run _ _ _ _ _ = _ |- _ => rewrite H; clear H
              end; simpl);
      (split; [done|]); (split; [done|]); (split; [done|]);
      (split;
         [intros Hin; try done; apply list_elem_of_In in Hin; simpl in Hin;
          intuition discriminate
         |intros Heq; try done; apply list_elem_of_In; simpl; tauto]).
  - do 3 eexists. split; [done|]. split; [ext_solve|].
    split; [by repeat constructor|]. done.
Qed.

(** ** Cleanup *)

Lemma cleanup_spec E st :
  ∃ st' evs,
    _cleanup E st = (Ok (), st')
    ∧ trace st' = trace st ++ evs
    ∧ from_stage Cleanup evs
    ∧ sent st' = sent st ∧ segment_files st' = segment_files st
    ∧ temp_dir st' = temp_dir st
    ∧ match temp_dir st with
      | Some d =>
          if bool_decide (d ≠ "") && bool_decide (d ∈ dirs st) then
            rmtree_calls evs = [d]
            ∧ (if rmtree_ok E d then dirs st' = dirs st ∖ {[d]}
               else dirs st' = dirs st
                    ∧ EPrint (MsgCleanupWarning OSError) ∈ evs)
          else evs = [] ∧ dirs st' = dirs st
      | None => evs = [] ∧ dirs st' = dirs st
      end.
Proof.
  unfold _cleanup. run. destruct (temp_dir st) as [d|] eqn:Hd; simpl.
  - destruct (bool_decide (d ≠ "") && bool_decide (d ∈ dirs st)) eqn:Hc; simpl.
    + destruct (rmtree_ok E d) eqn:Hrm; simpl.
      * eexists _, [ERmtree d]. split; [done|]. simpl.
        split; [done|]. split; [by repeat constructor|].
        done.
      * eexists _, [ERmtree d; EPrint (MsgCleanupWarning OSError)].
        split; [done|]. simpl. rewrite <- (assoc_L (++)).
        split; [done|]. split; [by repeat constructor|].
        split_and!; try done. set_solver.
    + exists st, []. rewrite app_nil_r. split_and!; try done. constructor.
  - exists st, []. rewrite app_nil_r. split_and!; try done. constructor.
Qed.

(** ** The parts of [download_m3u8] *)

Lemma download_m3u8_eq E url out q K h st :
  download_m3u8 E url out q K h st
  = try_finally
      (try_except
         (bind (find_playlist E url q h) (fetch_and_convert E url out K))
         (λ e, print (MsgError e);; ret false))
      (_cleanup E) st.
Proof.
  unfold download_m3u8, find_playlist, fetch_and_convert, try_finally, try_except.
  unfold bind, print, emit, ret, raise. simpl.
  repeat (case_match; simplify_eq/=; try done).
Qed.

Lemma silent_front evs :
  Forall silent evs → from_stage Front evs ∧ playlist_gets evs = [].
Proof.
  induction 1 as [|e evs [He Hg] _ [IH1 IH2]]; [by split; [constructor|]|].
  split; [by constructor|].
  change (e :: evs) with ([e] ++ evs).
  unfold playlist_gets in *. by rewrite omap_app, Hg, IH2.
Qed.

Lemma add_custom_headers_returns h st : ∃ st', _add_custom_headers h st = (Ok (), st').
Proof. unfold _add_custom_headers. run. repeat case_match; eauto. Qed.

Lemma playlist_gets_app a b :
  playlist_gets (a ++ b) = playlist_gets a ++ playlist_gets b.
Proof. apply omap_app. Qed.

Lemma front_trans st1 st2 st3 g1 g2 :
  front st1 st2 g1 → front st2 st3 g2 → front st1 st3 (g1 ++ g2).
Proof.
  intros (e1 & k1 & H1 & F1 & G1) (e2 & k2 & H2 & F2 & G2).
  exists (e1 ++ e2), (k1 + k2)%nat. split_and!.
  - apply (extends_trans _ _ _ _ _ _ _ _ _ H1 H2).
  - by apply Forall_app.
  - by rewrite playlist_gets_app, G1, G2.
Qed.

Lemma front_talks st st' : talks st st' → front st st' [].
Proof.
  intros (evs & H & [F G]%silent_front). by exists evs, 0%nat.
Qed.

Lemma front_print m st :
  stage_of (EPrint m) = Front → front st (print m st).2 [].
Proof. intros. by apply front_talks, talks_print. Qed.

Lemma front_parse_playlist E u st :
  ∃ opl st',
    _parse_playlist E u st = (Ok opl, st') ∧ front st st' [u]
    ∧ (∀ pl, opl = Some pl →
         ∃ r, http E (sent st) u = Responded r
              ∧ m3u8_loads E (content r) = Some pl).
Proof.
  destruct (parse_playlist_spec E u st) as (opl & st' & evs & Hp & H & F & Hopl).
  exists opl, st'. split_and!; [done| |done].
  apply silent_front in F as [F G].
  exists (EGet APlaylist u :: evs), 1%nat. split_and!; [done|by constructor|].
  change (playlist_gets ([EGet APlaylist u] ++ evs) = [u]).
  by rewrite playlist_gets_app, G.
Qed.

(** Up to the playlist of segments: one request to the address given,
    and after a master playlist at most one more, to the address of a variant
    joined to the cleaned address. *)
Lemma find_playlist_spec E url q h st :
  ∃ r st',
    find_playlist E url q h st = (r, st')
    ∧ (front st st' [url]
       ∨ ∃ resp master v,
           http E (sent st) url = Responded resp
           ∧ m3u8_loads E (content resp) = Some master
           ∧ v ∈ playlists master ∧ resolution (stream_info v) ≠ None
           ∧ front st st'
               [url; urljoin E (cleaned_master_url E url) (playlist_uri v)]).
Proof.
  unfold find_playlist.
  (* the first message *)
  unfold bind at 1.
  pose proof (front_print (MsgFetching url) st eq_refl) as H1.
  destruct (print (MsgFetching url) st) as [r1 st1] eqn:Hr1.
  assert (r1 = Ok ()) as -> by (by inversion Hr1).
  assert (sent st1 = sent st) as Hs1 by (by inversion Hr1).
  clear Hr1. simpl in H1.
  (* the headers *)
  set (mh := match truthy h with Some s => _ | None => _ end).
  assert (∃ st2, mh st1 = (Ok (), st2) ∧ talks st1 st2) as (st2 & Hh & T2).
  { subst mh. destruct (truthy h) as [s|].
    - destruct (add_custom_headers_returns s st1) as (st2 & Hst2).
      exists st2. split; [done|].
      pose proof (talks_add_custom_headers s st1) as Ht. by rewrite Hst2 in Ht.
    - exists st1. split; [done|reflexivity]. }
  unfold bind at 1. rewrite Hh. clearbody mh.
  assert (sent st2 = sent st) as Hs2.
  { destruct T2 as (? & T2 & _). rewrite (ext_sent _ _ _ _ _ T2). lia. }
  pose proof (front_trans _ _ _ _ _ H1 (front_talks _ _ T2)) as H2. simpl in H2.
  (* the first playlist *)
  destruct (front_parse_playlist E url st2) as (opl & st3 & Hp & F3 & Hopl).
  unfold bind at 1. rewrite Hp.
  pose proof (front_trans _ _ _ _ _ H2 F3) as H3. simpl in H3.
  destruct opl as [pl|]; [|by eauto].
  destruct (Hopl pl eq_refl) as (resp & Hresp & Hloads). rewrite Hs2 in Hresp.
  unfold bind at 1.
  pose proof (front_print (MsgData (data pl)) st3 eq_refl) as F4.
  destruct (print (MsgData (data pl)) st3) as [r4 st4] eqn:Hr4.
  assert (r4 = Ok ()) as -> by (by inversion Hr4). clear Hr4. simpl in F4.
  pose proof (front_trans _ _ _ _ _ H3 F4) as H4. simpl in H4.
  case_bool_decide as Hmaster; [|by eauto].
  unfold bind at 1.
  pose proof (front_print MsgMaster st4 eq_refl) as F5.
  destruct (print MsgMaster st4) as [r5 st5] eqn:Hr5.
  assert (r5 = Ok ()) as -> by (by inversion Hr5). clear Hr5. simpl in F5.
  pose proof (front_trans _ _ _ _ _ H4 F5) as H5. simpl in H5.
  (* the selection *)
  pose proof (front_talks _ _ (talks_select_quality pl q st5)) as F6.
  pose proof (returns_select_quality pl q st5) as Hsel.
  unfold bind at 1.
  destruct (_select_quality pl q st5) as [rs st6]. simpl in F6, Hsel.
  pose proof (front_trans _ _ _ _ _ H5 F6) as H6. simpl in H6.
  destruct rs as [sel|e]; [|by eauto].
  destruct (truthy sel) as [u|] eqn:Hu; [|by eauto].
  assert (sel = Some u) as ->.
  { unfold truthy in Hu. destruct sel; [|done]. by case_bool_decide; simplify_eq. }
  destruct (Hsel (Some u) eq_refl u eq_refl) as (v & Hv & Hres & ->).
  (* the address of the variant *)
  unfold bind at 1, py_urlparse.
  destruct (urlparse_raises E url); simpl; [by eauto|].
  unfold bind at 1, py_urljoin. fold (cleaned_master_url E url).
  destruct (urljoin_raises E _ _); simpl; [by eauto|].
  (* the playlist of the variant *)
  destruct (front_parse_playlist E
              (urljoin E (cleaned_master_url E url) (playlist_uri v)) st6)
    as (opl' & st7 & Hp' & F7 & _).
  rewrite Hp'.
  pose proof (front_trans _ _ _ _ _ H6 F7) as H7. simpl in H7.
  do 2 eexists. split; [done|]. right. exists resp, pl, v. done.
Qed.

(** ** The whole pipeline *)

Ltac solve_trace :=
  repeat match goal with H : trace _ = _ |- _ => rewrite H; clear H end;
  simpl; rewrite <- ?(assoc_L (++)); simpl; rewrite ?app_nil_r; reflexivity.

(** Every run of [download_m3u8] returns, and is such a run. *)
Lemma download_m3u8_run E url out q K h st :
  ∃ b st', download_m3u8 E url out q K h st = (Ok b, st')
           ∧ pipeline_run E url out K st b st'.
Proof.
  rewrite download_m3u8_eq. unfold try_finally, try_except. unfold bind at 1.
  destruct (find_playlist_spec E url q h st) as (r & st1 & Hfind & Hfront).
  rewrite Hfind.
  assert (∃ e_front k, extends st st1 e_front [] k ∧ from_stage Front e_front
            ∧ playlist_requests E url st (playlist_gets e_front))
    as (e_front & k & H1 & F1 & G1).
  { destruct Hfront as [(evs & k & ? & ? & ?)
                       |(resp & master & v & ? & ? & ? & ? & (evs & k & ? & ? & ?))].
    - exists evs, k. split_and!; try done. by left.
    - exists evs, k. split_and!; try done. right. by exists resp, master, v. }
  clear Hfront Hfind.
  (* what is left to do once the [try] block is over, in the state [st4] *)
  assert (∀ b st4 e_fetch e_conv e_wrap,
    trace st4 = trace st ++ e_front ++ e_fetch ++ e_conv ++ e_wrap →
    from_stage Fetch e_fetch → from_stage Convert e_conv →
    from_stage Wrap e_wrap →
    ((e_fetch = [] ∧ e_conv = [] ∧ b = false
        ∧ temp_dir st4 = temp_dir st ∧ dirs st4 = dirs st)
       ∨ ∃ pl st1 r1 st2,
           _download_segments E pl url K st1 = (r1, st2)
           ∧ trace st2 = trace st1 ++ e_fetch
           ∧ temp_dir st1 = temp_dir st ∧ dirs st1 = dirs st
           ∧ segment_files st1 = segment_files st
           ∧ temp_dir st4 = temp_dir st2 ∧ dirs st4 = dirs st2
           ∧ (r1 ≠ Ok true → e_conv = [] ∧ b = false)
           ∧ (r1 = Ok true →
                ∃ st3, _convert_to_mp4 E pl out st2 = (Ok b, st3)
                       ∧ trace st3 = trace st2 ++ e_conv)) →
    ∃ b' st',
      match _cleanup E st4 with
      | (Ok _, st'') => (Ok b, st'')
      | (Raise e, st'') => (Raise e, st'')
      end = (Ok b', st')
      ∧ pipeline_run E url out K st b' st') as Hend.
  { intros b st4 e_fetch e_conv e_wrap Ht Ff Fc Fw Hlink.
    destruct (cleanup_spec E st4) as (st' & e_clean & Hc & Htc & Fcl & _).
    rewrite Hc. exists b, st'. split; [done|].
    exists e_front, e_fetch, e_conv, e_wrap, e_clean, st4.
    split_and!; try done.
    rewrite Htc, Ht. by rewrite <- !(assoc_L (++)). }
  destruct H1 as [Ht1 Hf1 Hs1 Hd1 Hdirs1]. rewrite app_nil_r in Hf1.
  destruct r as [[pl|]|e]; simpl.
  - (* a playlist of segments *)
    unfold bind at 1.
    destruct (download_segments_spec E pl url K st1)
      as (r1 & st2 & e_fetch & Hrun & Ht2 & Ff & _).
    rewrite Hrun.
    destruct r1 as [[]|e]; simpl.
    + unfold bind at 1.
      destruct (convert_spec E pl out st2) as (b & st3 & e_conv & Hcv & H3 & Fc & _).
      rewrite Hcv. destruct H3 as [Ht3 _ _ Hd3 Hdirs3].
      destruct b; simpl.
      * apply (Hend true _ e_fetch e_conv [EPrint MsgCompleted]).
        -- solve_trace.
        -- done.
        -- done.
        -- by repeat constructor.
        -- right. exists pl, st1, (Ok true), st2. split_and!; try done.
           intros _. by exists st3.
      * apply (Hend false _ e_fetch e_conv []).
        -- solve_trace.
        -- done.
        -- done.
        -- constructor.
        -- right. exists pl, st1, (Ok true), st2. split_and!; try done.
           intros _. by exists st3.
    + apply (Hend false _ e_fetch [] []).
      * solve_trace.
      * done.
      * constructor.
      * constructor.
      * right. exists pl, st1, (Ok false), st2. split_and!; try done.
    + apply (Hend false _ e_fetch [] [EPrint (MsgError e)]).
      * solve_trace.
      * done.
      * constructor.
      * by repeat constructor.
      * right. exists pl, st1, (Raise e), st2. split_and!; try done.
  - apply (Hend false _ [] [] []).
    + solve_trace.
    + constructor.
    + constructor.
    + constructor.
    + left. done.
  - apply (Hend false _ [] [] [EPrint (MsgError e)]).
    + solve_trace.
    + constructor.
    + constructor.
    + by repeat constructor.
    + left. done.
Qed.

(** * Printing and reading numbers *)

Module PyNumFacts.
Import PyStr PyStrFacts.

Lemma is_digit_digit_char d : (d < 10)%N → is_digit (digit_char d) = true.
Proof.
  intros. unfold is_digit. rewrite N_of_digit_char by done.
  apply andb_true_iff. split; apply N.leb_le; lia.
Qed.

Lemma digit_val_digit_char d : (d < 10)%N → digit_val (digit_char d) = d.
Proof. intros. unfold digit_val. rewrite N_of_digit_char by done. lia. Qed.

Lemma contains_char_app c a b :
  contains_char c (a +:+ b) = contains_char c a || contains_char c b.
Proof.
  induction a as [|x a IH]; [done|]. rewrite append_cons. simpl.
  by destruct (Ascii.eqb c x).
Qed.

Lemma eqb_digit_false c d :
  is_digit c = false → is_digit d = true → Ascii.eqb c d = false.
Proof.
  intros Hc Hd. destruct (Ascii.eqb_spec c d) as [->|]; [congruence|done].
Qed.

Lemma contains_char_of_N c n :
  is_digit c = false → contains_char c (of_N n) = false.
Proof.
  intros Hc. unfold of_N. generalize (S (N.to_nat (N.log2 n))). intros fuel.
  revert n. induction fuel as [|fuel IH]; intros n; simpl; [done|].
  pose proof (N.mod_lt n 10).
  destruct (n <? 10)%N eqn:Hlt.
  - apply N.ltb_lt in Hlt. simpl.
    by rewrite (eqb_digit_false _ _ Hc (is_digit_digit_char n Hlt)).
  - rewrite contains_char_app, IH. simpl.
    rewrite (eqb_digit_false c (digit_char (n mod 10))); [done..|].
    apply is_digit_digit_char. lia.
Qed.

Lemma contains_char_of_Z c z :
  is_digit c = false → c ≠ "-"%char → contains_char c (of_Z z) = false.
Proof.
  intros Hc Hm. unfold of_Z. destruct (z <? 0)%Z; simpl.
  - destruct (Ascii.eqb_spec c "-"); [done|]. by apply contains_char_of_N.
  - by apply contains_char_of_N.
Qed.

Lemma split_no_sep c s : contains_char c s = false → split c s = [s].
Proof.
  induction s as [|x s IH]; simpl; [done|].
  destruct (Ascii.eqb c x); [done|]. intros H. by rewrite (IH H).
Qed.

Lemma split_app c a b :
  contains_char c a = false → split c (a +:+ String c b) = a :: split c b.
Proof.
  induction a as [|x a IH]; intros H.
  - simpl. by rewrite Ascii.eqb_refl.
  - rewrite append_cons. simpl in *.
    destruct (Ascii.eqb c x); [done|]. by rewrite (IH H).
Qed.

Lemma parse_digits_app acc a b :
  parse_digits acc (a +:+ b) = parse_digits acc a ≫= λ x, parse_digits x b.
Proof.
  revert acc. induction a as [|c a IH]; intros acc; [done|].
  rewrite append_cons. simpl. by destruct (is_digit c).
Qed.

(** Reading what [str] printed gives the number back. *)
Lemma parse_digits_of_N n : parse_digits 0 (of_N n) = Some n.
Proof.
  assert (∀ k n, (n < 10 ^ N.of_nat k)%N → ∀ acc,
    parse_digits acc (of_N n)
    = Some (acc * 10 ^ N.of_nat (String.length (of_N n)) + n)%N) as H.
  { induction k as [|k IH]; intros m Hm acc.
    { simpl in Hm. assert (m = 0%N) as -> by lia.
      change (of_N 0) with (String (digit_char 0) EmptyString).
      cbn [parse_digits String.length].
      rewrite is_digit_digit_char, digit_val_digit_char by done. f_equal. lia. }
    pose proof (N.mod_lt m 10). pose proof (N.Div0.div_mod m 10).
    rewrite of_N_unfold. destruct (m <? 10)%N eqn:Hlt.
    - apply N.ltb_lt in Hlt. cbn [parse_digits String.length].
      rewrite is_digit_digit_char, digit_val_digit_char by done. f_equal. lia.
    - rewrite parse_digits_app, (IH (m / 10)%N) by (by apply div10_lt).
      cbn [mbind option_bind parse_digits].
      rewrite is_digit_digit_char, digit_val_digit_char by lia.
      f_equal. rewrite length_app. cbn [String.length].
      rewrite Nat2N.inj_add, N.pow_add_r. change (10 ^ N.of_nat 1)%N with 10%N.
      lia. }
  by rewrite (H _ n (lt_pow10_log2 n)).
Qed.

Lemma of_N_cons n : ∃ c s, of_N n = String c s ∧ is_digit c = true.
Proof.
  pose proof (parse_digits_of_N n) as H. pose proof (length_of_N_pos n) as Hl.
  destruct (of_N n) as [|c s]; simpl in *; [lia|].
  exists c, s. split; [done|]. by destruct (is_digit c).
Qed.

Lemma to_int_of_Z z : to_int (of_Z z) = Some z.
Proof.
  unfold of_Z. destruct (z <? 0)%Z eqn:Hz.
  - apply Z.ltb_lt in Hz. simpl.
    destruct (of_N_cons (Z.abs_N z)) as (c & s & Hcs & _).
    pose proof (parse_digits_of_N (Z.abs_N z)) as Hp. rewrite Hcs in *.
    rewrite bool_decide_eq_false_2 by done. rewrite Hp. simpl. f_equal. lia.
  - apply Z.ltb_ge in Hz.
    destruct (of_N_cons (Z.to_N z)) as (c & s & Hcs & Hc).
    pose proof (parse_digits_of_N (Z.to_N z)) as Hp. rewrite Hcs in *.
    unfold to_int.
    assert (Ascii.eqb c "-" = false) as ->.
    { rewrite Ascii.eqb_sym. by apply eqb_digit_false. }
    assert (Ascii.eqb c "+" = false) as ->.
    { rewrite Ascii.eqb_sym. by apply eqb_digit_false. }
    rewrite Hp. simpl. f_equal. lia.
Qed.

(** The key of the sort reads the height back from the resolution. *)
Lemma height_of_resolution w h :
  split "x" (of_Z w +:+ "x" +:+ of_Z h) !! 1%nat ≫= to_int = Some h.
Proof.
  change ("x" +:+ of_Z h) with (String "x" (of_Z h)).
  rewrite split_app by (by apply contains_char_of_Z).
  rewrite split_no_sep by (by apply contains_char_of_Z).
  simpl. apply to_int_of_Z.
Qed.
End PyNumFacts.

(** * Selection of the best quality *)

Lemma height_key_extract q ps :
  q ∈ extract_qualities ps → height_key q = Some (quality_height q).
Proof.
  intros (v & w & h & _ & Hr & Hv & _ & Hres)%elem_of_extract_qualities.
  unfold height_key, quality_height, height.
  rewrite Hres, Hv, Hr. apply PyNumFacts.height_of_resolution.
Qed.

Lemma mapM_keyed (qs : list Quality) :
  (∀ q, q ∈ qs → height_key q = Some (quality_height q)) →
  mapM (λ x, k ← height_key x; Some (k, x)) qs
  = Some ((λ x, (quality_height x, x)) <$> qs).
Proof.
  induction qs as [|q qs IH]; intros H; [done|].
  simpl. rewrite (H q) by left. simpl.
  rewrite IH by (intros; apply H; by right). done.
Qed.

Lemma omap_app_cons_inv {A B} (f : A → option B) l a y b :
  omap f l = a ++ y :: b →
  ∃ l1 x l2, l = l1 ++ x :: l2 ∧ omap f l1 = a ∧ f x = Some y ∧ omap f l2 = b.
Proof.
  revert a. induction l as [|x l IH]; intros a; simpl.
  { by destruct a. }
  destruct (f x) as [z|] eqn:Hx.
  - destruct a as [|a0 a]; intros [= ? Hl]; subst.
    + by exists [], x, l.
    + destruct (IH _ Hl) as (l1 & x' & l2 & -> & ? & ? & ?).
      exists (x :: l1), x', l2. simpl. rewrite Hx. by subst.
  - intros Hl. destruct (IH _ Hl) as (l1 & x' & l2 & -> & ? & ? & ?).
    exists (x :: l1), x', l2. simpl. rewrite Hx. by subst.
Qed.

(** After the sort, the first entry is made from the first variant of the
    greatest height. *)
Lemma sort_by_height_head ps :
  (∃ v, v ∈ ps ∧ is_Some (height v)) →
  ∃ l1 v l2 h m rest,
    ps = l1 ++ v :: l2 ∧ height v = Some h
    ∧ Forall (λ v', ∀ h', height v' = Some h' → h' < h)%Z l1
    ∧ Forall (λ v', ∀ h', height v' = Some h' → h' ≤ h)%Z l2
    ∧ sort_by_height (extract_qualities ps) = Some (m :: rest)
    ∧ quality_url m = playlist_uri v ∧ quality_playlist m = v.
Proof.
  intros (v0 & Hv0 & Hh0).
  unfold sort_by_height.
  rewrite mapM_keyed by (intros; by eapply height_key_extract). simpl.
  set (keyed := (λ x, (quality_height x, x)) <$> extract_qualities ps).
  destruct (stable_sort (λ a b, (a.1 >=? b.1)%Z) keyed) as [|[k m] rest] eqn:Hs.
  { apply stable_sort_nil_inv, fmap_nil_inv in Hs.
    assert (∃ q, q ∈ extract_qualities ps) as [q Hq]; [|by rewrite Hs in Hq; set_solver].
    unfold extract_qualities. unfold height in Hh0.
    destruct (resolution (stream_info v0)) as [[w h]|] eqn:Hr; [|by destruct Hh0].
    eexists. apply list_elem_of_omap. exists v0. split; [done|]. by rewrite Hr. }
  destruct (stable_sort_desc_head fst keyed (k, m) rest Hs)
    as (K1 & K2 & Hk & F1 & F2).
  subst keyed. apply fmap_app_inv in Hk as (Q1 & Q2' & -> & HQ & Hq).
  destruct Q2' as [|m' Q2]; simplify_eq/=.
  unfold extract_qualities in Hq.
  apply omap_app_cons_inv in Hq as (l1 & v & l2 & -> & H1 & Hv & H2).
  destruct (resolution (stream_info v)) as [[w h]|] eqn:Hr; [|done].
  simplify_eq/=.
  exists l1, v, l2, h. eexists _, _. split_and!; try done.
  - unfold height. by rewrite Hr.
  - unfold quality_height, height in F1. simpl in F1. rewrite Hr in F1. simpl in F1.
    apply Forall_forall. intros v' Hv' h' Hh'.
    unfold height in Hh'.
    destruct (resolution (stream_info v')) as [[w' h'']|] eqn:Hr'; simplify_eq/=.
    rewrite Forall_fmap, Forall_forall in F1.
    specialize (F1 {| quality_url := playlist_uri v';
                      quality_resolution := PyStr.of_Z w' +:+ "x" +:+ PyStr.of_Z h';
                      quality_bandwidth := bandwidth (stream_info v');
                      quality_playlist := v' |}).
    simpl in F1. rewrite Hr' in F1. simpl in F1. apply F1.
    apply list_elem_of_omap. exists v'. by rewrite Hr'.
  - unfold quality_height, height in F2. simpl in F2. rewrite Hr in F2. simpl in F2.
    apply Forall_forall. intros v' Hv' h' Hh'.
    unfold height in Hh'.
    destruct (resolution (stream_info v')) as [[w' h'']|] eqn:Hr'; simplify_eq/=.
    rewrite Forall_fmap, Forall_forall in F2.
    specialize (F2 {| quality_url := playlist_uri v';
                      quality_resolution := PyStr.of_Z w' +:+ "x" +:+ PyStr.of_Z h';
                      quality_bandwidth := bandwidth (stream_info v');
                      quality_playlist := v' |}).
    simpl in F2. rewrite Hr' in F2. simpl in F2. apply F2.
    apply list_elem_of_omap. exists v'. by rewrite Hr'.
Qed.

Lemma print_qualities_ok qs : ∀ i st, ∃ st', print_qualities i qs st = (Ok (), st').
Proof.
  induction qs as [|q qs IH]; intros i st; simpl; [by eexists|].
  unfold bind, print, emit. simpl. apply IH.
Qed.

(** C3, as stated, fails: of two variants of one height, [best] returns the
    first of the manifest, here the one of the smaller bandwidth. *)
Lemma best_tie_is_not_broken_by_bandwidth :
  (_select_quality Demo.tie (Some "best") (init [])).1 = Ok (Some "first.m3u8")
  ∧ ¬ best_by_height_then_bandwidth (playlists Demo.tie) "first.m3u8".
Proof.
  split; [by vm_compute|].
  intros (v & h & Hv & Hu & Hh & Hmax).
  assert (v = {| playlist_uri := "first.m3u8";
                 stream_info := {| resolution := Some (1920, 1080)%Z;
                                   bandwidth := Some 1000000%Z |} |}) as ->.
  { simpl in Hv. set_unfold in Hv. destruct Hv as [->|[->|[]]]; [done|].
    by simpl in Hu. }
  injection Hh as <-.
  edestruct (Hmax {| playlist_uri := "second.m3u8";
                    stream_info := {| resolution := Some (1920, 1080)%Z;
                                      bandwidth := Some 3000000%Z |} |}
               1080%Z) as [?|[_ ?]]; simpl in *; try lia; [|done].
  by repeat constructor.
Qed.

(** C3, amended: when some variant has a resolution, [best] returns the
    address of the first variant of the manifest among those of the greatest
    height: every variant before it is lower, none after it is higher. *)
Theorem best_selects_first_of_greatest_height (mp : M3U8) (st : state) :
  (∃ v, v ∈ playlists mp ∧ is_Some (height v)) →
  ∃ l1 v l2 h,
    playlists mp = l1 ++ v :: l2 ∧ height v = Some h
    ∧ Forall (λ v', ∀ h', height v' = Some h' → h' < h)%Z l1
    ∧ Forall (λ v', ∀ h', height v' = Some h' → h' ≤ h)%Z l2
    ∧ (_select_quality mp (Some "best") st).1 = Ok (Some (playlist_uri v)).
Proof.
  intros Hex.
  destruct (sort_by_height_head (playlists mp) Hex)
    as (l1 & v & l2 & h & m & rest & Hps & Hh & F1 & F2 & Hsort & Hurl & _).
  exists l1, v, l2, h. split_and!; try done.
  unfold _select_quality. rewrite bool_decide_eq_false_2 by (rewrite Hps; by destruct l1).
  rewrite Hsort. unfold bind at 1. unfold print at 1, emit. cbn beta iota.
  unfold bind at 1.
  match goal with |- context [print_qualities 1 _ ?s] =>
    destruct (print_qualities_ok (m :: rest) 1 s) as [st1 ->] end.
  rewrite bool_decide_eq_true_2 by done.
  by rewrite <- Hurl.
Qed.

Lemma best_selects_first_of_greatest_height_witness :
  ∃ l1 v l2 h,
    playlists Demo.tie = l1 ++ v :: l2 ∧ height v = Some h
    ∧ Forall (λ v', ∀ h', height v' = Some h' → h' < h)%Z l1
    ∧ Forall (λ v', ∀ h', height v' = Some h' → h' ≤ h)%Z l2
    ∧ (_select_quality Demo.tie (Some "best") (init [])).1
      = Ok (Some (playlist_uri v)).
Proof.
  apply (best_selects_first_of_greatest_height Demo.tie (init [])).
  eexists. split; [by left|]. by eexists.
Defined.

(** * What the trace of a run shows *)

Ltac stage_cases :=
  let e := fresh "e" in
  intros e; destruct e as [[]| |[]| | | | | |]; done.

(** Each observer reads the events of one part only. *)
Lemma observe_stages e_front e_fetch e_conv e_wrap e_clean :
  from_stage Front e_front → from_stage Fetch e_fetch →
  from_stage Convert e_conv → from_stage Wrap e_wrap →
  from_stage Cleanup e_clean →
  let evs := e_front ++ e_fetch ++ e_conv ++ e_wrap ++ e_clean in
  playlist_gets evs = playlist_gets e_front
  ∧ segment_gets evs = segment_gets e_fetch
  ∧ progress_total evs = progress_total e_fetch
  ∧ segment_errors evs = segment_errors e_fetch
  ∧ stored_files evs = stored_files e_fetch
  ∧ announced evs = announced e_fetch
  ∧ failure_reports evs = failure_reports e_fetch
  ∧ mkdtemp_calls evs = mkdtemp_calls e_fetch
  ∧ ffmpeg_calls evs = ffmpeg_calls e_conv
  ∧ concat_writes evs = concat_writes e_conv
  ∧ rmtree_calls evs = rmtree_calls e_clean.
Proof.
  intros F1 F2 F3 F4 F5 evs. subst evs.
  unfold playlist_gets, segment_gets, progress_total, segment_errors,
    stored_files, announced, failure_reports, mkdtemp_calls, ffmpeg_calls,
    concat_writes, rmtree_calls.
  rewrite !omap_app.
  split_and!;
    repeat match goal with
    | H : from_stage ?s ?evs |- context [omap ?f ?evs] =>
        rewrite (omap_stage_nil f s evs) by (stage_cases || exact H)
    end;
    by rewrite ?app_nil_r.
Qed.

(** The observers that do not read the events of a worker. *)
Lemma pool_events_omap_nil {X} (f : event → option X) E base od k ts :
  (∀ i seg u, f (EGet (ASegment i seg) u) = None) →
  (∀ file p, f (EWriteBytes file p) = None) →
  (∀ n, f (EProgress n) = None) →
  (∀ i e, f (EPrint (MsgSegmentError i e)) = None) →
  omap f (pool_events E base od k ts) = [].
Proof.
  intros H1 H2 H3 H4. revert k.
  induction ts as [|t ts IH]; intros k; [done|].
  simpl. rewrite omap_app, IH, app_nil_r.
  unfold task_events, task_requests. rewrite omap_app.
  destruct (urljoin_raises E base _); simpl;
    destruct (task_result _ _ _ _ _); simpl; by rewrite ?H1, ?H2, ?H3, ?H4.
Qed.

Lemma elem_of_pool_requests E base ts r :
  r ∈ pool_requests E base ts
  ↔ ∃ t, t ∈ ts ∧ urljoin_raises E base (segment_uri t.1) = false
         ∧ r = (t.2, t.1, urljoin E base (segment_uri t.1)).
Proof.
  unfold pool_requests. rewrite list_elem_of_bind. unfold task_requests. split.
  - intros (t & Hr & Ht). exists t.
    destruct (urljoin_raises E base _); [by apply elem_of_nil in Hr|].
    by apply list_elem_of_singleton in Hr.
  - intros (t & Ht & Hj & ->). exists t. rewrite Hj. split; [|done].
    by apply list_elem_of_singleton.
Qed.

(** The requests of the pool are those of the tasks whose address can be
    formed, in the order of the tasks. *)
Lemma pool_requests_filter E base ts :
  pool_requests E base ts
  = (λ t, (t.2, t.1, urljoin E base (segment_uri t.1)))
    <$> filter (λ t, urljoin_raises E base (segment_uri t.1) = false) ts.
Proof.
  unfold pool_requests. induction ts as [|t ts IH]; [done|].
  rewrite bind_cons, filter_cons, IH. unfold task_requests at 1.
  destruct (urljoin_raises E base _); by case_decide.
Qed.

(** What the events of [_download_segments] show: either the pool ran, and
    they show one request for each task whose address can be formed, a
    stored file with one update of the progress bar for each task that
    succeeded, one error line for each task
    that failed, and the number of failures when there are some; or it did
    not, and they show nothing of this. *)
Lemma fetch_observed E pl base K st r st' evs :
  _download_segments E pl base K st = (r, st') →
  trace st' = trace st ++ evs →
  let n := length (segments pl) in
  ((0 < K)%Z ∧ segments pl ≠ [] ∧ ∃ name order,
      let d := temp_path E name in
      let oks := pool_ok E base (Some d) (sent st) order in
      mkdtemp_name E = Some name ∧ order ≡ₚ tasks_of pl
      ∧ r = Ok (bool_decide (failed order oks = []))
      ∧ segment_gets evs = pool_requests E base order
      ∧ progress_total evs = length (succeeded order oks)
      ∧ segment_errors evs = (failed order oks).*2
      ∧ stored_files evs = segment_file_name d <$> (succeeded order oks).*2
      ∧ announced evs = [n]
      ∧ failure_reports evs
        = (if bool_decide (failed order oks = []) then []
           else [Z.of_nat (length (failed order oks))])
      ∧ mkdtemp_calls evs = [d]
      ∧ temp_dir st' = Some d ∧ dirs st' = {[d]} ∪ dirs st
      ∧ segment_files st' = segment_files st ++ stored_files evs)
  ∨ (segment_gets evs = [] ∧ progress_total evs = 0%nat
     ∧ segment_errors evs = [] ∧ stored_files evs = []
     ∧ failure_reports evs = [] ∧ r ≠ Ok true
     ∧ ((announced evs = [] ∧ mkdtemp_calls evs = []
         ∧ temp_dir st' = temp_dir st ∧ dirs st' = dirs st)
        ∨ ((K ≤ 0)%Z ∧ announced evs = [n] ∧ ∃ name,
             mkdtemp_name E = Some name
             ∧ mkdtemp_calls evs = [temp_path E name]
             ∧ temp_dir st' = Some (temp_path E name)
             ∧ dirs st' = {[temp_path E name]} ∪ dirs st))).
Proof.
  intros Hrun Ht n.
  destruct (download_segments_spec E pl base K st)
    as (r0 & st0 & evs0 & Hrun0 & Ht0 & _ & Hcases).
  rewrite Hrun in Hrun0. simplify_eq. rewrite Ht in Ht0.
  apply app_inv_head in Ht0 as ->.
  destruct Hcases as [(_ & -> & -> & H)|[(_ & _ & -> & -> & ->)|
    (name & ? & Hname & Hd & Hdirs & [(? & -> & -> & ? & ?)|(HK & order & Hp & -> & -> & Hf & Hs)])]].
  - right. destruct H. split_and!; try done. by left.
  - right. split_and!; try done. by left.
  - right. split_and!; try done. right. split_and!; try done. by exists name.
  - left. split_and!; try done. exists name, order. cbv zeta.
    set (d := temp_path E name) in *.
    set (oks := pool_ok E base (Some d) (sent st) order) in *.
    set (tl := if bool_decide (failed order oks = []) then []
               else [EPrint (MsgFailedSegments (Z.of_nat (length (failed order oks))))]).
    assert (∀ {X} (f : event → option X),
      omap f ([EMkdtemp d; EPrint (MsgDownloading n)]
              ++ pool_events E base (Some d) (sent st) order ++ tl)
      = omap f [EMkdtemp d; EPrint (MsgDownloading n)]
        ++ omap f (pool_events E base (Some d) (sent st) order) ++ omap f tl)
      as Hsplit.
    { intros. by rewrite !omap_app. }
    assert (stored_files
              ([EMkdtemp d; EPrint (MsgDownloading n)]
               ++ pool_events E base (Some d) (sent st) order ++ tl)
            = segment_file_name d <$> (succeeded order oks).*2) as Hstored.
    { unfold stored_files. rewrite Hsplit.
      fold (stored_files (pool_events E base (Some d) (sent st) order)).
      rewrite stored_files_pool. fold oks. subst tl. simpl.
      rewrite <- list_fmap_compose.
      case_bool_decide; simpl; by rewrite app_nil_r. }
    split_and!; try done.
    + unfold segment_gets. rewrite Hsplit.
      fold (segment_gets (pool_events E base (Some d) (sent st) order)).
      rewrite segment_gets_pool. subst tl. simpl.
      case_bool_decide; simpl; by rewrite app_nil_r.
    + unfold progress_total. rewrite Hsplit, !sum_list_with_app.
      fold (progress_total (pool_events E base (Some d) (sent st) order)).
      rewrite progress_total_pool. fold oks. subst tl. simpl.
      case_bool_decide; simpl; lia.
    + unfold segment_errors. rewrite Hsplit.
      fold (segment_errors (pool_events E base (Some d) (sent st) order)).
      rewrite segment_errors_pool. fold oks. subst tl. simpl.
      case_bool_decide; simpl; by rewrite app_nil_r.
    + unfold announced. rewrite Hsplit, pool_events_omap_nil by done.
      subst tl. simpl. by case_bool_decide.
    + unfold failure_reports. rewrite Hsplit, pool_events_omap_nil by done.
      subst tl. simpl. by case_bool_decide.
    + unfold mkdtemp_calls. rewrite Hsplit, pool_events_omap_nil by done.
      subst tl. simpl. by case_bool_decide.
    + etrans; [exact Hf|]. f_equal. symmetry. exact Hstored.
Qed.

(** * The properties of the specification *)

Lemma elem_of_segment_gets i seg u evs :
  EGet (ASegment i seg) u ∈ evs ↔ (i, seg, u) ∈ segment_gets evs.
Proof.
  unfold segment_gets. rewrite list_elem_of_omap. split.
  - intros H. by exists (EGet (ASegment i seg) u).
  - intros (e & He & Hf). destruct e as [| |[]| | | | | |]; by simplify_eq.
Qed.

(** C10: in every run, every request for a segment goes to the address of the
    segment joined to the address given to [download_m3u8], also when the
    playlist of segments was fetched from the address of a variant. *)
Theorem segments_resolved_against_given_url
    (E : env) (url : string) (out q : option string) (K : Z)
    (h : option string) (inp : list input_item) (i : nat) (seg : Segment)
    (u : string) :
  EGet (ASegment i seg) u ∈ trace (download_m3u8 E url out q K h (init inp)).2 →
  u = urljoin E url (segment_uri seg).
Proof.
  destruct (download_m3u8_run E url out q K h (init inp))
    as (b & st' & -> & e_front & e_fetch & e_conv & e_wrap & e_clean & st4
        & Ht & F1 & F2 & F3 & F4 & F5 & _ & _ & _ & Hlink).
  simpl. rewrite Ht. simpl.
  destruct (observe_stages _ _ _ _ _ F1 F2 F3 F4 F5) as (_ & Hg & _).
  rewrite elem_of_segment_gets, Hg.
  destruct Hlink as [(-> & _)|(pl & st1 & r1 & st2 & Hrun & Ht2 & _)].
  { by intros ?%elem_of_nil. }
  destruct (fetch_observed _ _ _ _ _ _ _ _ Hrun Ht2)
    as [(_ & _ & name & order & _ & _ & _ & -> & _)|(-> & _)].
  - by intros ([seg' i'] & _ & _ & [= -> -> ->])%elem_of_pool_requests.
  - by intros ?%elem_of_nil.
Qed.

Lemma parse_playlist_redirected f E :
  _parse_playlist (redirected f E) = _parse_playlist E.
Proof.
  apply functional_extensionality; intros u.
  apply functional_extensionality; intros st.
  unfold _parse_playlist, try_except, bind, session_get, raise_for_status. simpl.
  destruct (http E (sent st) u) as [r|e]; simpl; [|done].
  by case_bool_decide.
Qed.

Lemma download_segment_redirected f E :
  download_segment (redirected f E) = download_segment E.
Proof.
  apply functional_extensionality; intros base.
  apply functional_extensionality; intros seg.
  apply functional_extensionality; intros i.
  apply functional_extensionality; intros st.
  unfold download_segment, try_except, bind, py_urljoin, write_bytes, get,
    session_get, raise_for_status. simpl.
  destruct (urljoin_raises E base _); simpl; [done|].
  destruct (http E (sent st) _) as [r|e]; simpl; [|done].
  by case_bool_decide.
Qed.

(** What the responses say of their own address changes nothing. *)
Lemma download_m3u8_redirected f E url out q K h st :
  download_m3u8 (redirected f E) url out q K h st = download_m3u8 E url out q K h st.
Proof.
  unfold download_m3u8, _download_segments.
  by rewrite parse_playlist_redirected, download_segment_redirected.
Qed.

(** The run of the specification: the master playlist comes, after a
    redirection, from an address with a query; the variant is fetched from
    beside the master playlist, and the segments too. *)
Example demo_requests :
  let run := Demo.run (Demo.world [] [] true true) in
  playlist_gets (trace run.2)
  = ["https://cdn.example.com/v/master.m3u8?token=abc";
     "https://cdn.example.com/v/hd/index.m3u8"]
  ∧ (segment_gets (trace run.2)).*2
    = ["https://cdn.example.com/v/s0.ts"; "https://cdn.example.com/v/s1.ts";
       "https://cdn.example.com/v/s2.ts"; "https://cdn.example.com/v/s3.ts";
       "https://cdn.example.com/v/s4.ts"]
  ∧ run.1 = Ok true.
Proof. by vm_compute. Qed.

(** What a run from a new object shows of the pool and of the conversion:
    either the pool ran on the tasks of a playlist [pl], in the order
    [order], and the conversion ran exactly when no task failed; or the pool
    did not run, and there was no conversion. *)
Lemma run_fetched E url out q K h inp :
  let run := download_m3u8 E url out q K h (init inp) in
  let T := trace run.2 in
  ∃ b, run.1 = Ok b ∧
    ((∃ pl name order k,
        let d := temp_path E name in
        let n := length (segments pl) in
        let oks := pool_ok E url (Some d) k order in
        let files := segment_file_name d <$> (succeeded order oks).*2 in
        let lines := concat_lines (sorted files) in
        let out' := output_name out files in
        let concat_file := os_path_join d "concat.txt" in
        let copy_written := concat_ok E "copy" concat_file in
        let trans_written := concat_ok E "libx264" concat_file in
        let copy_ok := copy_written && ffmpeg_run E "copy" "copy" lines out' in
        let trans_ok :=
          trans_written && ffmpeg_run E "libx264" "aac" lines out' in
        (0 < K)%Z ∧ (0 < n)%nat ∧ order ≡ₚ tasks_of pl
        ∧ mkdtemp_name E = Some name
        ∧ segment_gets T = pool_requests E url order
        ∧ progress_total T = length (succeeded order oks)
        ∧ segment_errors T = (failed order oks).*2
        ∧ stored_files T = files
        ∧ announced T = [n]
        ∧ failure_reports T
          = (if bool_decide (failed order oks = []) then []
             else [Z.of_nat (length (failed order oks))])
        ∧ mkdtemp_calls T = [d]
        ∧ (failed order oks ≠ [] →
             b = false ∧ ffmpeg_calls T = [] ∧ concat_writes T = [])
        ∧ (failed order oks = [] →
             b = copy_ok || trans_ok
             ∧ ffmpeg_calls T
               = (if copy_written then [("copy", "copy")] else [])
                 ++ (if copy_ok then []
                     else if trans_written then [("libx264", "aac")] else [])
             ∧ concat_writes T
               = (if copy_written then [lines] else [])
                 ++ (if copy_ok then []
                     else if trans_written then [lines] else [])))
     ∨ (segment_gets T = [] ∧ progress_total T = 0%nat
        ∧ segment_errors T = [] ∧ stored_files T = []
        ∧ failure_reports T = [] ∧ ffmpeg_calls T = []
        ∧ concat_writes T = [] ∧ b = false
        ∧ (announced T = [] ∨ (K ≤ 0)%Z))).
Proof.
  intros run T. subst run T.
  destruct (download_m3u8_run E url out q K h (init inp))
    as (b & st' & -> & e_front & e_fetch & e_conv & e_wrap & e_clean & st4
        & Ht & F1 & F2 & F3 & F4 & F5 & _ & _ & _ & Hlink).
  exists b. split; [done|]. simpl in *. rewrite Ht.
  destruct (observe_stages _ _ _ _ _ F1 F2 F3 F4 F5)
    as (_ & -> & -> & -> & -> & -> & -> & -> & -> & -> & _).
  destruct Hlink as [(-> & -> & -> & _)
    |(pl & st1 & r1 & st2 & Hrun & Ht2 & Hd1 & Hdirs1 & Hf1 & _ & _ & Hbad & Hgood)].
  { right. split_and!; try done. by left. }
  destruct (fetch_observed _ _ _ _ _ _ _ _ Hrun Ht2)
    as [(HK & Hseg & name & order & Hname & Hp & -> & Hg & Hprog & Herr & Hst & Ha
         & Hrep & Hmk & Htd & _ & Hfiles)
       |(-> & -> & -> & -> & -> & Hr1 & Hcase)].
  2:{ destruct (Hbad Hr1) as [-> ->]. right. split_and!; try done.
      destruct Hcase as [(-> & _)|(? & _)]; [by left|by right]. }
  left. exists pl, name, order, (sent st1). cbv zeta.
  set (d := temp_path E name) in *.
  set (oks := pool_ok E url (Some d) (sent st1) order) in *.
  assert (0 < length (segments pl))%nat as Hn.
  { destruct (segments pl); simpl; [done|lia]. }
  split_and!; try done.
  - intros Hfail. rewrite bool_decide_eq_false_2 in Hbad by done.
    by destruct Hbad as [-> ->].
  - intros Hfail. rewrite bool_decide_eq_true_2 in Hgood by done.
    destruct (Hgood eq_refl) as (st3 & Hcv & Ht3).
    destruct (convert_spec E pl out st2)
      as (b' & st3' & evs & Hcv' & Hext & _ & _ & Hconv).
    rewrite Hcv in Hcv'. simplify_eq.
    pose proof (ext_trace _ _ _ _ _ Hext) as Ht3'. rewrite Ht3 in Ht3'.
    apply app_inv_head in Ht3' as <-.
    rewrite Hf1 in Hfiles. simpl in Hfiles. rewrite Hst in Hfiles.
    assert (segment_files st2 ≠ []) as Hne.
    { rewrite Hfiles. intros Hnil%fmap_nil_inv%fmap_nil_inv.
      pose proof (length_succeeded_failed order oks (length_pool_ok _ _ _ _ _)) as Hl.
      rewrite Hnil, Hfail, Hp, length_tasks_of in Hl. simpl in Hl. lia. }
    specialize (Hconv d Hne Htd). cbv zeta in Hconv. rewrite Hfiles in Hconv.
    by destruct Hconv as (? & ? & ? & _).
Qed.

Lemma pool_requests_of E base pl order :
  order ≡ₚ tasks_of pl → pool_requests E base order ≡ₚ requests_of E base pl.
Proof.
  intros Hp. unfold requests_of. rewrite <- pool_requests_filter.
  unfold pool_requests. by rewrite Hp.
Qed.

Lemma requests_of_indices E base pl : NoDup (requests_of E base pl).*1.*1.
Proof.
  unfold requests_of. rewrite <- !list_fmap_compose.
  apply (sublist_NoDup _ (tasks_of pl).*2).
  - rewrite tasks_of_indices. apply NoDup_seq.
  - apply fmap_sublist, sublist_filter.
Qed.

Lemma filter_all {A} (P : A → Prop) `{!∀ x, Decision (P x)} (l : list A) :
  Forall P l → filter P l = l.
Proof.
  induction 1 as [|x l Hx _ IH]; [done|]. by rewrite filter_cons_True, IH.
Qed.

Lemma requests_of_all E base pl :
  (∀ seg, seg ∈ segments pl → urljoin_raises E base (segment_uri seg) = false) →
  requests_of E base pl
  = imap (λ i seg, (i, seg, urljoin E base (segment_uri seg))) (segments pl).
Proof.
  intros Hall. unfold requests_of.
  rewrite filter_all.
  - unfold tasks_of. by rewrite fmap_imap.
  - apply Forall_forall. intros [seg i] Hin. simpl. apply Hall.
    unfold tasks_of in Hin. apply list_elem_of_lookup in Hin as (j & Hj).
    rewrite list_lookup_imap in Hj.
    destruct (segments pl !! j) as [s0|] eqn:Hs; simplify_eq/=.
    by eapply list_elem_of_lookup_2.
Qed.

(** A task whose address cannot be formed fails. *)
Lemma unformed_failed E base od ts t : ∀ k,
  t ∈ ts → urljoin_raises E base (segment_uri t.1) = true →
  t ∈ failed ts (pool_ok E base od k ts).
Proof.
  unfold failed. induction ts as [|a ts IH]; intros k Hin Hr.
  { by apply elem_of_nil in Hin. }
  simpl. rewrite filter_cons. simpl.
  apply elem_of_cons in Hin as [<-|Hin].
  - unfold task_ok, task_result. rewrite Hr. simpl. apply list_elem_of_here.
  - specialize (IH (k + length (task_requests E base a))%nat Hin Hr).
    case_decide; simpl; [by apply list_elem_of_further|done].
Qed.

Lemma elem_of_tasks_of pl seg i :
  (seg, i) ∈ tasks_of pl → segments pl !! i = Some seg.
Proof.
  unfold tasks_of. intros (j & Hj)%list_elem_of_lookup.
  rewrite list_lookup_imap in Hj.
  destruct (segments pl !! j) as [s|] eqn:Hs; simplify_eq/=. done.
Qed.

Lemma tasks_of_lookup pl seg i :
  segments pl !! i = Some seg → (seg, i) ∈ tasks_of pl.
Proof.
  intros Hs. unfold tasks_of. apply list_elem_of_lookup. exists i.
  by rewrite list_lookup_imap, Hs.
Qed.

Lemma order_indices pl (order : list (Segment * nat)) :
  order ≡ₚ tasks_of pl → order.*2 ≡ₚ seq 0 (length (segments pl)).
Proof. intros ->. by rewrite tasks_of_indices. Qed.

Lemma succeeded_all {T} (ts : list T) oks :
  length oks = length ts → failed ts oks = [] → succeeded ts oks ≡ₚ ts.
Proof.
  intros Hl Hf. rewrite <- (succeeded_failed_perm ts oks Hl) at 2.
  by rewrite Hf, app_nil_r.
Qed.

(** C5: in every run in which the fetch of some segment fails, the pool has
    run on every segment of a playlist [pl]: a request was sent for each
    segment whose address can be formed, once each, and every index has its
    one result, a stored file or an error line; the number of failures is
    printed; [download_m3u8] returns [False]; and ffmpeg is not run, nor is
    [concat.txt] written. *)
Theorem partial_failure_refuses_conversion
    (E : env) (url : string) (out q : option string) (K : Z)
    (h : option string) (inp : list input_item) :
  let run := download_m3u8 E url out q K h (init inp) in
  let T := trace run.2 in
  segment_errors T ≠ [] →
  ∃ pl d,
    let n := length (segments pl) in
    announced T = [n] ∧ mkdtemp_calls T = [d]
    ∧ segment_gets T ≡ₚ requests_of E url pl
    ∧ (∀ i seg, segments pl !! i = Some seg →
         urljoin_raises E url (segment_uri seg) = true → i ∈ segment_errors T)
    ∧ stored_files T ++ (segment_file_name d <$> segment_errors T)
      ≡ₚ segment_file_name d <$> seq 0 n
    ∧ failure_reports T = [Z.of_nat (length (segment_errors T))]
    ∧ run.1 = Ok false
    ∧ ffmpeg_calls T = [] ∧ concat_writes T = [].
Proof.
  intros run T Herr.
  destruct (run_fetched E url out q K h inp) as (b & Hb & Hcases).
  fold run T in Hb, Hcases.
  destruct Hcases as [(pl & name & order & k & Hrun)|(_ & _ & Hnil & _)];
    [|done].
  cbv zeta in Hrun.
  destruct Hrun as (_ & _ & Hp & _ & Hg & _ & He & Hst & Ha & Hrep & Hmk & Hbad & _).
  set (oks := pool_ok E url (Some (temp_path E name)) k order) in *.
  assert (failed order oks ≠ []) as Hfail.
  { intros Hnil. by rewrite He, Hnil in Herr. }
  destruct (Hbad Hfail) as (-> & ? & ?).
  exists pl, (temp_path E name). cbv zeta. split_and!; try done.
  - rewrite Hg. by apply pool_requests_of.
  - intros i seg Hs Hr. rewrite He.
    apply (list_elem_of_fmap_2 snd _ (seg, i)), unformed_failed; [|done].
    rewrite Hp. by apply tasks_of_lookup.
  - rewrite Hst, He, <- fmap_app, <- fmap_app.
    rewrite (succeeded_failed_perm order oks) by apply length_pool_ok.
    by rewrite (order_indices pl order Hp).
  - rewrite Hrep, bool_decide_eq_false_2 by done.
    by rewrite He, length_fmap.
Qed.

(** C7, as stated, fails: with one fetch of five that times out, the
    progress bar ends on 4. *)
Lemma progress_misses_failed_fetch :
  let run := Demo.run (Demo.world ["https://cdn.example.com/v/s2.ts"] [] true true) in
  announced (trace run.2) = [5%nat] ∧ progress_total (trace run.2) ≠ 5%nat.
Proof. split; by vm_compute. Qed.

(** C7, amended: the progress bar is updated once for each fetch that
    succeeds, with the file it stored, and not for a fetch that fails: when
    the pool has run on [n] segments, the progress and the failures add up
    to [n]. *)
Theorem progress_counts_successful_fetches
    (E : env) (url : string) (out q : option string) (K : Z)
    (h : option string) (inp : list input_item) (n : nat) :
  let run := download_m3u8 E url out q K h (init inp) in
  let T := trace run.2 in
  (0 < K)%Z → n ∈ announced T →
  (progress_total T + length (segment_errors T) = n)%nat
  ∧ progress_total T = length (stored_files T).
Proof.
  intros run T HK Hn.
  destruct (run_fetched E url out q K h inp) as (b & Hb & Hcases).
  fold run T in Hb, Hcases.
  destruct Hcases as [(pl & name & order & k & Hrun)
                     |(_ & _ & _ & _ & _ & _ & _ & _ & [Ha|?])]; [|..].
  - cbv zeta in Hrun.
    destruct Hrun as (_ & _ & Hp & _ & _ & Hprog & He & Hst & Ha & _).
    rewrite Ha in Hn. apply list_elem_of_singleton in Hn as ->.
    rewrite Hprog, He, Hst, !length_fmap. split; [|done].
    rewrite length_succeeded_failed by apply length_pool_ok.
    by rewrite Hp, length_tasks_of.
  - rewrite Ha in Hn. by apply elem_of_nil in Hn.
  - lia.
Qed.

(** C8, as stated, fails: two runs in which different segments fail end
    with the same result and the same report, the number of failures. *)
Lemma failure_report_is_a_count :
  let run1 := Demo.run (Demo.world ["https://cdn.example.com/v/s1.ts"] [] true true) in
  let run3 := Demo.run (Demo.world ["https://cdn.example.com/v/s3.ts"] [] true true) in
  run1.1 = run3.1
  ∧ failure_reports (trace run1.2) = failure_reports (trace run3.2)
  ∧ segment_errors (trace run1.2) ≠ segment_errors (trace run3.2).
Proof. split_and!; by vm_compute. Qed.

(** C8, amended: when the fetch of some segment fails, [download_m3u8]
    returns [False] and the failure it reports is the number of failed
    segments; the failed indices are those of the error lines the workers
    printed, one line each: with the files stored they account for every
    index of the playlist, once. *)
Theorem failure_reports_count_of_failed_indices
    (E : env) (url : string) (out q : option string) (K : Z)
    (h : option string) (inp : list input_item) :
  let run := download_m3u8 E url out q K h (init inp) in
  let T := trace run.2 in
  segment_errors T ≠ [] →
  ∃ n d, announced T = [n] ∧ mkdtemp_calls T = [d]
         ∧ run.1 = Ok false
         ∧ failure_reports T = [Z.of_nat (length (segment_errors T))]
         ∧ stored_files T ++ (segment_file_name d <$> segment_errors T)
           ≡ₚ segment_file_name d <$> seq 0 n.
Proof.
  intros run T Herr.
  destruct (run_fetched E url out q K h inp) as (b & Hb & Hcases).
  fold run T in Hb, Hcases.
  destruct Hcases as [(pl & name & order & k & Hrun)|(_ & _ & Hnil & _)];
    [|done].
  cbv zeta in Hrun.
  destruct Hrun as (_ & _ & Hp & _ & _ & _ & He & Hst & Ha & Hrep & Hmk & Hbad & _).
  set (oks := pool_ok E url (Some (temp_path E name)) k order) in *.
  assert (failed order oks ≠ []) as Hfail.
  { intros Hnil. by rewrite He, Hnil in Herr. }
  destruct (Hbad Hfail) as (-> & ? & ?).
  exists (length (segments pl)), (temp_path E name). split_and!; try done.
  - rewrite Hrep, bool_decide_eq_false_2 by done.
    by rewrite He, length_fmap.
  - rewrite Hst, He, <- fmap_app, <- fmap_app.
    rewrite (succeeded_failed_perm order oks) by apply length_pool_ok.
    by rewrite (order_indices pl order Hp).
Qed.

(** Up to 100000 segments, what is written to [concat.txt] is the list of
    the segment files in the order of the playlist, whatever the order in
    which the fetches finished. *)
Lemma concat_in_playlist_order
    (E : env) (url : string) (out q : option string) (K : Z)
    (h : option string) (inp : list input_item) (n : nat) (d : string)
    (lines : list string) :
  let run := download_m3u8 E url out q K h (init inp) in
  let T := trace run.2 in
  n ∈ announced T → d ∈ mkdtemp_calls T → lines ∈ concat_writes T →
  (N.of_nat n ≤ 100000)%N →
  lines = concat_lines (segment_file_name d <$> seq 0 n).
Proof.
  intros run T Hn Hd Hlines Hbound.
  destruct (run_fetched E url out q K h inp) as (b & Hb & Hcases).
  fold run T in Hb, Hcases.
  destruct Hcases as [(pl & name & order & k & Hrun)
                     |(_ & _ & _ & _ & _ & _ & Hnil & _)].
  2:{ rewrite Hnil in Hlines. by apply elem_of_nil in Hlines. }
  cbv zeta in Hrun.
  destruct Hrun as (_ & _ & Hp & _ & _ & _ & _ & _ & Ha & _ & Hmk & Hbad & Hgood).
  set (oks := pool_ok E url (Some (temp_path E name)) k order) in *.
  rewrite Ha in Hn. apply list_elem_of_singleton in Hn as ->.
  rewrite Hmk in Hd. apply list_elem_of_singleton in Hd as ->.
  destruct (decide (failed order oks = [])) as [Hfail|Hfail].
  2:{ destruct (Hbad Hfail) as (_ & _ & Hnil). rewrite Hnil in Hlines.
      by apply elem_of_nil in Hlines. }
  destruct (Hgood Hfail) as (_ & _ & Hw). rewrite Hw in Hlines.
  assert (lines = concat_lines (sorted (segment_file_name (temp_path E name)
                                          <$> (succeeded order oks).*2))) as ->.
  { apply elem_of_app in Hlines as [Hlines|Hlines];
      repeat (case_match; try by apply elem_of_nil in Hlines);
      by apply list_elem_of_singleton in Hlines. }
  f_equal. apply sorted_segment_files; [done|].
  rewrite (succeeded_all order oks) by (done || apply length_pool_ok).
  by apply order_indices.
Qed.

(** ** Cleanup *)

Lemma temp_path_nonempty E name : temp_path E name ≠ "".
Proof.
  unfold temp_path, os_path_join.
  change (String.prefix "/" ("m3u8_download_" +:+ name)) with false. cbv iota.
  destruct (bool_decide (gettempdir E = "") || ends_with_sep (gettempdir E));
    by destruct (gettempdir E).
Qed.

(** What [_cleanup] does to a temporary directory that exists. *)
Lemma cleanup_existing E st d :
  temp_dir st = Some d → d ≠ "" → d ∈ dirs st →
  ∃ st',
    _cleanup E st = (Ok (), st')
    ∧ trace st'
      = trace st ++ ERmtree d :: (if rmtree_ok E d then []
                                  else [EPrint (MsgCleanupWarning OSError)])
    ∧ dirs st' = (if rmtree_ok E d then dirs st ∖ {[d]} else dirs st).
Proof.
  intros Hd Hne Hin. unfold _cleanup. run. rewrite Hd.
  rewrite !bool_decide_eq_true_2 by done. simpl.
  destruct (rmtree_ok E d); simpl; eexists; split_and!; try done.
  simpl. by rewrite <- (assoc_L (++)).
Qed.

Lemma cleanup_nothing E st :
  temp_dir st = None → _cleanup E st = (Ok (), st).
Proof. intros Hd. unfold _cleanup. run. by rewrite Hd. Qed.

(** C9, as stated, fails: when the directory cannot be removed, it is still
    there when [download_m3u8] returns. *)
Lemma directory_left_when_removal_fails :
  let run := Demo.run (Demo.world [] [] true false) in
  mkdtemp_calls (trace run.2) = ["/tmp/m3u8_download_k3x9"]
  ∧ "/tmp/m3u8_download_k3x9" ∈ dirs run.2.
Proof. split; [by vm_compute|]. apply (bool_decide_unpack _). by vm_compute. Qed.

(** C9, amended: every run of [download_m3u8] returns, and ends by one
    attempt to remove the temporary directory it made, if it made one: the
    last thing it does is [rmtree] on it, after which the directory is gone,
    or, when [rmtree] fails, a warning that leaves it in place.  A run that
    made no directory removes none. *)
Theorem cleanup_attempted_once_on_every_path
    (E : env) (url : string) (out q : option string) (K : Z)
    (h : option string) (inp : list input_item) :
  let run := download_m3u8 E url out q K h (init inp) in
  let T := trace run.2 in
  (∃ b, run.1 = Ok b)
  ∧ rmtree_calls T = mkdtemp_calls T
  ∧ (length (mkdtemp_calls T) ≤ 1)%nat
  ∧ ∀ d, d ∈ mkdtemp_calls T →
      (∃ before,
          T = before ++ ERmtree d :: (if rmtree_ok E d then []
                                      else [EPrint (MsgCleanupWarning OSError)]))
      ∧ (if rmtree_ok E d then d ∉ dirs run.2 else d ∈ dirs run.2).
Proof.
  intros run T. subst run T.
  destruct (download_m3u8_run E url out q K h (init inp))
    as (b & st' & -> & e_front & e_fetch & e_conv & e_wrap & e_clean & st4
        & Ht & F1 & F2 & F3 & F4 & F5 & _ & Hcl & Ht4 & Hlink).
  simpl in *. split; [by exists b|]. rewrite Ht.
  destruct (observe_stages _ _ _ _ _ F1 F2 F3 F4 F5)
    as (_ & _ & _ & _ & _ & _ & _ & -> & _ & _ & ->).
  rewrite <- Ht.
  assert (∀ name,
    temp_dir st4 = Some (temp_path E name) →
    dirs st4 = {[temp_path E name]} ∪ ∅ →
    mkdtemp_calls e_fetch = [temp_path E name] →
    rmtree_calls e_clean = mkdtemp_calls e_fetch
    ∧ (length (mkdtemp_calls e_fetch) ≤ 1)%nat
    ∧ ∀ d, d ∈ mkdtemp_calls e_fetch →
        (∃ before,
            trace st' = before ++ ERmtree d :: (if rmtree_ok E d then []
                                      else [EPrint (MsgCleanupWarning OSError)]))
        ∧ (if rmtree_ok E d then d ∉ dirs st' else d ∈ dirs st')) as Hmade.
  { intros name Htd Hdirs Hmk. set (d := temp_path E name) in *.
    destruct (cleanup_existing E st4 d Htd) as (st'' & Hcl' & Ht' & Hd').
    { apply temp_path_nonempty. }
    { rewrite Hdirs. by apply elem_of_union_l, elem_of_singleton. }
    rewrite Hcl in Hcl'. simplify_eq.
    rewrite Ht4 in Ht'. apply app_inv_head in Ht' as ->.
    rewrite Hmk. split_and!.
    - by destruct (rmtree_ok E d).
    - simpl. lia.
    - intros ? ->%list_elem_of_singleton. split; [by exists (trace st4)|].
      rewrite Hd', Hdirs. destruct (rmtree_ok E d).
      + rewrite elem_of_difference, elem_of_singleton. by intros [_ []].
      + by apply elem_of_union_l, elem_of_singleton. }
  assert (temp_dir st4 = None → mkdtemp_calls e_fetch = [] →
    rmtree_calls e_clean = mkdtemp_calls e_fetch
    ∧ (length (mkdtemp_calls e_fetch) ≤ 1)%nat
    ∧ ∀ d, d ∈ mkdtemp_calls e_fetch →
        (∃ before,
            trace st' = before ++ ERmtree d :: (if rmtree_ok E d then []
                                      else [EPrint (MsgCleanupWarning OSError)]))
        ∧ (if rmtree_ok E d then d ∉ dirs st' else d ∈ dirs st')) as Hnone.
  { intros Htd Hmk. rewrite (cleanup_nothing E st4 Htd) in Hcl. simplify_eq.
    rewrite <- (app_nil_r (trace st')) in Ht4 at 1.
    apply app_inv_head in Ht4 as <-. rewrite Hmk. split_and!; try done.
    - simpl. lia.
    - by intros ? ?%elem_of_nil. }
  destruct Hlink as [(-> & _ & _ & Htd & _)
    |(pl & st1 & r1 & st2 & Hrun & Ht2 & Hd1 & Hdirs1 & _ & Htd4 & Hdirs4 & _)].
  { by apply Hnone. }
  destruct (fetch_observed _ _ _ _ _ _ _ _ Hrun Ht2)
    as [(_ & _ & name & order & _ & _ & _ & _ & _ & _ & _ & _ & _ & Hmk & Htd & Hdirs & _)
       |(_ & _ & _ & _ & _ & _ & [(_ & Hmk & Htd & _)|(_ & _ & name & _ & Hmk & Htd & Hdirs)])].
  - apply (Hmade name); [congruence|by rewrite Hdirs4, Hdirs, Hdirs1|done].
  - apply Hnone; [congruence|done].
  - apply (Hmade name); [congruence|by rewrite Hdirs4, Hdirs, Hdirs1|done].
Qed.

(** ** The pool *)

(** C2: whatever the number of workers, at least one, and whatever the
    scheduler, [_download_segments] runs one task for each segment of the
    playlist: it sends one request for each segment whose address can be
    formed, and no request twice for an index; a segment whose address
    cannot be formed is reported as failed; and each index has one result:
    the file of the segment is stored, or the failure of the index is
    reported. *)
Theorem pool_fetches_each_segment_once
    (E : env) (pl : M3U8) (base : string) (K : Z) (st : state) (name : string) :
  let run := _download_segments E pl base K st in
  let d := temp_path E name in
  let n := length (segments pl) in
  (0 < K)%Z → mkdtemp_name E = Some name →
  ∃ evs,
    trace run.2 = trace st ++ evs
    ∧ segment_gets evs ≡ₚ requests_of E base pl
    ∧ NoDup (segment_gets evs).*1.*1
    ∧ ((∀ seg, seg ∈ segments pl →
          urljoin_raises E base (segment_uri seg) = false) →
       segment_gets evs
       ≡ₚ imap (λ i seg, (i, seg, urljoin E base (segment_uri seg)))
            (segments pl))
    ∧ (∀ i seg, segments pl !! i = Some seg →
         urljoin_raises E base (segment_uri seg) = true → i ∈ segment_errors evs)
    ∧ (length (stored_files evs) + length (segment_errors evs) = n)%nat
    ∧ stored_files evs ++ (segment_file_name d <$> segment_errors evs)
      ≡ₚ segment_file_name d <$> seq 0 n.
Proof.
  intros run d n HK Hname. subst run n.
  destruct (download_segments_spec E pl base K st)
    as (r & st' & evs & Hrun & Ht & _ & _).
  rewrite Hrun. simpl. exists evs. split; [done|].
  assert (segment_gets evs ≡ₚ requests_of E base pl
          ∧ (∀ i seg, segments pl !! i = Some seg →
               urljoin_raises E base (segment_uri seg) = true →
               i ∈ segment_errors evs)
          ∧ (length (stored_files evs) + length (segment_errors evs)
             = length (segments pl))%nat
          ∧ stored_files evs ++ (segment_file_name d <$> segment_errors evs)
            ≡ₚ segment_file_name d <$> seq 0 (length (segments pl)))
    as (Hreq & Hun & Hlen & Hperm).
  { destruct (fetch_observed _ _ _ _ _ _ _ _ Hrun Ht)
      as [(_ & _ & name' & order & Hname' & Hp & _ & Hg & _ & He & Hst & _)
         |(Hg & _ & He & Hst & _ & _ & [(Ha & Hmk & _)|(? & _)])]; [| |lia].
    - rewrite Hname in Hname'. simplify_eq. fold d in He, Hst.
      set (oks := pool_ok E base (Some d) (sent st) order) in *.
      rewrite Hg, He, Hst. split_and!.
      + by apply pool_requests_of.
      + intros i seg Hs Hr.
        apply (list_elem_of_fmap_2 snd _ (seg, i)), unformed_failed; [|done].
        rewrite Hp. by apply tasks_of_lookup.
      + rewrite !length_fmap, length_succeeded_failed by apply length_pool_ok.
        by rewrite Hp, length_tasks_of.
      + rewrite <- fmap_app, <- fmap_app.
        rewrite (succeeded_failed_perm order oks) by apply length_pool_ok.
        by rewrite (order_indices pl order Hp).
    - (* no pool: the playlist has no segment *)
      destruct (download_segments_spec E pl base K st)
        as (r0 & st0 & evs0 & Hrun0 & Ht0 & _ & Hcases).
      rewrite Hrun in Hrun0. simplify_eq. rewrite Ht in Ht0.
      apply app_inv_head in Ht0 as ->.
      destruct Hcases as [(Hnil & _)|[(_ & Hnone & _)|(name' & _ & _ & _ & _ & [(? & _)|(_ & order & _ & _ & -> & _)])]].
      + rewrite Hg, He, Hst. unfold requests_of, tasks_of. rewrite Hnil.
        split_and!; done.
      + congruence.
      + lia.
      + done. }
  split_and!; try done.
  - rewrite Hreq. apply requests_of_indices.
  - intros Hall. by rewrite Hreq, (requests_of_all _ _ _ Hall).
Qed.

(** The second of three segments has an address that cannot be read: two
    requests are sent, and the failure of index 1 is reported. *)
Lemma pool_fetches_each_segment_once_witness :
  let E := Demo.world ["https://cdn.example.com/v/s2.ts"] [0; 3; 1]%nat true true in
  let run := _download_segments E Demo.broken Demo.master_url 4 (init []) in
  let d := temp_path E "k3x9" in
  let n := length (segments Demo.broken) in
  ∃ evs,
    trace run.2 = trace (init []) ++ evs
    ∧ segment_gets evs ≡ₚ requests_of E Demo.master_url Demo.broken
    ∧ NoDup (segment_gets evs).*1.*1
    ∧ ((∀ seg, seg ∈ segments Demo.broken →
          urljoin_raises E Demo.master_url (segment_uri seg) = false) →
       segment_gets evs
       ≡ₚ imap (λ i seg, (i, seg, urljoin E Demo.master_url (segment_uri seg)))
            (segments Demo.broken))
    ∧ (∀ i seg, segments Demo.broken !! i = Some seg →
         urljoin_raises E Demo.master_url (segment_uri seg) = true →
         i ∈ segment_errors evs)
    ∧ (length (stored_files evs) + length (segment_errors evs) = n)%nat
    ∧ stored_files evs ++ (segment_file_name d <$> segment_errors evs)
      ≡ₚ segment_file_name d <$> seq 0 n.
Proof.
  apply (pool_fetches_each_segment_once
           (Demo.world ["https://cdn.example.com/v/s2.ts"] [0; 3; 1]%nat true true)
           Demo.broken Demo.master_url 4 (init []) "k3x9"); [lia|reflexivity].
Defined.

(** In that run: no request for the segment 1, whose failure, a
    [ValueError], is reported with that of the segment 2, which timed out. *)
Example unformed_address_sends_no_request :
  let E := Demo.world ["https://cdn.example.com/v/s2.ts"] [0; 3; 1]%nat true true in
  let run := _download_segments E Demo.broken Demo.master_url 4 (init []) in
  (segment_gets (trace run.2)).*1.*1 = [0; 2]%nat
  ∧ EPrint (MsgSegmentError 1 ValueError) ∈ trace run.2
  ∧ EPrint (MsgSegmentError 2 Timeout) ∈ trace run.2
  ∧ stored_files (trace run.2) = ["/tmp/m3u8_download_k3x9/segment_00000.ts"]
  ∧ run.1 = Ok false.
Proof.
  split_and!; try by vm_compute.
  - apply list_elem_of_In. vm_compute. repeat (first [left; reflexivity | right]).
  - apply list_elem_of_In. vm_compute. repeat (first [left; reflexivity | right]).
Qed.

(** ** Conversion *)

(** C6: on the segment files of a complete download, [_convert_to_mp4]
    first tries to copy the codecs: it writes [concat.txt] and runs ffmpeg
    with them copied.  It tries a second time, to encode again, exactly when
    the first try fails, at the write or in ffmpeg, and never a third time:
    ffmpeg runs at most once in each mode, the copy first.  It returns the
    outcome of the last try: [True] after a copy that succeeds, the outcome
    of the second try otherwise; the failure of the copy is only printed. *)
Theorem convert_copies_then_transcodes_once
    (E : env) (pl : M3U8) (out : option string) (st : state) (d : string) :
  let run := _convert_to_mp4 E pl out st in
  let lines := concat_lines (sorted (segment_files st)) in
  let out' := output_name out (segment_files st) in
  let concat_file := os_path_join d "concat.txt" in
  let copy_written := concat_ok E "copy" concat_file in
  let trans_written := concat_ok E "libx264" concat_file in
  let copy_ok := copy_written && ffmpeg_run E "copy" "copy" lines out' in
  let trans_ok := trans_written && ffmpeg_run E "libx264" "aac" lines out' in
  segment_files st ≠ [] → temp_dir st = Some d →
  ∃ evs,
    trace run.2 = trace st ++ evs
    ∧ ffmpeg_calls evs
      = (if copy_written then [("copy", "copy")] else [])
        ++ (if copy_ok then []
            else if trans_written then [("libx264", "aac")] else [])
    ∧ (EPrint MsgTryingAlternative ∈ evs ↔ copy_ok = false)
    ∧ run.1 = Ok (if copy_ok then true else trans_ok).
Proof.
  intros run lines out' concat_file copy_written trans_written copy_ok trans_ok
    Hfiles Hd. subst run.
  destruct (convert_spec E pl out st) as (b & st' & evs & -> & Hext & _ & _ & H).
  destruct (H d Hfiles Hd) as (-> & Hcalls & _ & Halt).
  exists evs. split_and!; [by destruct Hext|done|done|].
  simpl. fold lines out' concat_file copy_written trans_written copy_ok trans_ok.
  by destruct copy_ok.
Qed.

Lemma convert_copies_then_transcodes_once_witness :
  let E := Demo.world [] [] false true in
  let st := {| temp_dir := Some "/tmp/m3u8_download_k3x9";
               segment_files := ["/tmp/m3u8_download_k3x9/segment_00001.ts";
                                 "/tmp/m3u8_download_k3x9/segment_00000.ts"];
               trace := []; sent := 0; stdin := []; dirs := ∅ |} in
  let run := _convert_to_mp4 E Demo.media (Some "video.mp4") st in
  ∃ evs,
    trace run.2 = trace st ++ evs
    ∧ ffmpeg_calls evs = [("copy", "copy"); ("libx264", "aac")]
    ∧ (EPrint MsgTryingAlternative ∈ evs ↔ false = false)
    ∧ run.1 = Ok true.
Proof.
  apply (convert_copies_then_transcodes_once
           (Demo.world [] [] false true) Demo.media (Some "video.mp4")
           {| temp_dir := Some "/tmp/m3u8_download_k3x9";
              segment_files := ["/tmp/m3u8_download_k3x9/segment_00001.ts";
                                "/tmp/m3u8_download_k3x9/segment_00000.ts"];
              trace := []; sent := 0; stdin := []; dirs := ∅ |}
           "/tmp/m3u8_download_k3x9"); [done|reflexivity].
Defined.

(** When [concat.txt] cannot be written for the copy, ffmpeg is not run to
    copy: the second try, which writes the file again, is the only run. *)
Example failed_list_write_skips_copy :
  let E := with_files (λ _ _, true) (λ vcodec _, negb (String.eqb vcodec "copy"))
             (Demo.world [] [] true true) in
  let st := {| temp_dir := Some "/tmp/m3u8_download_k3x9";
               segment_files := ["/tmp/m3u8_download_k3x9/segment_00000.ts"];
               trace := []; sent := 0; stdin := []; dirs := ∅ |} in
  let run := _convert_to_mp4 E Demo.media (Some "video.mp4") st in
  ffmpeg_calls (trace run.2) = [("libx264", "aac")]
  ∧ EPrint (MsgConversionError OSError) ∈ trace run.2
  ∧ run.1 = Ok true.
Proof.
  split_and!; try by vm_compute.
  apply list_elem_of_In. vm_compute. repeat (first [left; reflexivity | right]).
Qed.

(** ** The order of the segment files *)

(** C1 fails on a playlist of 100001 segments: the names of the files of
    segments 99999 and 100000 are not in the order of their indices, so the
    sorted list that is written to [concat.txt] is not the list of the files
    in the order of the playlist. *)
Theorem concat_order_breaks_at_100001_segments (d : string) :
  sorted (segment_file_name d <$> seq 0 (N.to_nat 100001))
  ≠ segment_file_name d <$> seq 0 (N.to_nat 100001).
Proof.
  intros Heq.
  pose proof (sorted_Sorted (segment_file_name d <$> seq 0 (N.to_nat 100001))) as Hs.
  rewrite Heq in Hs. clear Heq.
  assert (N.to_nat 100001 = N.to_nat 99999 + 2)%nat as Hn by lia.
  assert (S (N.to_nat 99999) = N.to_nat 100000) as Hm by lia.
  revert Hs Hn Hm. generalize (segment_file_name_100000 d).
  generalize (N.to_nat 100001) (N.to_nat 100000) (N.to_nat 99999).
  intros n1 n0 n9 Hlt Hs -> <-.
  rewrite seq_app, fmap_app in Hs.
  apply (Sorted_StronglySorted PyStr.le) in Hs.
  apply StronglySorted_app in Hs as (_ & _ & Hs).
  simpl in Hs.
  inversion Hs as [|? ? _ Hle]; subst.
  apply Forall_cons_1 in Hle as [Hle _].
  by apply (PyStrFacts.lt_not_le _ _ Hlt).
Qed.

(** The two files, sorted. *)
Example sorted_99999_100000 :
  sorted ["/t/segment_99999.ts"; "/t/segment_100000.ts"]
  = ["/t/segment_100000.ts"; "/t/segment_99999.ts"]
  ∧ segment_file_name "/t" (N.to_nat 99999) = "/t/segment_99999.ts"
  ∧ segment_file_name "/t" (N.to_nat 100000) = "/t/segment_100000.ts".
Proof. split_and!; by vm_compute. Qed.

Lemma partial_failure_refuses_conversion_witness :
  let E := Demo.world ["https://cdn.example.com/v/s2.ts"] [] true true in
  let run := Demo.run E in
  let T := trace run.2 in
  segment_errors T ≠ []
  ∧ ∃ pl d,
      let n := length (segments pl) in
      announced T = [n] ∧ mkdtemp_calls T = [d]
      ∧ segment_gets T ≡ₚ requests_of E Demo.master_url pl
      ∧ (∀ i seg, segments pl !! i = Some seg →
           urljoin_raises E Demo.master_url (segment_uri seg) = true →
           i ∈ segment_errors T)
      ∧ stored_files T ++ (segment_file_name d <$> segment_errors T)
        ≡ₚ segment_file_name d <$> seq 0 n
      ∧ failure_reports T = [Z.of_nat (length (segment_errors T))]
      ∧ run.1 = Ok false
      ∧ ffmpeg_calls T = [] ∧ concat_writes T = [].
Proof.
  split; [by vm_compute|].
  apply (partial_failure_refuses_conversion
           (Demo.world ["https://cdn.example.com/v/s2.ts"] [] true true)
           Demo.master_url None (Some "best") 4 None []).
  by vm_compute.
Defined.

Lemma progress_counts_successful_fetches_witness :
  let run := Demo.run (Demo.world ["https://cdn.example.com/v/s2.ts"] [] true true) in
  let T := trace run.2 in
  (progress_total T + length (segment_errors T) = 5)%nat
  ∧ progress_total T = length (stored_files T).
Proof.
  apply (progress_counts_successful_fetches
           (Demo.world ["https://cdn.example.com/v/s2.ts"] [] true true)
           Demo.master_url None (Some "best") 4 None [] 5); [lia|].
  vm_compute. by left.
Defined.

Lemma failure_reports_count_of_failed_indices_witness :
  let run := Demo.run (Demo.world ["https://cdn.example.com/v/s1.ts";
                                   "https://cdn.example.com/v/s3.ts"] [] true true) in
  let T := trace run.2 in
  ∃ n d, announced T = [n] ∧ mkdtemp_calls T = [d]
         ∧ run.1 = Ok false
         ∧ failure_reports T = [Z.of_nat (length (segment_errors T))]
         ∧ stored_files T ++ (segment_file_name d <$> segment_errors T)
           ≡ₚ segment_file_name d <$> seq 0 n.
Proof.
  apply (failure_reports_count_of_failed_indices
           (Demo.world ["https://cdn.example.com/v/s1.ts";
                        "https://cdn.example.com/v/s3.ts"] [] true true)
           Demo.master_url None (Some "best") 4 None []).
  by vm_compute.
Defined.

Lemma segments_resolved_against_given_url_witness :
  let E := Demo.world [] [] true true in
  let seg := {| segment_uri := "s0.ts" |} in
  let u := "https://cdn.example.com/v/s0.ts" in
  EGet (ASegment 0 seg) u
    ∈ trace (download_m3u8 E Demo.master_url None (Some "best") 4 None (init [])).2
  ∧ u = urljoin E Demo.master_url (segment_uri seg).
Proof.
  intros E seg u.
  assert (Hin : EGet (ASegment 0 seg) u
    ∈ trace (download_m3u8 E Demo.master_url None (Some "best") 4 None (init [])).2).
  { apply list_elem_of_In. vm_compute.
    repeat (first [left; reflexivity | right]). }
  split; [exact Hin|].
  apply (segments_resolved_against_given_url E Demo.master_url None
           (Some "best") 4 None [] 0 seg u Hin).
Defined.

(** * Further properties of the code *)

(** ** The custom headers *)

Module PySplitFacts.
Import PyStr PyStrFacts PyNumFacts.

Lemma split_not_nil c s : split c s ≠ [].
Proof. destruct s as [|d s]; simpl; [done|]. repeat case_match; done. Qed.

Lemma split_app_sep c a b :
  split c (a +:+ String c b) = split c a ++ split c b.
Proof.
  induction a as [|d a IH].
  - change ("" +:+ String c b) with (String c b). simpl.
    by rewrite Ascii.eqb_refl.
  - rewrite append_cons. simpl. destruct (Ascii.eqb c d).
    + by rewrite IH.
    + rewrite IH. destruct (split c a) eqn:Hs; [by apply split_not_nil in Hs|done].
Qed.

Lemma split1_app c a b :
  contains_char c a = false → split1 c (a +:+ String c b) = [a; b].
Proof.
  induction a as [|d a IH]; intros Ha.
  - change ("" +:+ String c b) with (String c b). simpl.
    by rewrite Ascii.eqb_refl.
  - rewrite append_cons. simpl in *. destruct (Ascii.eqb c d); [done|].
    by rewrite IH.
Qed.

Lemma split1_inv c s :
  contains_char c s = true →
  ∃ k v, split1 c s = [k; v] ∧ s = k +:+ String c v ∧ contains_char c k = false.
Proof.
  induction s as [|d s IH]; simpl; [done|].
  destruct (Ascii.eqb c d) eqn:Hcd.
  - apply Ascii.eqb_eq in Hcd as <-. intros _. by exists "", s.
  - intros (k & v & -> & -> & Hk)%IH. exists (String d k), v.
    rewrite append_cons. simpl. by rewrite Hcd.
Qed.

Lemma split_fields_no_sep c s : Forall (λ f, contains_char c f = false) (split c s).
Proof.
  induction s as [|d s IH]; simpl; [by repeat constructor|].
  destruct (Ascii.eqb c d) eqn:Hcd; [by constructor|].
  destruct (split c s) as [|f fs]; [by repeat constructor; simpl; rewrite Hcd|].
  inversion_clear IH. constructor; [|done]. simpl. by rewrite Hcd.
Qed.

(** A character that no field has is not in the string, unless it is the
    separator. *)
Lemma contains_char_split c d s :
  Ascii.eqb c d = false →
  Forall (λ f, contains_char c f = false) (split d s) → contains_char c s = false.
Proof.
  intros Hcd. induction s as [|e s IH]; simpl; [done|].
  destruct (Ascii.eqb d e) eqn:Hde.
  - apply Ascii.eqb_eq in Hde as <-. rewrite Hcd. by inversion_clear 1; auto.
  - destruct (split d s) as [|f fs] eqn:Hs; [by apply split_not_nil in Hs|].
    inversion_clear 1 as [|?? Hf Hfs]. simpl in Hf.
    destruct (Ascii.eqb c e); [done|]. apply IH. by constructor.
Qed.

(** A field has no character that the string has not. *)
Lemma contains_char_field c d s f :
  f ∈ split d s → contains_char c f = true → contains_char c s = true.
Proof.
  revert f. induction s as [|e s IH]; intros f; simpl.
  { by intros ->%list_elem_of_singleton. }
  destruct (Ascii.eqb d e) eqn:Hde.
  - intros [->|Hf]%elem_of_cons; [done|]. intros Hc.
    rewrite (IH f Hf Hc). by destruct (Ascii.eqb c e).
  - destruct (split d s) as [|g gs] eqn:Hs; [by apply split_not_nil in Hs|].
    intros [->|Hf]%elem_of_cons; simpl.
    + destruct (Ascii.eqb c e); [done|]. intros Hc. apply (IH g); [by left|done].
    + intros Hc. rewrite (IH f) by (by right || done). by destruct (Ascii.eqb c e).
Qed.

Lemma contains_char_lstrip c s :
  is_space c = false → contains_char c (lstrip s) = contains_char c s.
Proof.
  intros Hc. induction s as [|d s IH]; simpl; [done|].
  destruct (is_space d) eqn:Hd; [|done].
  rewrite IH. destruct (Ascii.eqb c d) eqn:Hcd; [|done].
  apply Ascii.eqb_eq in Hcd as ->. congruence.
Qed.

Lemma contains_char_rstrip c s :
  is_space c = false → contains_char c (rstrip s) = contains_char c s.
Proof.
  intros Hc. induction s as [|d s IH]; simpl; [done|].
  destruct (rstrip s) as [|e r] eqn:Hr.
  - rewrite <- IH. simpl. destruct (is_space d) eqn:Hd; simpl; [|done].
    destruct (Ascii.eqb c d) eqn:Hcd; [|done].
    apply Ascii.eqb_eq in Hcd as ->. congruence.
  - simpl. by rewrite <- IH.
Qed.

Lemma contains_char_strip c s :
  is_space c = false → contains_char c (strip s) = contains_char c s.
Proof.
  intros Hc. unfold strip.
  by rewrite contains_char_rstrip, contains_char_lstrip.
Qed.

Lemma rstrip_idemp s : rstrip (rstrip s) = rstrip s.
Proof.
  induction s as [|d s IH]; simpl; [done|].
  destruct (rstrip s) as [|e r] eqn:Hr.
  - destruct (is_space d) eqn:Hd; simpl; [done|]. by rewrite Hd.
  - simpl in *. by rewrite IH.
Qed.

Lemma lstrip_head s :
  match lstrip s with EmptyString => True | String c _ => is_space c = false end.
Proof.
  induction s as [|d s IH]; simpl; [done|].
  destruct (is_space d) eqn:Hd; [done|]. simpl. done.
Qed.

Lemma strip_idemp s : strip (strip s) = strip s.
Proof.
  unfold strip. pose proof (lstrip_head s) as Hh.
  destruct (lstrip s) as [|c t]; [done|].
  assert (∃ r, rstrip (String c t) = String c r) as [r Hr].
  { simpl. destruct (rstrip t); [rewrite Hh|]; by eexists. }
  rewrite <- (rstrip_idemp (String c t)) at 2.
  f_equal. rewrite Hr. simpl. by rewrite Hh.
Qed.

End PySplitFacts.

Lemma parse_headers_eq s :
  parse_headers s = foldl header_step ∅ (PyStr.split "," s).
Proof. done. Qed.

Lemma header_step_union m p : header_step m p = header_step ∅ p ∪ m.
Proof.
  unfold header_step.
  destruct (PyStr.contains_char ":" p); [|by rewrite (left_id_L ∅ (∪))].
  destruct (PyStr.split1 ":" p) as [|k [|v [|]]];
    try by rewrite (left_id_L ∅ (∪)).
  by rewrite insert_empty, insert_union_singleton_l.
Qed.

Lemma foldl_header_step_union m l :
  foldl header_step m l = foldl header_step ∅ l ∪ m.
Proof.
  revert m. induction l as [|p l IH]; intros m.
  - simpl. by rewrite (left_id_L ∅ (∪)).
  - cbn [foldl]. rewrite IH, (IH (header_step ∅ p)), (header_step_union m p).
    by rewrite (assoc_L (∪)).
Qed.

(** X1: the pairs after a comma are read after those before it, and win
    over them where the names are the same. *)
Theorem parse_headers_comma (a b : string) :
  parse_headers (a +:+ "," +:+ b) = parse_headers b ∪ parse_headers a.
Proof.
  rewrite !parse_headers_eq.
  change ("," +:+ b) with (String "," b).
  rewrite PySplitFacts.split_app_sep, foldl_app.
  apply foldl_header_step_union.
Qed.

(** X2: one pair, of the ASCII range, gives one header, cut at the first
    colon, name and value without the blanks around them. *)
Theorem parse_headers_pair (key value : string) :
  PyStr.is_ascii key = true → PyStr.is_ascii value = true →
  PyStr.contains_char "," key = false →
  PyStr.contains_char ":" key = false →
  PyStr.contains_char "," value = false →
  parse_headers (key +:+ ":" +:+ value) = {[ PyStr.strip key := PyStr.strip value ]}.
Proof.
  intros _ _ Hk1 Hk2 Hv.
  rewrite parse_headers_eq. unfold header_step.
  change (":" +:+ value) with (String ":" value).
  rewrite PyNumFacts.split_no_sep.
  2:{ rewrite PyNumFacts.contains_char_app, Hk1. simpl. exact Hv. }
  cbn [foldl].
  rewrite PyNumFacts.contains_char_app. simpl.
  rewrite orb_true_r.
  rewrite PySplitFacts.split1_app by done.
  by rewrite insert_empty.
Qed.

Lemma parse_headers_pair_witness :
  parse_headers ("Referer" +:+ ":" +:+ " https://example.com/a?b=1")
  = {[ "Referer" := "https://example.com/a?b=1" ]}.
Proof.
  exact (parse_headers_pair "Referer" " https://example.com/a?b=1"
           eq_refl eq_refl eq_refl eq_refl eq_refl).
Defined.

Lemma foldl_invariant {A B} (P : A → Prop) (f : A → B → A) (l : list B) (a : A) :
  P a → (∀ a x, x ∈ l → P a → P (f a x)) → P (foldl f a l).
Proof.
  revert a. induction l as [|x l IH]; intros a Ha Hf; simpl; [done|].
  apply IH; [apply Hf; [by left|done]|].
  intros a' y Hy. apply Hf. by right.
Qed.

(** X3: no name and no value of the headers read holds a comma, no name
    holds a colon, and none has blanks around it: a value with a comma is
    cut at the comma and what follows is read as the next pair. *)
Theorem parse_headers_clean (s : string) :
  map_Forall (λ key value,
                PyStr.contains_char "," key = false
                ∧ PyStr.contains_char ":" key = false
                ∧ PyStr.contains_char "," value = false
                ∧ PyStr.strip key = key ∧ PyStr.strip value = value)
             (parse_headers s).
Proof.
  rewrite parse_headers_eq.
  apply (foldl_invariant (map_Forall _)); [apply map_Forall_empty|].
  intros m p Hp Hm. unfold header_step.
  destruct (PyStr.contains_char ":" p) eqn:Hc; [|done].
  destruct (PySplitFacts.split1_inv _ _ Hc) as (k & v & -> & Hkv & Hk).
  pose proof (PySplitFacts.split_fields_no_sep "," s) as Hs.
  rewrite Forall_forall in Hs. specialize (Hs _ Hp).
  rewrite Hkv, PyNumFacts.contains_char_app in Hs.
  apply orb_false_elim in Hs as [Hk' Hv']. simpl in Hv'.
  apply map_Forall_insert_2; [|done].
  rewrite !PySplitFacts.contains_char_strip by done.
  rewrite !PySplitFacts.strip_idemp. done.
Qed.

Lemma parse_headers_no_colon s :
  PyStr.contains_char ":" s = false → parse_headers s = ∅.
Proof.
  intros Hs. rewrite parse_headers_eq.
  apply (foldl_invariant (λ m, m = ∅)); [done|].
  intros m p Hp ->. unfold header_step.
  destruct (PyStr.contains_char ":" p) eqn:Hc; [|done].
  by rewrite (PySplitFacts.contains_char_field _ _ _ _ Hp Hc) in Hs.
Qed.

Lemma foldl_header_step_empty m l :
  foldl header_step m l = ∅ →
  m = ∅ ∧ Forall (λ f, PyStr.contains_char ":" f = false) l.
Proof.
  revert m. induction l as [|p l IH]; intros m; simpl; [done|].
  intros [Hm Hl]%IH. unfold header_step in Hm.
  destruct (PyStr.contains_char ":" p) eqn:Hc; [|by split; [|constructor]].
  destruct (PySplitFacts.split1_inv _ _ Hc) as (k & v & Hkv & _).
  rewrite Hkv in Hm. by apply insert_non_empty in Hm.
Qed.

Lemma parse_headers_colon s :
  PyStr.contains_char ":" s = true → parse_headers s ≠ ∅.
Proof.
  intros Hs Hp. rewrite parse_headers_eq in Hp.
  apply foldl_header_step_empty in Hp as [_ Hp].
  by rewrite (PySplitFacts.contains_char_split ":" "," s) in Hs.
Qed.

(** X4: [_add_custom_headers] returns, whatever the string, without a
    request; the headers of the session are updated when the string holds a
    colon, once, by the headers read from it, and not at all when it holds
    none. *)
Theorem add_custom_headers_updates (headers_str : string) (st : state) :
  ∃ st' evs,
    _add_custom_headers headers_str st = (Ok (), st')
    ∧ extends st st' evs [] 0
    ∧ header_updates evs
      = (if PyStr.contains_char ":" headers_str
         then [parse_headers headers_str] else []).
Proof.
  unfold _add_custom_headers.
  destruct (PyStr.contains_char ":" headers_str) eqn:Hc.
  - pose proof (parse_headers_colon _ Hc) as Hne.
    assert (PyStr.strip headers_str ≠ "") as Hs.
    { intros Hs. rewrite <- (PySplitFacts.contains_char_strip ":") in Hc by done.
      by rewrite Hs in Hc. }
    run. rewrite (bool_decide_eq_false_2 _ Hs). simpl.
    rewrite (bool_decide_eq_false_2 _ Hne). simpl.
    eexists _, [_; _; _]. split; [reflexivity|]. split.
    { ext_solve. }
    done.
  - rewrite (parse_headers_no_colon _ Hc). run.
    destruct (bool_decide (PyStr.strip headers_str = "")); simpl.
    + exists st, []. split; [done|]. split; [apply extends_refl|done].
    + eexists _, [_]. split; [reflexivity|]. split.
      { ext_solve. }
      done.
Qed.

(** ** The other policies of the selection *)

Section insert_last.
Context {A : Type} (le_b : A → A → bool).

Lemma insert_sorted_not_nil x l : insert_sorted le_b x l ≠ [].
Proof. destruct l; simpl; [done|]. by case_match. Qed.

Lemma insert_sorted_last_stays x l :
  Exists (λ y, le_b x y = true) l → last (insert_sorted le_b x l) = last l.
Proof.
  induction l as [|y l IH]; [by inversion 1|].
  simpl. destruct (le_b x y) eqn:Hxy; [done|].
  inversion_clear 1 as [?? Hy|?? Hl]; [congruence|].
  destruct l as [|z l]; [by inversion Hl|].
  rewrite last_cons_cons, <- (IH Hl).
  destruct (insert_sorted le_b x (z :: l)) eqn:Hi;
    [by apply insert_sorted_not_nil in Hi|done].
Qed.

Lemma insert_sorted_last_new x l :
  Forall (λ y, le_b x y = false) l → insert_sorted le_b x l = l ++ [x].
Proof.
  induction 1 as [|y l Hy _ IH]; simpl; [done|]. by rewrite Hy, IH.
Qed.
End insert_last.

(** The last entry after a sort on a key, greatest first, is the last of the
    entries of the least key. *)
Lemma stable_sort_desc_last {A} (key : A → Z) (l : list A) m :
  last (stable_sort (λ a b, (key a >=? key b)%Z) l) = Some m →
  ∃ l1 l2, l = l1 ++ m :: l2
           ∧ Forall (λ y, key m ≤ key y)%Z l1
           ∧ Forall (λ y, key m < key y)%Z l2.
Proof.
  revert m. induction l as [|x l IH]; intros m; simpl; [done|].
  destruct (last (stable_sort (λ a b, (key a >=? key b)%Z) l)) as [m'|] eqn:Hl.
  - destruct (IH m' eq_refl) as (l1 & l2 & -> & H1 & H2).
    assert (Forall (λ y, key m' ≤ key y)%Z
              (stable_sort (λ a b, (key a >=? key b)%Z) (l1 ++ m' :: l2))) as Hall.
    { rewrite stable_sort_perm. apply Forall_app. split; [done|].
      constructor; [lia|]. eapply Forall_impl; [exact H2|]. intros y ?. simpl in *. lia. }
    destruct (decide (key m' ≤ key x)%Z) as [Hle|Hgt].
    + rewrite insert_sorted_last_stays, Hl.
      * intros [= <-]. exists (x :: l1), l2. split_and!; [done| |done].
        by constructor.
      * apply Exists_exists. exists m'. split.
        -- rewrite stable_sort_perm. set_solver.
        -- apply Z.geb_le. lia.
    + rewrite insert_sorted_last_new.
      * rewrite last_snoc. intros [= <-]. exists [], (l1 ++ m' :: l2).
        split_and!; [done|done|].
        rewrite <- (stable_sort_perm (λ a b, (key a >=? key b)%Z)).
        eapply Forall_impl; [exact Hall|]. intros y ?. simpl in *. lia.
      * eapply Forall_impl; [exact Hall|]. intros y ?. simpl in *.
        rewrite Z.geb_leb. apply Z.leb_gt. lia.
  - apply last_None in Hl. apply stable_sort_nil_inv in Hl as ->. simpl.
    intros [= <-]. by exists [], [].
Qed.

Lemma extract_qualities_eq ps : extract_qualities ps = omap quality_of ps.
Proof. done. Qed.

Lemma quality_of_Some v q :
  quality_of v = Some q →
  quality_url q = playlist_uri v ∧ quality_playlist q = v
  ∧ height v = Some (quality_height q).
Proof.
  unfold quality_of, quality_height, height.
  destruct (resolution (stream_info v)) as [[w h]|] eqn:Hr; [|done].
  intros [= <-]. simpl. by rewrite Hr.
Qed.

Lemma quality_of_height v h : height v = Some h → ∃ q, quality_of v = Some q.
Proof.
  unfold height, quality_of.
  destruct (resolution (stream_info v)) as [[w h']|]; [by eexists|done].
Qed.

(** The sort of [_select_quality] never fails on the entries it has made:
    the height is read back from each. *)
Lemma sort_by_height_extract ps :
  sort_by_height (extract_qualities ps)
  = Some (stable_sort (λ a b, (a.1 >=? b.1)%Z)
            ((λ x, (quality_height x, x)) <$> extract_qualities ps)).*2.
Proof.
  unfold sort_by_height.
  by rewrite mapM_keyed by (intros; by eapply height_key_extract).
Qed.

Lemma Forall_heights (P : Z → Prop) ps :
  Forall (λ q, P (quality_height q)) (omap quality_of ps) →
  Forall (λ v, ∀ h, height v = Some h → P h) ps.
Proof.
  induction ps as [|v ps IH]; simpl; [by constructor|].
  destruct (quality_of v) as [q|] eqn:Hq.
  - inversion_clear 1. constructor; [|by apply IH].
    apply quality_of_Some in Hq as (_ & _ & Hh). intros h. rewrite Hh. by intros [= <-].
  - intros H. constructor; [|by apply IH].
    intros h (q & Hq')%quality_of_height. congruence.
Qed.

(** X5: when some variant has a resolution, [worst] returns the address of
    the last variant of the manifest among those of the least height: none
    before it is lower, every variant after it is higher. *)
Theorem worst_selects_last_of_least_height (mp : M3U8) (st : state) :
  (∃ v, v ∈ playlists mp ∧ is_Some (height v)) →
  ∃ l1 v l2 h,
    playlists mp = l1 ++ v :: l2 ∧ height v = Some h
    ∧ Forall (λ v', ∀ h', height v' = Some h' → h ≤ h')%Z l1
    ∧ Forall (λ v', ∀ h', height v' = Some h' → h < h')%Z l2
    ∧ (_select_quality mp (Some "worst") st).1 = Ok (Some (playlist_uri v)).
Proof.
  intros (v0 & Hv0 & [h0 Hh0]).
  destruct (quality_of_height _ _ Hh0) as [q0 Hq0].
  assert (q0 ∈ extract_qualities (playlists mp)) as Hin.
  { apply list_elem_of_omap. by exists v0. }
  pose proof (sort_by_height_extract (playlists mp)) as Hsort.
  set (keyed := (λ x, (quality_height x, x)) <$> extract_qualities (playlists mp)) in *.
  set (sorted_keyed := stable_sort (λ a b, (a.1 >=? b.1)%Z) keyed) in *.
  destruct (last sorted_keyed) as [[k m]|] eqn:Hlast.
  2:{ apply last_None, stable_sort_nil_inv, fmap_nil_inv in Hlast.
      rewrite Hlast in Hin. by apply elem_of_nil in Hin. }
  destruct (stable_sort_desc_last fst keyed (k, m) Hlast)
    as (K1 & K2 & Hk & F1 & F2).
  subst keyed. apply fmap_app_inv in Hk as (Q1 & Q2' & -> & HQ & Hq).
  destruct Q2' as [|m' Q2]; simplify_eq/=.
  rewrite extract_qualities_eq in Hq.
  apply omap_app_cons_inv in Hq as (l1 & v & l2 & Hps & <- & Hv & <-).
  apply quality_of_Some in Hv as (Hurl & _ & Hh).
  exists l1, v, l2, (quality_height m'). split_and!; try done.
  - apply Forall_heights. by rewrite Forall_fmap in F1.
  - apply Forall_heights. by rewrite Forall_fmap in F2.
  - unfold _select_quality.
    rewrite bool_decide_eq_false_2 by (rewrite Hps; by destruct l1).
    rewrite Hsort. unfold bind at 1. unfold print at 1, emit. cbn beta iota.
    unfold bind at 1.
    match goal with |- context [print_qualities 1 ?qs ?s] =>
      destruct (print_qualities_ok qs 1 s) as [st1 ->] end.
    rewrite bool_decide_eq_false_2 by done.
    rewrite bool_decide_eq_true_2 by done.
    unfold last_item. rewrite fmap_last, Hlast. simpl.
    by rewrite <- Hurl.
Qed.

Lemma worst_selects_last_of_least_height_witness :
  ∃ l1 v l2 h,
    playlists Demo.tie = l1 ++ v :: l2 ∧ height v = Some h
    ∧ Forall (λ v', ∀ h', height v' = Some h' → h ≤ h')%Z l1
    ∧ Forall (λ v', ∀ h', height v' = Some h' → h < h')%Z l2
    ∧ (_select_quality Demo.tie (Some "worst") (init [])).1
      = Ok (Some (playlist_uri v)).
Proof.
  apply (worst_selects_last_of_least_height Demo.tie (init [])).
  eexists. split; [by left|]. by eexists.
Defined.

Lemma add_events_nil st : add_events st [] = st.
Proof. destruct st. unfold add_events. simpl. by rewrite app_nil_r. Qed.

Lemma add_events_app st a b :
  add_events (add_events st a) b = add_events st (a ++ b).
Proof. unfold add_events. simpl. by rewrite (assoc_L (++)). Qed.

Lemma emit_add_events e st : emit e st = (Ok (), add_events st [e]).
Proof. done. Qed.

Lemma print_add_events m st : print m st = (Ok (), add_events st [EPrint m]).
Proof. done. Qed.

Lemma print_qualities_run qs : ∀ i st,
  print_qualities i qs st = (Ok (), add_events st (quality_lines i qs)).
Proof.
  induction qs as [|q qs IH]; intros i st; simpl.
  - by rewrite add_events_nil.
  - unfold bind. rewrite print_add_events, IH, add_events_app.
    unfold quality_lines. simpl. rewrite Nat.add_0_r.
    do 3 f_equal. apply imap_ext. intros j x _. simpl. do 2 f_equal. lia.
Qed.

(** [_select_quality] on a manifest that has variants: the list is sorted
    and printed, an entry is chosen, and the choice is printed. *)
Lemma select_quality_run mp pref st :
  playlists mp ≠ [] →
  ∃ qs, sort_by_height (extract_qualities (playlists mp)) = Some qs
        ∧ qs ≡ₚ extract_qualities (playlists mp)
        ∧ _select_quality mp pref st
          = (selected <- select_entry pref qs;;
             match selected with
             | None => ret None
             | Some q => print (MsgSelected (quality_resolution q));;
                         ret (Some (quality_url q))
             end)
              (add_events st (EPrint MsgAvailable :: quality_lines 1 qs)).
Proof.
  intros Hne. eexists. split; [apply sort_by_height_extract|].
  split; [exact (sort_by_height_perm _ _ (sort_by_height_extract _))|].
  unfold _select_quality. rewrite (bool_decide_eq_false_2 _ Hne).
  rewrite sort_by_height_extract.
  unfold bind at 1. rewrite print_add_events.
  unfold bind at 1. rewrite print_qualities_run, add_events_app. done.
Qed.

Module PyMatchFacts.
Import PyStr PyStrFacts PyNumFacts.

Lemma prefix_contains c a b :
  String.prefix a b = true → contains_char c a = true → contains_char c b = true.
Proof.
  revert b. induction a as [|x a IH]; intros [|y b]; simpl; try done.
  destruct (ascii_dec x y) as [->|]; [|done].
  intros Hp. destruct (Ascii.eqb c y); [done|]. by apply IH.
Qed.

(** Every character of a substring is a character of the string. *)
Lemma is_substring_contains c a b :
  is_substring a b = true → contains_char c a = true → contains_char c b = true.
Proof.
  induction b as [|y b IH].
  - by destruct a.
  - cbn [is_substring]. destruct (String.prefix a (String y b)) eqn:Hp.
    + intros _. by apply prefix_contains.
    + intros Hs Hc. simpl. rewrite (IH Hs Hc). by destruct (Ascii.eqb c y).
Qed.

Lemma contains_char_lower c s :
  contains_char c (lower s) = true →
  ∃ d, contains_char d s = true ∧ lower_char d = c.
Proof.
  induction s as [|x s IH]; simpl; [done|].
  destruct (Ascii.eqb c (lower_char x)) eqn:Hc.
  - apply Ascii.eqb_eq in Hc as ->. intros _. exists x.
    by rewrite Ascii.eqb_refl.
  - intros (d & Hd & <-)%IH. exists d. rewrite Hd. by destruct (Ascii.eqb d x).
Qed.

Lemma lower_char_digit d : is_digit d = true → lower_char d = d.
Proof.
  unfold is_digit, lower_char. intros [H1 H2]%andb_prop.
  apply N.leb_le in H1, H2.
  destruct (65 <=? N_of_ascii d)%N eqn:H3; [|done].
  apply N.leb_le in H3. lia.
Qed.

(** The characters of a resolution as [_select_quality] prints it: digits,
    the sign and the [x] between width and height. *)
Lemma contains_char_resolution d w h :
  contains_char d (of_Z w +:+ "x" +:+ of_Z h) = true →
  is_digit d = true ∨ d = "x"%char ∨ d = "-"%char.
Proof.
  rewrite !contains_char_app. simpl.
  destruct (is_digit d) eqn:Hd; [by left|]. right.
  destruct (decide (d = "-"%char)) as [|Hm]; [by right|]. left.
  rewrite !(contains_char_of_Z d) in H by done. simpl in H.
  destruct (Ascii.eqb d "x") eqn:Hx; [by apply Ascii.eqb_eq in Hx|done].
Qed.

Lemma resolution_no_foreign_char c p w h :
  contains_char c (lower p) = true →
  is_digit c = false → c ≠ "x"%char → c ≠ "-"%char →
  is_substring (lower p) (lower (of_Z w +:+ "x" +:+ of_Z h)) = false.
Proof.
  intros Hc Hd Hx Hm.
  destruct (is_substring _ _) eqn:Hs; [|done].
  pose proof (is_substring_contains c _ _ Hs Hc) as Hr.
  apply contains_char_lower in Hr as (d & Hd' & <-).
  apply contains_char_resolution in Hd' as [Hdig|[->| ->]].
  - rewrite (lower_char_digit _ Hdig) in Hd. congruence.
  - by vm_compute in Hx.
  - by vm_compute in Hm.
Qed.

End PyMatchFacts.

Lemma find_none_2 {A} (f : A → bool) (l : list A) :
  (∀ x, x ∈ l → f x = false) → find f l = None.
Proof.
  induction l as [|x l IH]; intros H; simpl; [done|].
  rewrite (H x) by left. apply IH. intros y ?. apply H. by right.
Qed.

(** X6: a preference with a character that no printed resolution has (a
    letter other than [x], as in ["720p"]) matches no variant: after the
    warning, the selection is that of [best]. *)
Theorem foreign_preference_selects_best
    (mp : M3U8) (preference : string) (c : ascii) (st : state) :
  let run := _select_quality mp (Some preference) st in
  playlists mp ≠ [] → preference ≠ "best" → preference ≠ "worst" →
  PyStr.contains_char c (PyStr.lower preference) = true →
  PyStr.is_digit c = false → c ≠ "x"%char → c ≠ "-"%char →
  run.1 = (_select_quality mp (Some "best") st).1
  ∧ EPrint (MsgQualityNotFound preference) ∈ trace run.2.
Proof.
  intros run Hne Hb Hw Hc Hd Hx Hm. subst run.
  destruct (select_quality_run mp (Some preference) st Hne) as (qs & Hs & Hp & ->).
  destruct (select_quality_run mp (Some "best") st Hne) as (qs' & Hs' & _ & ->).
  rewrite Hs in Hs'. injection Hs' as <-.
  unfold select_entry.
  rewrite (bool_decide_eq_false_2 (Some preference = Some "best")) by congruence.
  rewrite (bool_decide_eq_false_2 (Some preference = Some "worst")) by congruence.
  rewrite (bool_decide_eq_true_2 (Some "best" = Some "best")) by done.
  assert (preference ≠ "") as Hemp by (by intros ->).
  simpl truthy. rewrite (bool_decide_eq_false_2 _ Hemp).
  rewrite find_none_2.
  2:{ intros q Hq. rewrite Hp in Hq.
      apply elem_of_extract_qualities in Hq as (v & w & h & _ & _ & _ & _ & ->).
      by eapply PyMatchFacts.resolution_no_foreign_char. }
  destruct qs as [|q qs]; run.
  - split; [done|]. set_solver.
  - split; [done|]. set_solver.
Qed.

Lemma foreign_preference_selects_best_witness :
  let run := _select_quality Demo.master (Some "720p") (init []) in
  run.1 = (_select_quality Demo.master (Some "best") (init [])).1
  ∧ EPrint (MsgQualityNotFound "720p") ∈ trace run.2.
Proof.
  apply (foreign_preference_selects_best Demo.master "720p" "p" (init []));
    by vm_compute.
Defined.

Lemma find_first {A} (f : A → bool) (l : list A) x :
  find f l = Some x →
  ∃ l1 l2, l = l1 ++ x :: l2 ∧ f x = true ∧ Forall (λ y, f y = false) l1.
Proof.
  induction l as [|y l IH]; simpl; [done|].
  destruct (f y) eqn:Hy.
  - intros [= <-]. by exists [], l.
  - intros (l1 & l2 & -> & ? & ?)%IH. exists (y :: l1), l2.
    split_and!; [done..|by constructor].
Qed.

Global Instance height_order_total : Total (λ a b : Z * Quality, (b.1 ≤ a.1)%Z).
Proof. intros a b. lia. Qed.

Global Instance height_order_trans : Transitive (λ a b : Z * Quality, (b.1 ≤ a.1)%Z).
Proof. intros a b c. lia. Qed.

(** The sorted list goes from the greatest height down. *)
Lemma sort_by_height_sorted ps qs :
  sort_by_height (extract_qualities ps) = Some qs →
  StronglySorted (λ a b, (quality_height b ≤ quality_height a)%Z) qs.
Proof.
  rewrite sort_by_height_extract. intros [= <-].
  set (keyed := (λ x, (quality_height x, x)) <$> extract_qualities ps).
  set (geb := λ a b : Z * Quality, (a.1 >=? b.1)%Z).
  assert (StronglySorted (λ a b : Z * Quality, (b.1 ≤ a.1)%Z)
            (stable_sort geb keyed)) as Hs.
  { apply Sorted_StronglySorted; [apply _|].
    apply (stable_sort_Sorted geb); [|apply _].
    intros a b. unfold geb. by rewrite Z.geb_le. }
  assert (Forall (λ e, e.1 = quality_height e.2) (stable_sort geb keyed)) as Hk.
  { rewrite stable_sort_perm. subst keyed. rewrite Forall_fmap.
    by apply Forall_true. }
  induction Hs as [|e l Hs IH He]; simpl; [constructor|].
  inversion_clear Hk as [|?? Hk1 Hk2]. constructor; [by apply IH|].
  rewrite Forall_fmap. rewrite Forall_forall in He, Hk2.
  apply Forall_forall. intros y Hy. simpl.
  rewrite <- Hk1, <- (Hk2 y Hy). by apply He.
Qed.

(** X7: a preference other than [best] and [worst] selects, among the
    variants whose printed resolution holds it, one of the greatest height;
    when no variant holds it, the selection is that of [best]. *)
Theorem preference_selects_highest_match
    (mp : M3U8) (preference : string) (st : state) (u : string) :
  preference ≠ "" → preference ≠ "best" → preference ≠ "worst" →
  (_select_quality mp (Some preference) st).1 = Ok (Some u) →
  (∃ v, v ∈ playlists mp ∧ resolution_matches preference v = true
        ∧ u = playlist_uri v
        ∧ ∀ v' h h', v' ∈ playlists mp →
            resolution_matches preference v' = true →
            height v = Some h → height v' = Some h' → (h' ≤ h)%Z)
  ∨ ((∀ v, v ∈ playlists mp → resolution_matches preference v = false)
     ∧ (_select_quality mp (Some "best") st).1 = Ok (Some u)).
Proof.
  intros Hemp Hb Hw.
  destruct (decide (playlists mp = [])) as [Hnil|Hne].
  { unfold _select_quality. rewrite (bool_decide_eq_true_2 _ Hnil). by run. }
  destruct (select_quality_run mp (Some preference) st Hne) as (qs & Hs & Hp & ->).
  destruct (select_quality_run mp (Some "best") st Hne) as (qs' & Hs' & _ & ->).
  rewrite Hs in Hs'. injection Hs' as <-.
  unfold select_entry.
  rewrite (bool_decide_eq_false_2 (Some preference = Some "best")) by congruence.
  rewrite (bool_decide_eq_false_2 (Some preference = Some "worst")) by congruence.
  rewrite (bool_decide_eq_true_2 (Some "best" = Some "best")) by done.
  simpl truthy. rewrite (bool_decide_eq_false_2 _ Hemp).
  set (f := λ q, PyStr.is_substring (PyStr.lower preference)
                   (PyStr.lower (quality_resolution q))).
  assert (∀ v q, quality_of v = Some q → resolution_matches preference v = f q)
    as Hf.
  { intros v q Hq. unfold resolution_matches. by rewrite Hq. }
  destruct (find f qs) as [q|] eqn:Hfind.
  - apply find_first in Hfind as (l1 & l2 & -> & Hq & Hl1).
    run. intros [= <-]. left.
    assert (q ∈ extract_qualities (playlists mp)) as Hin.
    { rewrite <- Hp. set_solver. }
    rewrite extract_qualities_eq in Hin.
    apply list_elem_of_omap in Hin as (v & Hv & Hqv).
    pose proof (quality_of_Some _ _ Hqv) as (Hurl & _ & Hh).
    exists v. split_and!; [done|by rewrite (Hf _ _ Hqv)|done|].
    intros v' h h' Hv' Hm' Hhv Hhv'.
    destruct (quality_of_height _ _ Hhv') as [q' Hq'].
    pose proof (quality_of_Some _ _ Hq') as (_ & _ & Hh').
    rewrite (Hf _ _ Hq') in Hm'.
    assert (q' ∈ l1 ++ q :: l2) as Hin'.
    { rewrite Hp, extract_qualities_eq. apply list_elem_of_omap. by exists v'. }
    assert (h = quality_height q) as -> by congruence.
    assert (h' = quality_height q') as -> by congruence.
    apply elem_of_app in Hin' as [Hin'|Hin'].
    { rewrite Forall_forall in Hl1. rewrite (Hl1 _ Hin') in Hm'. done. }
    apply elem_of_cons in Hin' as [->|Hin']; [done|].
    apply sort_by_height_sorted, StronglySorted_app_1_r in Hs.
    apply StronglySorted_cons in Hs as [Hs _].
    rewrite Forall_forall in Hs. by apply Hs.
  - intros Hrun. right. split.
    + intros v Hv. destruct (quality_of v) as [q|] eqn:Hq.
      * rewrite (Hf _ _ Hq).
        apply (find_none f qs Hfind), list_elem_of_In.
        rewrite Hp, extract_qualities_eq. apply list_elem_of_omap. by exists v.
      * unfold resolution_matches. by rewrite Hq.
    + revert Hrun. destruct qs as [|q qs]; by run.
Qed.

Lemma preference_selects_highest_match_witness :
  (∃ v, v ∈ playlists Demo.master ∧ resolution_matches "1080" v = true
        ∧ "hd/index.m3u8" = playlist_uri v
        ∧ ∀ v' h h', v' ∈ playlists Demo.master →
            resolution_matches "1080" v' = true →
            height v = Some h → height v' = Some h' → (h' ≤ h)%Z)
  ∨ ((∀ v, v ∈ playlists Demo.master → resolution_matches "1080" v = false)
     ∧ (_select_quality Demo.master (Some "best") (init [])).1
       = Ok (Some "hd/index.m3u8")).
Proof.
  apply (preference_selects_highest_match Demo.master "1080" (init []));
    by vm_compute.
Defined.

(** ** The interactive selection *)

Lemma with_stdin_same st : with_stdin st (stdin st) = st.
Proof. by destruct st. Qed.

Lemma interactive_select_refused fuel qs st line rest :
  stdin st = Line line :: rest → refused (length qs) line →
  interactive_select (S fuel) qs st
  = interactive_select fuel qs
      (with_stdin (add_events st (invalid_turn (length qs))) rest).
Proof.
  intros Hin Href. simpl. unfold bind at 1. rewrite print_add_events.
  unfold bind at 1, input. simpl. rewrite Hin.
  destruct Href as [_ Href].
  destruct (PyStr.isdigit (PyStr.strip line)) eqn:Hd;
    [destruct (PyStr.to_int (PyStr.strip line)) as [c|] eqn:Hc|].
  - rewrite bool_decide_eq_false_2 by (by apply Href).
    unfold bind at 1. rewrite print_add_events. f_equal.
    unfold with_stdin, add_events. simpl. by rewrite <- (assoc_L (++)).
  - unfold bind at 1. rewrite print_add_events. f_equal.
    unfold with_stdin, add_events. simpl. by rewrite <- (assoc_L (++)).
  - unfold bind at 1. rewrite print_add_events. f_equal.
    unfold with_stdin, add_events. simpl. by rewrite <- (assoc_L (++)).
Qed.

(** The lines refused are read one by one, each answered by the prompt and
    the message of the invalid choice. *)
Lemma interactive_select_skips qs bad : ∀ fuel st tail,
  Forall (refused (length qs)) bad →
  stdin st = (Line <$> bad) ++ tail →
  interactive_select (length bad + fuel) qs st
  = interactive_select fuel qs
      (with_stdin (add_events st (bad ≫= λ _, invalid_turn (length qs))) tail).
Proof.
  induction bad as [|line bad IH]; intros fuel st tail Hbad Hin.
  - simpl. rewrite add_events_nil. simpl in Hin. by rewrite <- Hin, with_stdin_same.
  - inversion_clear Hbad as [|?? H1 H2].
    change (length (line :: bad) + fuel)%nat with (S (length bad + fuel)).
    rewrite (interactive_select_refused _ _ _ line ((Line <$> bad) ++ tail)) by done.
    rewrite (IH _ _ tail) by done. f_equal.
    unfold with_stdin, add_events. simpl. by rewrite <- (assoc_L (++)).
Qed.

Lemma isdigit_of_N n : PyStr.isdigit (PyStr.of_N n) = true.
Proof.
  unfold PyStr.isdigit.
  destruct (PyNumFacts.of_N_cons n) as (c & s & Hn & _).
  pose proof (PyNumFacts.parse_digits_of_N n) as Hp. rewrite Hn in *.
  rewrite Hp. by apply bool_decide_eq_true_2.
Qed.

Lemma to_int_of_N n : PyStr.to_int (PyStr.of_N n) = Some (Z.of_N n).
Proof.
  rewrite <- (PyNumFacts.to_int_of_Z (Z.of_N n)). unfold PyStr.of_Z.
  destruct (Z.ltb_spec (Z.of_N n) 0); [lia|]. by rewrite N2Z.id.
Qed.

(** X9: in the interactive selection, the number of an entry of the list
    printed, typed with or without blanks around it, selects that entry: its
    address is returned, and the rest of the input is left unread. *)
Theorem typed_number_selects_printed_entry
    (mp : M3U8) (pref : option string) (st : state) (qs : list Quality)
    (k : nat) (q : Quality) (line : string) (rest : list input_item) :
  let run := _select_quality mp pref st in
  truthy pref = None →
  sort_by_height (extract_qualities (playlists mp)) = Some qs →
  qs !! k = Some q →
  stdin st = Line line :: rest →
  PyStr.strip line = PyStr.of_N (N.of_nat (S k)) →
  run.1 = Ok (Some (quality_url q))
  ∧ stdin run.2 = rest
  ∧ EPrint (MsgQuality (S k) (quality_resolution q) (quality_bandwidth q))
    ∈ trace run.2.
Proof.
  intros run Hpref Hs Hk Hin Hline. subst run.
  assert (playlists mp ≠ []) as Hne.
  { intros Hnil. rewrite Hnil in Hs. vm_compute in Hs. by simplify_eq. }
  destruct (select_quality_run mp pref st Hne) as (qs' & Hs' & _ & ->).
  rewrite Hs in Hs'. injection Hs' as <-.
  unfold select_entry.
  rewrite (bool_decide_eq_false_2 (pref = Some "best")) by (by intros ->).
  rewrite (bool_decide_eq_false_2 (pref = Some "worst")) by (by intros ->).
  rewrite Hpref.
  assert (EPrint (MsgQuality (S k) (quality_resolution q) (quality_bandwidth q))
          ∈ quality_lines 1 qs) as Hprinted.
  { unfold quality_lines. apply list_elem_of_lookup. exists k.
    by rewrite list_lookup_imap, Hk. }
  pose proof (lookup_lt_Some _ _ _ Hk) as Hlt.
  set (st0 := add_events st (EPrint MsgAvailable :: quality_lines 1 qs)).
  assert (interactive_select (S (length (stdin st0))) qs st0
          = (Ok (Some q),
             with_stdin (add_events st0 [EPrint (MsgPrompt (length qs))]) rest))
    as Hsel.
  { cbn [interactive_select]. unfold bind at 1. rewrite print_add_events.
    unfold bind at 1, input. cbn [stdin add_events st0]. rewrite Hin.
    rewrite Hline, isdigit_of_N, to_int_of_N.
    rewrite bool_decide_eq_true_2 by lia.
    replace (Z.to_nat (Z.of_N (N.of_nat (S k)) - 1)) with k by lia.
    by rewrite Hk. }
  unfold bind, get. rewrite Hsel. cbn.
  split_and!; [done..|].
  rewrite !elem_of_app. left. left. right. by right.
Qed.

Lemma typed_number_selects_printed_entry_witness :
  let run := _select_quality Demo.master None (init [Line " 2 "; Line "1"]) in
  run.1 = Ok (Some "low/index.m3u8")
  ∧ stdin run.2 = [Line "1"]
  ∧ EPrint (MsgQuality 2 "640x360" (Some 500000%Z)) ∈ trace run.2.
Proof.
  apply (typed_number_selects_printed_entry Demo.master None
           (init [Line " 2 "; Line "1"]) demo_qualities 1 demo_low " 2 "
           [Line "1"]);
    by vm_compute.
Defined.

Lemma select_entry_interactive pref qs st :
  truthy pref = None →
  select_entry pref qs st = interactive_select (S (length (stdin st))) qs st.
Proof.
  intros Hpref. unfold select_entry.
  rewrite (bool_decide_eq_false_2 (pref = Some "best")) by (by intros ->).
  rewrite (bool_decide_eq_false_2 (pref = Some "worst")) by (by intros ->).
  by rewrite Hpref.
Qed.

(** X10: in the interactive selection, every line of the ASCII range that
    is not a number, or is a number of at most 4300 digits that is not that
    of an entry, is answered by the message of the invalid choice and the
    prompt again; the interrupt key then ends the selection with no variant,
    the rest of the input unread. *)
Theorem interrupt_cancels_selection
    (mp : M3U8) (pref : option string) (st : state) (qs : list Quality)
    (bad : list string) (rest : list input_item) :
  let run := _select_quality mp pref st in
  let n := length qs in
  truthy pref = None → playlists mp ≠ [] →
  sort_by_height (extract_qualities (playlists mp)) = Some qs →
  Forall (refused n) bad →
  stdin st = (Line <$> bad) ++ Interrupt :: rest →
  run.1 = Ok None
  ∧ stdin run.2 = rest
  ∧ trace run.2
    = trace st ++ EPrint MsgAvailable :: quality_lines 1 qs
        ++ (bad ≫= λ _, [EPrint (MsgPrompt n); EPrint (MsgInvalidChoice n)])
        ++ [EPrint (MsgPrompt n); EPrint MsgCancelled].
Proof.
  intros run n Hpref Hne Hs Hbad Hin. subst run n.
  destruct (select_quality_run mp pref st Hne) as (qs' & Hs' & _ & ->).
  rewrite Hs in Hs'. injection Hs' as <-.
  set (st0 := add_events st (EPrint MsgAvailable :: quality_lines 1 qs)).
  assert (select_entry pref qs st0
          = (Ok None,
             with_stdin
               (add_events st0
                  ((bad ≫= λ _, invalid_turn (length qs))
                   ++ [EPrint (MsgPrompt (length qs)); EPrint MsgCancelled]))
               rest)) as Hsel.
  { rewrite select_entry_interactive by done.
    assert (stdin st0 = (Line <$> bad) ++ Interrupt :: rest) as Hin0 by done.
    rewrite Hin0.
    replace (S (length ((Line <$> bad) ++ Interrupt :: rest)))
      with (length bad + S (S (length rest)))%nat
      by (rewrite length_app, length_fmap; simpl; lia).
    rewrite (interactive_select_skips _ _ _ _ (Interrupt :: rest)) by done.
    cbn [interactive_select]. unfold bind at 1. rewrite print_add_events.
    unfold bind at 1, input. cbn [stdin with_stdin add_events].
    unfold bind at 1. rewrite print_add_events. unfold ret. f_equal.
    unfold with_stdin, add_events. simpl. by rewrite <- !(assoc_L (++)). }
  unfold bind. rewrite Hsel. cbn.
  split_and!; [done..|]. by rewrite <- !(assoc_L (++)).
Qed.

Lemma interrupt_cancels_selection_witness :
  let run := _select_quality Demo.master None
               (init [Line "0"; Line "three"; Line "3"; Interrupt; Line "1"]) in
  run.1 = Ok None
  ∧ stdin run.2 = [Line "1"]
  ∧ trace run.2
    = [] ++ EPrint MsgAvailable :: quality_lines 1 demo_qualities
        ++ (["0"; "three"; "3"] ≫=
              λ _, [EPrint (MsgPrompt 2); EPrint (MsgInvalidChoice 2)])
        ++ [EPrint (MsgPrompt 2); EPrint MsgCancelled].
Proof.
  apply (interrupt_cancels_selection Demo.master None
           (init [Line "0"; Line "three"; Line "3"; Interrupt; Line "1"])
           demo_qualities ["0"; "three"; "3"] [Line "1"]).
  - done.
  - done.
  - by vm_compute.
  - repeat apply Forall_cons_2; [..|apply Forall_nil_2];
      (split; [by vm_compute|]); intros Hd;
      first [ by vm_compute in Hd
            | split; [by vm_compute|];
              intros c Hc; vm_compute in Hc; simplify_eq; simpl; lia ].
  - done.
Defined.

(** X11: when the input ends after lines of the ASCII range that are not
    numbers, or are numbers of at most 4300 digits that are not those of an
    entry, and before the interrupt key, the interactive selection raises
    [EOFError], every line read. *)
Theorem exhausted_input_raises
    (mp : M3U8) (pref : option string) (st : state) (qs : list Quality)
    (bad : list string) :
  let run := _select_quality mp pref st in
  truthy pref = None → playlists mp ≠ [] →
  sort_by_height (extract_qualities (playlists mp)) = Some qs →
  Forall (refused (length qs)) bad →
  stdin st = Line <$> bad →
  run.1 = Raise EOFError ∧ stdin run.2 = [].
Proof.
  intros run Hpref Hne Hs Hbad Hin. subst run.
  destruct (select_quality_run mp pref st Hne) as (qs' & Hs' & _ & ->).
  rewrite Hs in Hs'. injection Hs' as <-.
  set (st0 := add_events st (EPrint MsgAvailable :: quality_lines 1 qs)).
  assert (select_entry pref qs st0
          = (Raise EOFError,
             with_stdin
               (add_events st0
                  ((bad ≫= λ _, invalid_turn (length qs))
                   ++ [EPrint (MsgPrompt (length qs))])) [])) as Hsel.
  { rewrite select_entry_interactive by done.
    assert (stdin st0 = (Line <$> bad) ++ []) as Hin0
      by (by rewrite app_nil_r).
    rewrite Hin0.
    replace (S (length ((Line <$> bad) ++ [])))
      with (length bad + 1)%nat
      by (rewrite length_app, length_fmap; simpl; lia).
    rewrite (interactive_select_skips _ _ _ _ []) by done.
    cbn [interactive_select]. unfold bind at 1. rewrite print_add_events.
    unfold bind at 1, input. cbn [stdin with_stdin add_events]. f_equal.
    unfold with_stdin, add_events. simpl. by rewrite <- !(assoc_L (++)). }
  unfold bind. by rewrite Hsel.
Qed.

Lemma exhausted_input_raises_witness :
  let run := _select_quality Demo.master None (init [Line "0"; Line ""]) in
  run.1 = Raise EOFError ∧ stdin run.2 = [].
Proof.
  apply (exhausted_input_raises Demo.master None (init [Line "0"; Line ""])
           demo_qualities ["0"; ""]).
  - done.
  - done.
  - by vm_compute.
  - repeat apply Forall_cons_2; [..|apply Forall_nil_2];
      (split; [by vm_compute|]); intros Hd;
      first [ by vm_compute in Hd
            | split; [by vm_compute|];
              intros c Hc; vm_compute in Hc; simplify_eq; simpl; lia ].
  - done.
Defined.

Lemma talks_select_entry pref qs : preserves talks (select_entry pref qs).
Proof.
  unfold select_entry, first_item, last_item.
  talks_with ltac:(apply talks_interactive_select).
Qed.

(** X12: the list printed under "Available qualities" has one line for each
    variant that has a resolution, numbered from 1, from the greatest height
    down. *)
Theorem qualities_listed_highest_first
    (mp : M3U8) (pref : option string) (st : state) :
  playlists mp ≠ [] →
  ∃ qs later,
    trace (_select_quality mp pref st).2
    = trace st ++ EPrint MsgAvailable
        :: imap (λ j q, EPrint (MsgQuality (S j) (quality_resolution q)
                                  (quality_bandwidth q))) qs
        ++ later
    ∧ qs ≡ₚ extract_qualities (playlists mp)
    ∧ StronglySorted (λ a b, (quality_height b ≤ quality_height a)%Z) qs.
Proof.
  intros Hne.
  destruct (select_quality_run mp pref st Hne) as (qs & Hs & Hp & ->).
  exists qs.
  match goal with |- context [bind ?m ?k ?s] =>
    assert (preserves talks (bind m k)) as Ht end.
  { talks_with ltac:(apply talks_select_entry). }
  match goal with |- context [bind ?m ?k ?s] =>
    destruct (Ht s) as (later & [Htr _ _ _ _] & _) end.
  exists later. split_and!; [|done|by eapply sort_by_height_sorted].
  rewrite Htr. simpl. by rewrite <- (assoc_L (++)).
Qed.

Lemma qualities_listed_highest_first_witness :
  ∃ qs later,
    trace (_select_quality Demo.master (Some "best") (init [])).2
    = [] ++ EPrint MsgAvailable
        :: imap (λ j q, EPrint (MsgQuality (S j) (quality_resolution q)
                                  (quality_bandwidth q))) qs
        ++ later
    ∧ qs ≡ₚ extract_qualities (playlists Demo.master)
    ∧ StronglySorted (λ a b, (quality_height b ≤ quality_height a)%Z) qs.
Proof.
  apply (qualities_listed_highest_first Demo.master (Some "best") (init [])).
  done.
Defined.

(** ** The fetch of a playlist *)

Lemma parse_playlist_run E u st :
  _parse_playlist E u st
  = (Ok (playlist_answer E (sent st) u),
     after_request st (EGet APlaylist u
                       :: (EPrint <$> playlist_report E (sent st) u))).
Proof.
  unfold _parse_playlist, playlist_answer, playlist_report, playlist_failure.
  unfold try_except, bind at 1, session_get.
  destruct (http E (sent st) u) as [r|e]; simpl.
  - unfold bind, raise_for_status, raise, ret.
    destruct (bool_decide (400 ≤ status_code r < 600)%Z); simpl.
    + unfold status_report, print, emit, after_request.
      repeat case_bool_decide; simpl; by rewrite <- ?(assoc_L (++)).
    + destruct (m3u8_loads E (content r)); simpl; [done|].
      unfold print, emit, after_request, bind. simpl.
      by rewrite <- ?(assoc_L (++)).
  - unfold status_report, after_request.
    destruct e; simpl; unfold bind, print, emit, ret, status_report; simpl;
      repeat case_bool_decide; simpl; by rewrite <- ?(assoc_L (++)).
Qed.

Lemma status_report_not_nil status : status_report status ≠ [].
Proof. unfold status_report. by repeat case_bool_decide. Qed.

Lemma failure_report_not_nil e : failure_report e ≠ [].
Proof. destruct e; try done. apply status_report_not_nil. Qed.

Lemma playlist_answer_report E k u :
  playlist_answer E k u = None ↔ playlist_report E k u ≠ [].
Proof.
  unfold playlist_answer, playlist_report, playlist_failure.
  destruct (http E k u) as [r|e]; simpl.
  - case_bool_decide; simpl.
    + split; [intros _; apply status_report_not_nil|done].
    + destruct (m3u8_loads E (content r)); simpl; by split.
  - split; [intros _; apply failure_report_not_nil|done].
Qed.

(** ** The ways out of [download_m3u8] *)

Lemma add_custom_headers_run s st :
  _add_custom_headers s st = (Ok (), add_events st (header_events s)).
Proof.
  unfold _add_custom_headers, header_events, try_except.
  destruct (bool_decide (PyStr.strip s = "")).
  { unfold ret. by rewrite add_events_nil. }
  unfold bind at 1. rewrite print_add_events.
  destruct (bool_decide (parse_headers s = ∅)); [done|].
  unfold bind. rewrite emit_add_events, print_add_events.
  by rewrite !add_events_app.
Qed.

Lemma header_events_silent s : Forall silent (header_events s).
Proof.
  unfold header_events. repeat case_bool_decide; by repeat constructor.
Qed.

Lemma opening_events_silent url h : Forall silent (opening_events url h).
Proof.
  unfold opening_events. constructor; [done|].
  destruct (truthy h); [apply header_events_silent|constructor].
Qed.

(** [find_playlist] up to the answer to the first request. *)
Lemma find_playlist_run E url q h st :
  find_playlist E url q h st
  = match playlist_answer E (sent st) url with
    | None => (Raise AttributeError, first_answer E url h st)
    | Some playlist =>
        (print (MsgData (data playlist));;
         if bool_decide (playlists playlist ≠ []) then
           print MsgMaster;;
           selected_url <- _select_quality playlist q;;
           match truthy selected_url with
           | Some selected_url =>
               parsed_master <- py_urlparse E url;;
               fixed_selected_url <-
                 py_urljoin E (scheme parsed_master +:+ "://"
                                 +:+ netloc parsed_master
                                 +:+ path parsed_master) selected_url;;
               _parse_playlist E fixed_selected_url
           | None => ret None
           end
         else ret (Some playlist)) (first_answer E url h st)
    end.
Proof.
  unfold find_playlist, first_answer, opening_events.
  unfold bind at 1. rewrite print_add_events.
  unfold bind at 1.
  assert (∀ s0, (match truthy h with
                 | Some headers_str => _add_custom_headers headers_str
                 | None => ret ()
                 end) s0
                = (Ok (), add_events s0 (match truthy h with
                                         | Some headers_str => header_events headers_str
                                         | None => []
                                         end))) as ->.
  { intros s0. destruct (truthy h); [apply add_custom_headers_run|].
    unfold ret. by rewrite add_events_nil. }
  rewrite add_events_app.
  unfold bind at 1. rewrite parse_playlist_run.
  cbn [sent add_events].
  by destruct (playlist_answer E (sent st) url).
Qed.

Lemma cleanup_none E st : temp_dir st = None → _cleanup E st = (Ok (), st).
Proof. intros H. unfold _cleanup, bind, get. by rewrite H. Qed.

(** The three ways out of the first part of [download_m3u8]. *)
Lemma download_m3u8_raised E url out q K h st e st1 :
  find_playlist E url q h st = (Raise e, st1) → temp_dir st1 = None →
  download_m3u8 E url out q K h st
  = (Ok false, add_events st1 [EPrint (MsgError e)]).
Proof.
  intros Hf Ht. rewrite download_m3u8_eq.
  unfold try_finally, try_except, bind at 1. rewrite Hf.
  unfold bind. rewrite print_add_events. unfold ret.
  by rewrite cleanup_none.
Qed.

Lemma download_m3u8_no_playlist E url out q K h st st1 :
  find_playlist E url q h st = (Ok None, st1) → temp_dir st1 = None →
  download_m3u8 E url out q K h st = (Ok false, st1).
Proof.
  intros Hf Ht. rewrite download_m3u8_eq.
  unfold try_finally, try_except, bind at 1. rewrite Hf.
  unfold fetch_and_convert, ret. by rewrite cleanup_none.
Qed.

Lemma download_m3u8_playlist E url out q K h st pl st1 :
  find_playlist E url q h st = (Ok (Some pl), st1) →
  download_m3u8 E url out q K h st
  = try_finally
      (try_except (fetch_and_convert E url out K (Some pl))
         (λ e, print (MsgError e);; ret false))
      (_cleanup E) st1.
Proof.
  intros Hf. rewrite download_m3u8_eq.
  unfold try_finally, try_except, bind at 1. by rewrite Hf.
Qed.

(** What the trace shows of events that are not requests. *)
Lemma silent_quiet evs :
  Forall silent evs →
  playlist_gets evs = [] ∧ segment_gets evs = [] ∧ stored_files evs = []
  ∧ mkdtemp_calls evs = [] ∧ rmtree_calls evs = [] ∧ ffmpeg_calls evs = []
  ∧ concat_writes evs = [] ∧ announced evs = [].
Proof.
  intros [HF HG]%silent_front.
  split_and!; [done|..];
    apply (omap_stage_nil _ Front); (stage_cases || done).
Qed.

Lemma prints_silent msgs :
  Forall (λ m, stage_of (EPrint m) = Front) msgs → Forall silent (EPrint <$> msgs).
Proof. intros H. rewrite Forall_fmap. eapply Forall_impl; [exact H|]. by intros m. Qed.

Lemma playlist_report_silent E k u : Forall silent (EPrint <$> playlist_report E k u).
Proof.
  apply prints_silent. unfold playlist_report, playlist_failure.
  destruct (http E k u) as [r|e]; simpl.
  - case_bool_decide; simpl.
    + unfold status_report. repeat case_bool_decide; by repeat constructor.
    + destruct (m3u8_loads E (content r)); by repeat constructor.
  - destruct e; simpl; try by repeat constructor.
    unfold status_report. repeat case_bool_decide; by repeat constructor.
Qed.

Lemma playlist_answer_None E k u :
  (∀ r, http E k u = Responded r →
        (400 ≤ status_code r < 600)%Z ∨ m3u8_loads E (content r) = None) →
  playlist_answer E k u = None.
Proof.
  unfold playlist_answer. destruct (http E k u) as [r|e]; [|done].
  intros H. case_bool_decide; [done|]. by destruct (H r eq_refl).
Qed.

(** The observers on the events of a run that stops in its first part:
    the opening, the requests for playlists with what is printed around
    them, and the last messages. *)
Lemma early_trace_quiet front_evs msgs :
  from_stage Front front_evs →
  let T := front_evs ++ (EPrint <$> msgs) in
  playlist_gets T = playlist_gets front_evs
  ∧ segment_gets T = [] ∧ stored_files T = [] ∧ mkdtemp_calls T = []
  ∧ rmtree_calls T = [] ∧ ffmpeg_calls T = [] ∧ concat_writes T = [].
Proof.
  intros HF T. subst T.
  assert (∀ {X} (f : event → option X),
            (∀ m, f (EPrint m) = None) → omap f (EPrint <$> msgs) = []) as Hp.
  { intros X f Hf. induction msgs as [|m ms IH]; [done|]. simpl. by rewrite Hf. }
  unfold playlist_gets, segment_gets, stored_files, mkdtemp_calls, rmtree_calls,
    ffmpeg_calls, concat_writes.
  rewrite !omap_app, !Hp by done.
  split_and!;
    repeat match goal with
    | H : from_stage ?s ?evs |- context [omap ?f ?evs] =>
        rewrite (omap_stage_nil f s evs) by (stage_cases || exact H)
    end;
    by rewrite ?app_nil_r.
Qed.

(** X14: when the first request fails, or its answer has an error status
    or does not parse, [download_m3u8] returns [False] after two reports:
    that of [_parse_playlist], and the [AttributeError] that reading [data]
    of [None] raises; it sends no other request and makes no directory. *)
Theorem failed_first_fetch_is_reported_twice
    (E : env) (url : string) (out q : option string) (K : Z)
    (h : option string) (inp : list input_item) :
  let run := download_m3u8 E url out q K h (init inp) in
  let T := trace run.2 in
  (∀ r, http E 0 url = Responded r →
        (400 ≤ status_code r < 600)%Z ∨ m3u8_loads E (content r) = None) →
  run.1 = Ok false
  ∧ (∃ before msgs,
        msgs ≠ [] ∧ playlist_gets before = []
        ∧ T = before ++ EGet APlaylist url :: (EPrint <$> msgs)
                ++ [EPrint (MsgError AttributeError)])
  ∧ playlist_gets T = [url] ∧ segment_gets T = []
  ∧ mkdtemp_calls T = [] ∧ rmtree_calls T = [] ∧ ffmpeg_calls T = [].
Proof.
  intros run T Hfail. subst T run.
  pose proof (playlist_answer_None E 0 url Hfail) as Hans.
  pose proof (find_playlist_run E url q h (init inp)) as Hfind.
  change (sent (init inp)) with 0%nat in Hfind. rewrite Hans in Hfind.
  rewrite (download_m3u8_raised _ _ _ _ _ _ _ _ _ Hfind) by done.
  cbn [fst snd trace add_events first_answer after_request init sent].
  change ([] ++ opening_events url h) with (opening_events url h).
  pose proof (opening_events_silent url h) as Hopen.
  pose proof (playlist_report_silent E 0 url) as Hrep.
  assert (playlist_report E 0 url ≠ []) as Hne by (by apply playlist_answer_report).
  remember (opening_events url h) as opening eqn:Ho. clear Ho.
  remember (playlist_report E 0 url) as msgs eqn:Hm. clear Hm.
  pose proof (silent_quiet _ Hopen) as (Ho1 & _).
  apply silent_front in Hopen as [Hopen _].
  apply silent_front in Hrep as [Hrep Hrep'].
  assert (from_stage Front (opening ++ EGet APlaylist url :: (EPrint <$> msgs)))
    as HF.
  { apply Forall_app. split; [done|]. by constructor. }
  destruct (early_trace_quiet _ [MsgError AttributeError] HF)
    as (G1 & G2 & _ & G4 & G5 & G6 & _).
  cbn [fmap list_fmap] in G1, G2, G4, G5, G6.
  split; [done|]. split.
  { exists opening, msgs. split_and!; [done..|]. by rewrite <- !(assoc_L (++)). }
  rewrite G1, G2, G4, G5, G6. split_and!; try done.
  rewrite playlist_gets_app, Ho1.
  change (playlist_gets (EGet APlaylist url :: (EPrint <$> msgs)))
    with (url :: playlist_gets (EPrint <$> msgs)).
  by rewrite Hrep'.
Qed.

Lemma failed_first_fetch_is_reported_twice_witness :
  let E := Demo.world [] [] true true in
  let url := "https://cdn.example.com/v/gone.m3u8" in
  let run := download_m3u8 E url None None 4 None (init []) in
  let T := trace run.2 in
  run.1 = Ok false
  ∧ (∃ before msgs,
        msgs ≠ [] ∧ playlist_gets before = []
        ∧ T = before ++ EGet APlaylist url :: (EPrint <$> msgs)
                ++ [EPrint (MsgError AttributeError)])
  ∧ playlist_gets T = [url] ∧ segment_gets T = []
  ∧ mkdtemp_calls T = [] ∧ rmtree_calls T = [] ∧ ffmpeg_calls T = [].
Proof.
  apply (failed_first_fetch_is_reported_twice (Demo.world [] [] true true)
           "https://cdn.example.com/v/gone.m3u8" None None 4 None []).
  intros r. vm_compute. intros [= <-]. by right.
Defined.

Lemma playlist_answer_ok E k u r pl :
  http E k u = Responded r → ¬ (400 ≤ status_code r < 600)%Z →
  m3u8_loads E (content r) = Some pl →
  playlist_answer E k u = Some pl ∧ playlist_report E k u = [].
Proof.
  intros Hh Hs Hl. unfold playlist_answer, playlist_report, playlist_failure.
  by rewrite Hh, (bool_decide_eq_false_2 _ Hs), Hl.
Qed.

Lemma answered_events_front url h pl :
  from_stage Front (answered_events url h pl)
  ∧ playlist_gets (answered_events url h pl) = [url].
Proof.
  unfold answered_events.
  destruct (silent_front _ (opening_events_silent url h)) as [HF HG].
  split; [apply Forall_app; split; [done|by repeat constructor]|].
  by rewrite playlist_gets_app, HG.
Qed.

(** [find_playlist] on the address of a playlist of segments. *)
Lemma find_playlist_media E url q h st r pl :
  http E (sent st) url = Responded r → ¬ (400 ≤ status_code r < 600)%Z →
  m3u8_loads E (content r) = Some pl → playlists pl = [] →
  find_playlist E url q h st
  = (Ok (Some pl),
     after_request (add_events st []) (answered_events url h pl)).
Proof.
  intros Hh Hs Hl Hp. rewrite find_playlist_run.
  destruct (playlist_answer_ok _ _ _ _ _ Hh Hs Hl) as [-> Hrep].
  rewrite bool_decide_eq_false_2 by (by intros []).
  unfold bind, ret. rewrite print_add_events. f_equal.
  unfold first_answer, answered_events, add_events, after_request.
  rewrite Hrep. simpl. by rewrite app_nil_r, <- !(assoc_L (++)).
Qed.

(** ** The address of the selected variant *)

Lemma playlist_gets_stage s evs :
  s ≠ Front → from_stage s evs → playlist_gets evs = [].
Proof.
  intros Hs HF. apply (omap_stage_nil _ s); [|done].
  intros [[]| |[]| | | | | |]; simpl; congruence.
Qed.

(** What [download_m3u8] does after [find_playlist] sends no request for a
    playlist. *)
Lemma download_m3u8_front E url out q K h st r st1 :
  find_playlist E url q h st = (r, st1) →
  playlist_gets (trace (download_m3u8 E url out q K h st).2)
  = playlist_gets (trace st1).
Proof.
  intros Hfind. rewrite download_m3u8_eq.
  unfold try_finally, try_except. unfold bind at 1. rewrite Hfind.
  assert (∀ (b : bool) st4 evs,
    trace st4 = trace st1 ++ evs → playlist_gets evs = [] →
    playlist_gets (trace (match _cleanup E st4 with
                          | (Ok _, st'') => (Ok b, st'')
                          | (Raise e, st'') => (Raise e, st'')
                          end).2) = playlist_gets (trace st1)) as Hend.
  { intros b st4 evs Ht Hq.
    destruct (cleanup_spec E st4) as (st' & e_clean & Hc & Htc & Fcl & _).
    rewrite Hc. simpl. rewrite Htc, Ht, !playlist_gets_app, Hq.
    by rewrite (playlist_gets_stage Cleanup e_clean), !app_nil_r. }
  destruct r as [[pl|]|e]; simpl.
  - unfold bind at 1.
    destruct (download_segments_spec E pl url K st1)
      as (r1 & st2 & e_fetch & Hrun & Ht2 & Ff & _).
    rewrite Hrun.
    pose proof (playlist_gets_stage Fetch e_fetch ltac:(done) Ff) as Hq.
    destruct r1 as [[]|e]; simpl.
    + unfold bind at 1.
      destruct (convert_spec E pl out st2) as (b & st3 & e_conv & Hcv & H3 & Fc & _).
      rewrite Hcv. destruct H3 as [Ht3 _ _ _ _].
      pose proof (playlist_gets_stage Convert e_conv ltac:(done) Fc) as Hq'.
      destruct b; simpl.
      * apply (Hend true _ (e_fetch ++ e_conv ++ [EPrint MsgCompleted])).
        -- simpl. rewrite Ht3, Ht2. by rewrite <- !(assoc_L (++)).
        -- by rewrite !playlist_gets_app, Hq, Hq'.
      * apply (Hend false _ (e_fetch ++ e_conv)).
        -- rewrite Ht3, Ht2. by rewrite <- !(assoc_L (++)).
        -- by rewrite !playlist_gets_app, Hq, Hq'.
    + by apply (Hend false _ e_fetch).
    + apply (Hend false _ (e_fetch ++ [EPrint (MsgError e)])).
      * simpl. rewrite Ht2. by rewrite <- !(assoc_L (++)).
      * by rewrite !playlist_gets_app, Hq.
  - apply (Hend false _ []); [by rewrite app_nil_r|done].
  - by apply (Hend false _ [EPrint (MsgError e)]).
Qed.

(** [find_playlist] on the address of a master playlist, when the selection
    returns the address [selected]. *)
Lemma find_playlist_master E url q h st resp master selected :
  http E (sent st) url = Responded resp → ¬ (400 ≤ status_code resp < 600)%Z →
  m3u8_loads E (content resp) = Some master → playlists master ≠ [] →
  (∀ st', stdin st' = stdin st →
     (_select_quality master q st').1 = Ok (Some selected)) →
  selected ≠ "" →
  urlparse_raises E url = false →
  urljoin_raises E (cleaned_master_url E url) selected = false →
  ∃ r st1,
    find_playlist E url q h st = (r, st1)
    ∧ playlist_gets (trace st1)
      = playlist_gets (trace st)
        ++ [url; urljoin E (cleaned_master_url E url) selected].
Proof.
  intros Hh Hs Hl Hp Hsel Hne Hparse Hjoin.
  rewrite find_playlist_run.
  destruct (playlist_answer_ok _ _ _ _ _ Hh Hs Hl) as [-> Hrep].
  rewrite bool_decide_eq_true_2 by done.
  unfold bind at 1. rewrite print_add_events.
  unfold bind at 1. rewrite print_add_events.
  unfold bind at 1.
  match goal with |- context [_select_quality master q ?s] => set (st5 := s) end.
  pose proof (talks_select_quality master q st5) as Htalk.
  specialize (Hsel st5 eq_refl).
  destruct (_select_quality master q st5) as [rs st6]. simpl in Hsel, Htalk.
  subst rs. cbn [truthy]. rewrite bool_decide_eq_false_2 by done.
  unfold py_urlparse, py_urljoin. rewrite Hparse.
  unfold bind at 1, ret at 1. fold (cleaned_master_url E url). rewrite Hjoin.
  unfold bind at 1, ret at 1. rewrite parse_playlist_run.
  do 2 eexists. split; [done|].
  destruct Htalk as (evs & [Ht _ _ _ _] & [_ Hq]%silent_front).
  cbn [trace after_request]. rewrite Ht. subst st5.
  cbn [trace add_events first_answer after_request]. rewrite Hrep.
  destruct (silent_front _ (opening_events_silent url h)) as [_ Hq0].
  rewrite !playlist_gets_app, Hq0, Hq.
  change (EGet APlaylist ?u :: ?l) with ([EGet APlaylist u] ++ l).
  rewrite !playlist_gets_app.
  rewrite (proj1 (silent_quiet _ (playlist_report_silent E _ _))).
  simpl. by rewrite !app_nil_r, <- !(assoc_L (++)).
Qed.

(** C4: when the address given answers with a master playlist and the
    selection returns the address [selected] of a variant, the next request
    goes to [selected] joined to the scheme, host and path of the address
    given, without its query and fragment; these two are the only requests
    for playlists; and no run depends on the address the responses come from
    after redirections. *)
Theorem variant_resolved_against_cleaned_master_url
    (E : env) (url : string) (out q : option string) (K : Z)
    (h : option string) (inp : list input_item)
    (resp : Response) (master : M3U8) (selected : string) :
  let run := download_m3u8 E url out q K h (init inp) in
  let parsed_master := urlparse E url in
  let cleaned :=
    scheme parsed_master +:+ "://" +:+ netloc parsed_master
                         +:+ path parsed_master in
  http E 0 url = Responded resp → ¬ (400 ≤ status_code resp < 600)%Z →
  m3u8_loads E (content resp) = Some master → playlists master ≠ [] →
  (∀ st, stdin st = inp →
     (_select_quality master q st).1 = Ok (Some selected)) →
  selected ≠ "" →
  urlparse_raises E url = false → urljoin_raises E cleaned selected = false →
  playlist_gets (trace run.2) = [url; urljoin E cleaned selected]
  ∧ ∀ f, download_m3u8 (redirected f E) url out q K h (init inp) = run.
Proof.
  intros run parsed_master cleaned Hh Hs Hl Hp Hsel Hne Hparse Hjoin.
  split; [|intros; apply download_m3u8_redirected].
  destruct (find_playlist_master E url q h (init inp) resp master selected)
    as (r & st1 & Hfind & Hgets); try done.
  subst run. by rewrite (download_m3u8_front _ _ _ _ _ _ _ _ _ Hfind), Hgets.
Qed.

(** The master playlist is asked at an address with a query and answered,
    after a redirection, from another host: the variant is asked beside
    the address given. *)
Lemma variant_resolved_against_cleaned_master_url_witness :
  let E := Demo.world [] [] true true in
  let run := download_m3u8 E Demo.master_url None (Some "best") 4 None (init []) in
  playlist_gets (trace run.2)
  = ["https://cdn.example.com/v/master.m3u8?token=abc";
     "https://cdn.example.com/v/hd/index.m3u8"]
  ∧ ∀ f, download_m3u8 (redirected f E) Demo.master_url None (Some "best") 4
           None (init []) = run.
Proof.
  apply (variant_resolved_against_cleaned_master_url
           (Demo.world [] [] true true) Demo.master_url None (Some "best") 4
           None []
           {| status_code := 200;
              response_url := "https://edge7.example.net/r/master.m3u8";
              content := "MASTER" |}
           Demo.master "hd/index.m3u8"); try done.
  simpl. lia.
Defined.

Lemma download_segments_empty E pl base K st :
  segments pl = [] →
  _download_segments E pl base K st
  = (Ok false, add_events st [EPrint MsgNoSegments]).
Proof.
  intros H. unfold _download_segments. rewrite (bool_decide_eq_true_2 _ H).
  unfold bind. by rewrite print_add_events.
Qed.

(** [fetch_and_convert] by what [_download_segments] does. *)
Lemma fetch_and_convert_failed E url out K pl st st1 :
  _download_segments E pl url K st = (Ok false, st1) →
  fetch_and_convert E url out K (Some pl) st = (Ok false, st1).
Proof. intros H. unfold fetch_and_convert, bind. by rewrite H. Qed.

Lemma fetch_and_convert_raised E url out K pl st e st1 :
  _download_segments E pl url K st = (Raise e, st1) →
  fetch_and_convert E url out K (Some pl) st = (Raise e, st1).
Proof. intros H. unfold fetch_and_convert, bind. by rewrite H. Qed.

Lemma fetch_and_convert_fetched E url out K pl st st1 b st2 :
  _download_segments E pl url K st = (Ok true, st1) →
  _convert_to_mp4 E pl out st1 = (Ok b, st2) →
  fetch_and_convert E url out K (Some pl) st
  = (Ok b, if b then add_events st2 [EPrint MsgCompleted] else st2).
Proof.
  intros H1 H2. unfold fetch_and_convert, bind. rewrite H1. cbn [negb].
  rewrite H2. by destruct b.
Qed.

(** The end of [download_m3u8]: the [except] clause and the [finally]. *)
Lemma finish_returned E (body : M bool) st b st1 st2 :
  body st = (Ok b, st1) → _cleanup E st1 = (Ok (), st2) →
  try_finally (try_except body (λ e, print (MsgError e);; ret false))
    (_cleanup E) st = (Ok b, st2).
Proof. intros H1 H2. unfold try_finally, try_except. by rewrite H1, H2. Qed.

Lemma finish_raised E (body : M bool) st e st1 st2 :
  body st = (Raise e, st1) →
  _cleanup E (add_events st1 [EPrint (MsgError e)]) = (Ok (), st2) →
  try_finally (try_except body (λ e, print (MsgError e);; ret false))
    (_cleanup E) st = (Ok false, st2).
Proof.
  intros H1 H2. unfold try_finally, try_except. rewrite H1.
  unfold bind. rewrite print_add_events. unfold ret. by rewrite H2.
Qed.

(** X15: a playlist with neither variants nor segments ends the run after
    "No segments found": [False] is returned, no directory is made and no
    removal is attempted. *)
Theorem empty_playlist_stops_before_any_download
    (E : env) (url : string) (out q : option string) (K : Z)
    (h : option string) (inp : list input_item) (r : Response) (pl : M3U8) :
  let run := download_m3u8 E url out q K h (init inp) in
  let T := trace run.2 in
  http E 0 url = Responded r → ¬ (400 ≤ status_code r < 600)%Z →
  m3u8_loads E (content r) = Some pl →
  playlists pl = [] → segments pl = [] →
  run.1 = Ok false
  ∧ last T = Some (EPrint MsgNoSegments)
  ∧ playlist_gets T = [url] ∧ segment_gets T = []
  ∧ mkdtemp_calls T = [] ∧ rmtree_calls T = [] ∧ ffmpeg_calls T = [].
Proof.
  intros run T Hh Hs Hl Hp Hseg. subst T run.
  rewrite (download_m3u8_playlist _ _ _ _ _ _ _ _ _
             (find_playlist_media E url q h (init inp) r pl Hh Hs Hl Hp)).
  erewrite finish_returned;
    [|by apply fetch_and_convert_failed, download_segments_empty
     |by apply cleanup_none].
  cbn [fst snd trace add_events after_request init].
  destruct (answered_events_front url h pl) as [HF HG].
  destruct (early_trace_quiet _ [MsgNoSegments] HF)
    as (G1 & G2 & _ & G4 & G5 & G6 & _).
  cbn [fmap list_fmap] in G1, G2, G4, G5, G6.
  change (([] ++ []) ++ answered_events url h pl)
    with (answered_events url h pl).
  rewrite G1, G2, G4, G5, G6, HG, last_snoc. done.
Qed.

Lemma empty_playlist_stops_before_any_download_witness :
  let E := Demo.world [] [] true true in
  let url := "https://cdn.example.com/v/empty.m3u8" in
  let E' := {| urlparse := urlparse E; urljoin := urljoin E;
               m3u8_loads := λ _, Some {| playlists := []; segments := [];
                                          data := "" |};
               http := http E; gettempdir := gettempdir E;
               mkdtemp_name := mkdtemp_name E; scheduler := scheduler E;
               ffmpeg_run := ffmpeg_run E; rmtree_ok := rmtree_ok E;
               urlparse_raises := urlparse_raises E;
               urljoin_raises := urljoin_raises E;
               store_ok := store_ok E; concat_ok := concat_ok E |} in
  let run := download_m3u8 E' url None None 4 None (init []) in
  let T := trace run.2 in
  run.1 = Ok false
  ∧ last T = Some (EPrint MsgNoSegments)
  ∧ playlist_gets T = [url] ∧ segment_gets T = []
  ∧ mkdtemp_calls T = [] ∧ rmtree_calls T = [] ∧ ffmpeg_calls T = [].
Proof.
  intros E url E'.
  apply (empty_playlist_stops_before_any_download E' url None None 4 None []
           {| status_code := 200; response_url := url; content := url |}
           {| playlists := []; segments := []; data := "" |});
    try done.
  simpl. lia.
Defined.

Lemma download_segments_no_workers E pl base K st name :
  segments pl ≠ [] → mkdtemp_name E = Some name → (K ≤ 0)%Z →
  _download_segments E pl base K st
  = (Raise ValueError,
     {| temp_dir := Some (temp_path E name);
        segment_files := segment_files st;
        trace := trace st ++ [EMkdtemp (temp_path E name);
                              EPrint (MsgDownloading (length (segments pl)))];
        sent := sent st; stdin := stdin st;
        dirs := {[temp_path E name]} ∪ dirs st |}).
Proof.
  intros Hs Hn HK. unfold _download_segments, mkdtemp.
  rewrite (bool_decide_eq_false_2 _ Hs), Hn.
  rewrite bool_decide_eq_true_2 by done.
  unfold bind, emit, set_dirs, set_temp_dir, print, emit, ret, raise, temp_path.
  simpl. by rewrite <- (assoc_L (++)).
Qed.

(** X16: with no worker ([max_workers] zero or negative) the directory is
    made and the number of segments announced before the pool refuses to
    start: [False] is returned after the [ValueError], no segment is
    requested, and the directory is removed again. *)
Theorem no_workers_no_download
    (E : env) (url : string) (out q : option string) (K : Z)
    (h : option string) (inp : list input_item) (r : Response) (pl : M3U8)
    (name : string) :
  let run := download_m3u8 E url out q K h (init inp) in
  let T := trace run.2 in
  let d := temp_path E name in
  http E 0 url = Responded r → ¬ (400 ≤ status_code r < 600)%Z →
  m3u8_loads E (content r) = Some pl →
  playlists pl = [] → segments pl ≠ [] →
  mkdtemp_name E = Some name → (K ≤ 0)%Z →
  run.1 = Ok false
  ∧ (∃ before,
        from_stage Front before
        ∧ T = before
              ++ [EMkdtemp d; EPrint (MsgDownloading (length (segments pl)));
                  EPrint (MsgError ValueError); ERmtree d]
              ++ (if rmtree_ok E d then []
                  else [EPrint (MsgCleanupWarning OSError)]))
  ∧ segment_gets T = []
  ∧ (if rmtree_ok E d then d ∉ dirs run.2 else d ∈ dirs run.2).
Proof.
  intros run T d Hh Hs Hl Hp Hseg Hn HK. subst T run.
  rewrite (download_m3u8_playlist _ _ _ _ _ _ _ _ _
             (find_playlist_media E url q h (init inp) r pl Hh Hs Hl Hp)).
  set (st1 := after_request (add_events (init inp) []) (answered_events url h pl)).
  pose proof (download_segments_no_workers E pl url K st1 name Hseg Hn HK) as Hd.
  match type of Hd with _ = (_, ?s) => set (st2 := s) in * end.
  destruct (cleanup_existing E (add_events st2 [EPrint (MsgError ValueError)]) d)
    as (st3 & Hc & Htr & Hdirs).
  { done. } { apply temp_path_nonempty. }
  { simpl. by apply elem_of_union_l, elem_of_singleton. }
  rewrite (finish_raised E _ _ ValueError st2 st3
             (fetch_and_convert_raised _ _ _ _ _ _ _ _ Hd) Hc).
  cbn [fst snd]. rewrite Htr, Hdirs.
  destruct (answered_events_front url h pl) as [HF HG].
  cbn [trace add_events st2 st1 after_request init dirs].
  change ([] ++ []) with (@nil event). cbn [app].
  split; [done|]. split.
  { exists (answered_events url h pl). split; [done|].
    rewrite <- !(assoc_L (++)). done. }
  split.
  - unfold segment_gets. rewrite !omap_app.
    rewrite (omap_stage_nil _ Front) by (stage_cases || done).
    by destruct (rmtree_ok E d).
  - destruct (rmtree_ok E d).
    + apply not_elem_of_difference. right. by apply elem_of_singleton.
    + by apply elem_of_union_l, elem_of_singleton.
Qed.

Lemma no_workers_no_download_witness :
  let E := Demo.world [] [] true true in
  let url := "https://cdn.example.com/v/hd/index.m3u8" in
  let run := download_m3u8 E url None None 0 None (init []) in
  let T := trace run.2 in
  let d := temp_path E "k3x9" in
  run.1 = Ok false
  ∧ (∃ before,
        from_stage Front before
        ∧ T = before
              ++ [EMkdtemp d; EPrint (MsgDownloading (length (segments Demo.media)));
                  EPrint (MsgError ValueError); ERmtree d]
              ++ (if rmtree_ok E d then []
                  else [EPrint (MsgCleanupWarning OSError)]))
  ∧ segment_gets T = []
  ∧ (if rmtree_ok E d then d ∉ dirs run.2 else d ∈ dirs run.2).
Proof.
  apply (no_workers_no_download (Demo.world [] [] true true)
           "https://cdn.example.com/v/hd/index.m3u8" None None 0 None []
           {| status_code := 200;
              response_url := "https://cdn.example.com/v/hd/index.m3u8";
              content := "MEDIA" |}
           Demo.media "k3x9"); try done.
  simpl. lia.
Defined.

Lemma extract_qualities_no_resolution ps :
  Forall (λ v, resolution (stream_info v) = None) ps → extract_qualities ps = [].
Proof.
  induction 1 as [|v ps Hv _ IH]; [done|].
  unfold extract_qualities in *. simpl. by rewrite Hv.
Qed.

Lemma select_quality_no_resolution mp q st :
  playlists mp ≠ [] →
  Forall (λ v, resolution (stream_info v) = None) (playlists mp) → q ≠ "" →
  ∃ evs, _select_quality mp (Some q) st = (Raise IndexError, add_events st evs)
         ∧ Forall silent evs.
Proof.
  intros Hne Hres Hq.
  destruct (select_quality_run mp (Some q) st Hne) as (qs & _ & Hp & ->).
  rewrite (extract_qualities_no_resolution _ Hres) in Hp.
  apply Permutation_nil_r in Hp as ->.
  unfold select_entry, bind. cbn [truthy].
  rewrite (bool_decide_eq_false_2 _ Hq).
  repeat case_bool_decide; cbn.
  - eexists. split; [done|]. by repeat constructor.
  - eexists. split; [done|]. by repeat constructor.
  - exists [EPrint MsgAvailable; EPrint (MsgQualityNotFound q)].
    split; [|by repeat constructor].
    unfold add_events. simpl. by rewrite <- (assoc_L (++)).
Qed.

(** X8: when the master playlist has variants but none with a resolution,
    a selection by preference finds the list of qualities empty and reads
    its first (or last) entry: the run returns [False] after the
    [IndexError], with no second request and no directory made. *)
Theorem no_resolution_fails_with_index_error
    (E : env) (url : string) (out : option string) (preference : string)
    (K : Z) (h : option string) (inp : list input_item) (r : Response)
    (mp : M3U8) :
  let run := download_m3u8 E url out (Some preference) K h (init inp) in
  let T := trace run.2 in
  http E 0 url = Responded r → ¬ (400 ≤ status_code r < 600)%Z →
  m3u8_loads E (content r) = Some mp →
  playlists mp ≠ [] →
  Forall (λ v, resolution (stream_info v) = None) (playlists mp) →
  preference ≠ "" →
  run.1 = Ok false
  ∧ last T = Some (EPrint (MsgError IndexError))
  ∧ playlist_gets T = [url] ∧ segment_gets T = []
  ∧ mkdtemp_calls T = [] ∧ rmtree_calls T = [].
Proof.
  intros run T Hh Hs Hl Hne Hres Hq. subst T run.
  pose proof (find_playlist_run E url (Some preference) h (init inp)) as Hfind.
  destruct (playlist_answer_ok _ _ _ _ _ Hh Hs Hl) as [Hans Hrep].
  change (sent (init inp)) with 0%nat in Hfind. rewrite Hans in Hfind.
  rewrite (bool_decide_eq_true_2 _ Hne) in Hfind.
  unfold bind in Hfind. rewrite !print_add_events in Hfind.
  match type of Hfind with context [_select_quality mp _ ?s] =>
    destruct (select_quality_no_resolution mp preference s Hne Hres Hq)
      as (evs & Hsel & Hsil) end.
  rewrite Hsel, !add_events_app in Hfind.
  rewrite (download_m3u8_raised _ _ _ _ _ _ _ _ _ Hfind) by done.
  cbn [fst snd trace add_events first_answer after_request init sent].
  rewrite Hrep. cbn [fmap list_fmap]. rewrite last_snoc.
  assert (from_stage Front
            ((([] ++ opening_events url h) ++ [EGet APlaylist url])
             ++ [EPrint (MsgData (data mp))] ++ [EPrint MsgMaster] ++ evs)) as HF.
  { destruct (silent_front _ (opening_events_silent url h)) as [HF _].
    destruct (silent_front _ Hsil) as [HF' _].
    repeat (apply Forall_app; split); try done; by repeat constructor. }
  destruct (early_trace_quiet _ [MsgError IndexError] HF)
    as (G1 & G2 & _ & G4 & G5 & _).
  cbn [fmap list_fmap] in G1, G2, G4, G5.
  rewrite G1, G2, G4, G5. split_and!; try done.
  rewrite !playlist_gets_app.
  destruct (silent_quiet _ (opening_events_silent url h)) as (-> & _).
  destruct (silent_quiet _ Hsil) as (-> & _). done.
Qed.

Lemma no_resolution_fails_with_index_error_witness :
  let E := Demo.world [] [] true true in
  let audio := {| playlists :=
                    [ {| playlist_uri := "audio.m3u8";
                         stream_info := {| resolution := None;
                                           bandwidth := Some 128000%Z |} |} ];
                  segments := []; data := "" |} in
  let E' := {| urlparse := urlparse E; urljoin := urljoin E;
               m3u8_loads := λ _, Some audio;
               http := http E; gettempdir := gettempdir E;
               mkdtemp_name := mkdtemp_name E; scheduler := scheduler E;
               ffmpeg_run := ffmpeg_run E; rmtree_ok := rmtree_ok E;
               urlparse_raises := urlparse_raises E;
               urljoin_raises := urljoin_raises E;
               store_ok := store_ok E; concat_ok := concat_ok E |} in
  let url := "https://cdn.example.com/a/master.m3u8" in
  let run := download_m3u8 E' url None (Some "best") 4 None (init []) in
  let T := trace run.2 in
  run.1 = Ok false
  ∧ last T = Some (EPrint (MsgError IndexError))
  ∧ playlist_gets T = [url] ∧ segment_gets T = []
  ∧ mkdtemp_calls T = [] ∧ rmtree_calls T = [].
Proof.
  intros E audio E' url.
  apply (no_resolution_fails_with_index_error E' url None "best" 4 None []
           {| status_code := 200; response_url := url; content := url |} audio);
    try done.
  - simpl. lia.
  - by repeat constructor.
Defined.

(** X17: [download_m3u8] returns [True] only after every segment of the
    playlist was stored, each in its own file and none reported as failed,
    and the last run of ffmpeg, on the sorted list of these files,
    succeeded. *)
Theorem success_means_all_segments_converted
    (E : env) (url : string) (out q : option string) (K : Z)
    (h : option string) (inp : list input_item) :
  let run := download_m3u8 E url out q K h (init inp) in
  let T := trace run.2 in
  run.1 = Ok true →
  ∃ n d,
    (0 < n)%nat ∧ announced T = [n] ∧ mkdtemp_calls T = [d]
    ∧ segment_errors T = []
    ∧ stored_files T ≡ₚ segment_file_name d <$> seq 0 n
    ∧ progress_total T = n
    ∧ ∃ vcodec acodec,
        last (ffmpeg_calls T) = Some (vcodec, acodec)
        ∧ ffmpeg_run E vcodec acodec
            (concat_lines (sorted (stored_files T)))
            (output_name out (stored_files T)) = true.
Proof.
  intros run T Hrun.
  destruct (run_fetched E url out q K h inp) as (b & Hb & Hcases).
  fold run in Hb, Hcases. fold T in Hcases.
  rewrite Hb in Hrun. injection Hrun as ->.
  destruct Hcases as [(pl & name & order & k & Hcase)|Hcase]; cbv zeta in Hcase.
  2:{ by destruct Hcase as (_ & _ & _ & _ & _ & _ & _ & ? & _). }
  destruct Hcase as (HK & Hn & Hp & Hname & Hg & Hprog & Herr & Hst & Ha & _
                     & Hmk & Hbad & Hgood).
  set (d := temp_path E name) in *.
  set (oks := pool_ok E url (Some d) k order) in *.
  destruct (failed order oks) as [|t ts] eqn:Hfail.
  2:{ by destruct (Hbad ltac:(done)) as [? _]. }
  destruct (Hgood eq_refl) as (Hres & Hcalls & _).
  pose proof (succeeded_all order oks (length_pool_ok _ _ _ _ _) Hfail) as Hall.
  exists (length (segments pl)), d. split_and!; try done.
  - rewrite Hst, Hall. by rewrite (order_indices pl order Hp).
  - by rewrite Hprog, Hall, Hp, length_tasks_of.
  - rewrite Hst, Hcalls. clear Hgood Hcalls.
    destruct (concat_ok E "copy" _), (ffmpeg_run E "copy" "copy" _ _) eqn:Hcopy;
      simpl in Hres |- *;
      [by exists "copy", "copy"|..];
      destruct (concat_ok E "libx264" _); simpl in Hres |- *; try done;
      exists "libx264", "aac"; (split; [done|]); by symmetry.
Qed.

Lemma success_means_all_segments_converted_witness :
  let run := Demo.run (Demo.world [] [2; 0; 1]%nat false true) in
  let T := trace run.2 in
  ∃ n d,
    (0 < n)%nat ∧ announced T = [n] ∧ mkdtemp_calls T = [d]
    ∧ segment_errors T = []
    ∧ stored_files T ≡ₚ segment_file_name d <$> seq 0 n
    ∧ progress_total T = n
    ∧ ∃ vcodec acodec,
        last (ffmpeg_calls T) = Some (vcodec, acodec)
        ∧ ffmpeg_run (Demo.world [] [2; 0; 1]%nat false true) vcodec acodec
            (concat_lines (sorted (stored_files T)))
            (output_name None (stored_files T)) = true.
Proof.
  apply (success_means_all_segments_converted
           (Demo.world [] [2; 0; 1]%nat false true)
           Demo.master_url None (Some "best") 4 None []).
  by vm_compute.
Defined.

Lemma pool_ok_all E base d ts : ∀ k,
  (∀ k' u, (k ≤ k')%nat →
     ∃ r, http E k' u = Responded r ∧ ¬ (400 ≤ status_code r < 600)%Z) →
  (∀ t, t ∈ ts → urljoin_raises E base (segment_uri t.1) = false) →
  (∀ k' file, store_ok E k' file = true) →
  Forall (λ b, b = true) (pool_ok E base (Some d) k ts).
Proof.
  induction ts as [|t ts IH]; intros k Hok Hjoin Hstore; simpl; constructor.
  - unfold task_ok, task_result, segment_outcome.
    rewrite (Hjoin t) by apply list_elem_of_here.
    destruct (Hok k (urljoin E base (segment_uri t.1)) (le_n _)) as (r & -> & Hs).
    by rewrite (bool_decide_eq_false_2 _ Hs), Hstore.
  - apply IH; [|by intros; apply Hjoin, list_elem_of_further|done].
    intros k' u Hk. apply Hok. lia.
Qed.

Lemma failed_all_true {T} (ts : list T) oks :
  Forall (λ b, b = true) oks → failed ts oks = [].
Proof.
  intros Hall. unfold failed. revert ts.
  induction Hall as [|b oks -> _ IH]; intros [|t ts]; simpl; try done.
  rewrite filter_cons_False by (simpl; congruence). apply IH.
Qed.

(** X18: when the address answers with a playlist of segments, the address
    of every segment can be formed, every request for a segment is answered
    without an error status, the directory can be made, the files can be
    written, there is a worker and ffmpeg can copy, [download_m3u8] returns
    [True]: every segment is stored, ffmpeg runs once, with [copy] for both
    codecs, and the end is announced. *)
Theorem healthy_run_succeeds
    (E : env) (url : string) (out q : option string) (K : Z)
    (h : option string) (inp : list input_item) (r : Response) (pl : M3U8)
    (name : string) :
  let run := download_m3u8 E url out q K h (init inp) in
  let T := trace run.2 in
  http E 0 url = Responded r → ¬ (400 ≤ status_code r < 600)%Z →
  m3u8_loads E (content r) = Some pl →
  playlists pl = [] → segments pl ≠ [] →
  mkdtemp_name E = Some name → (0 < K)%Z →
  (∀ k u, ∃ r', http E (S k) u = Responded r'
                ∧ ¬ (400 ≤ status_code r' < 600)%Z) →
  (∀ lines out', ffmpeg_run E "copy" "copy" lines out' = true) →
  (∀ seg, seg ∈ segments pl → urljoin_raises E url (segment_uri seg) = false) →
  (∀ k file, store_ok E k file = true) →
  (∀ file, concat_ok E "copy" file = true) →
  run.1 = Ok true
  ∧ ffmpeg_calls T = [("copy", "copy")]
  ∧ segment_errors T = []
  ∧ length (stored_files T) = length (segments pl)
  ∧ EPrint MsgCompleted ∈ T.
Proof.
  intros run T Hh Hs Hl Hp Hseg Hn HK Hhttp Hcopy Hjoin Hstore Hconcat.
  subst T run.
  rewrite (download_m3u8_playlist _ _ _ _ _ _ _ _ _
             (find_playlist_media E url q h (init inp) r pl Hh Hs Hl Hp)).
  set (st1 := after_request (add_events (init inp) []) (answered_events url h pl)).
  destruct (download_segments_spec E pl url K st1)
    as (r1 & st2 & evs & Hd & Htr & HFetch & Hcases).
  cbv zeta in Hcases.
  destruct Hcases as [(Hnil & _)|[(_ & Hnone & _)|(name' & Hcase)]];
    [done|congruence|].
  cbv zeta in Hcase.
  destruct Hcase as (_ & Hname' & Htd & Hdirs
                     & [(HK' & _)|(_ & order & Hord & Hr & Hevs & Hfiles & Hsent)]);
    [lia|].
  assert (name' = name) as -> by congruence.
  set (d := temp_path E name) in *.
  set (oks := pool_ok E url (Some d) (sent st1) order) in *.
  assert (failed order oks = []) as Hfail.
  { apply failed_all_true, pool_ok_all; [|
      |done].
    - intros k' u Hk.
      destruct k' as [|k']; [simpl in Hk; lia|]. apply Hhttp.
    - intros [seg i] Hin. simpl. apply Hjoin.
      rewrite Hord in Hin. apply elem_of_tasks_of in Hin.
      by eapply list_elem_of_lookup_2. }
  rewrite Hfail in Hr. rewrite Hfail in Hevs.
  rewrite bool_decide_eq_true_2 in Hr by done.
  rewrite bool_decide_eq_true_2 in Hevs by done.
  subst r1.
  pose proof (succeeded_all order oks (length_pool_ok _ _ _ _ _) Hfail) as Hall.
  assert (length (succeeded order oks) = length (segments pl)) as Hlen.
  { by rewrite Hall, Hord, length_tasks_of. }
  assert (segment_errors evs = []
          ∧ length (stored_files evs) = length (segments pl)) as [Herr Hsto].
  { rewrite Hevs. unfold segment_errors, stored_files.
    rewrite !omap_app. cbn [omap list_omap app].
    fold (segment_errors (pool_events E url (Some d) (sent st1) order)).
    fold (stored_files (pool_events E url (Some d) (sent st1) order)).
    rewrite segment_errors_pool, stored_files_pool, !app_nil_r.
    fold oks. rewrite Hfail. split; [done|]. by rewrite length_fmap. }
  destruct (convert_spec E pl out st2)
    as (b & st3 & e_conv & Hcv & Hext & HConv & _ & Hconv).
  assert (segment_files st2 ≠ []) as Hne.
  { rewrite Hfiles. intros [_ Hnil%fmap_nil_inv%fmap_nil_inv]%app_eq_nil.
    rewrite Hnil in Hlen. destruct (segments pl); [done|simpl in Hlen; lia]. }
  specialize (Hconv d Hne Htd). cbv zeta in Hconv.
  rewrite Hcopy, Hconcat in Hconv. destruct Hconv as (-> & Hcalls & _).
  pose proof (fetch_and_convert_fetched E url out K pl st1 st2 true st3 Hd Hcv)
    as Hfc.
  destruct (cleanup_spec E (add_events st3 [EPrint MsgCompleted]))
    as (st4 & e_clean & Hc & Htr4 & HClean & _).
  rewrite (finish_returned E _ _ true _ st4 Hfc Hc).
  cbn [fst snd]. rewrite Htr4.
  cbn [trace add_events]. rewrite (ext_trace _ _ _ _ _ Hext), Htr.
  cbn [trace st1 after_request add_events init].
  change (([] ++ []) ++ answered_events url h pl)
    with (answered_events url h pl).
  destruct (answered_events_front url h pl) as [HF _].
  assert (from_stage Wrap [EPrint MsgCompleted]) as HW by (by repeat constructor).
  pose proof (observe_stages _ _ _ _ _ HF HFetch HConv HW HClean) as Hobs.
  cbv zeta in Hobs. rewrite <- !(assoc_L (++)) in *.
  destruct Hobs as (_ & _ & _ & -> & -> & _ & _ & _ & -> & _).
  split; [done|]. split; [done|].
  split; [done|]. split; [done|].
  rewrite !elem_of_app. do 3 right. left. by left.
Qed.

Lemma healthy_run_succeeds_witness :
  let E := Demo.world [] [1; 0; 2]%nat true true in
  let url := "https://cdn.example.com/v/hd/index.m3u8" in
  let run := download_m3u8 E url (Some "video.mp4") None 2 None (init []) in
  let T := trace run.2 in
  run.1 = Ok true
  ∧ ffmpeg_calls T = [("copy", "copy")]
  ∧ segment_errors T = []
  ∧ length (stored_files T) = length (segments Demo.media)
  ∧ EPrint MsgCompleted ∈ T.
Proof.
  apply (healthy_run_succeeds (Demo.world [] [1; 0; 2]%nat true true)
           "https://cdn.example.com/v/hd/index.m3u8" (Some "video.mp4") None 2
           None []
           {| status_code := 200;
              response_url := "https://cdn.example.com/v/hd/index.m3u8";
              content := "MEDIA" |}
           Demo.media "k3x9"); try done.
  - simpl. lia.
  - intros k u. simpl.
    repeat case_bool_decide; eexists; (split; [done|]); simpl; lia.
  - intros seg Hin. apply list_elem_of_In in Hin. simpl in Hin.
    repeat (destruct Hin as [<-|Hin]; [by vm_compute|]). done.
Defined.

(** ** The files of a run *)

Module PyPadFacts.
Import PyStr PyStrFacts PyNumFacts.

Lemma parse_digits_zeros k acc : parse_digits acc (zeros k) = Some (10 ^ N.of_nat k * acc)%N.
Proof.
  revert acc. induction k as [|k IH]; intros acc.
  - simpl. f_equal. lia.
  - cbn [zeros parse_digits].
    change (is_digit "0") with true. cbn iota.
    change (digit_val "0") with 0%N. rewrite IH. f_equal.
    rewrite Nat2N.inj_succ, N.pow_succ_r'. lia.
Qed.

Lemma parse_digits_acc s : ∀ acc,
  parse_digits acc s
  = (λ n, 10 ^ N.of_nat (String.length s) * acc + n)%N <$> parse_digits 0 s.
Proof.
  induction s as [|c s IH]; intros acc.
  - simpl. f_equal. lia.
  - cbn [parse_digits String.length]. destruct (is_digit c); [|done].
    rewrite (IH (10 * acc + digit_val c)%N), (IH (10 * 0 + digit_val c)%N).
    destruct (parse_digits 0 s) as [m|]; [|done]. simpl. f_equal.
    rewrite Nat2N.inj_succ, N.pow_succ_r'. lia.
Qed.

(** The number is read back from its padded form. *)
Lemma parse_digits_zero_pad w n : parse_digits 0 (zero_pad w n) = Some n.
Proof.
  unfold zero_pad. rewrite parse_digits_app, parse_digits_zeros. simpl.
  rewrite parse_digits_acc, parse_digits_of_N. simpl.
  f_equal. lia.
Qed.

Lemma zero_pad_inj w a b : zero_pad w a = zero_pad w b → a = b.
Proof.
  intros H. pose proof (parse_digits_zero_pad w a) as Ha.
  rewrite H, parse_digits_zero_pad in Ha. congruence.
Qed.

Lemma app_inv_tail a b s : a +:+ s = b +:+ s → a = b.
Proof.
  revert b. induction a as [|x a IH]; intros [|y b] H.
  - done.
  - apply (f_equal String.length) in H.
    rewrite !length_app in H. simpl in H. lia.
  - apply (f_equal String.length) in H.
    rewrite !length_app in H. simpl in H. lia.
  - rewrite !append_cons in H. injection H as -> H. f_equal. by apply IH.
Qed.

End PyPadFacts.

Lemma segment_file_name_inj d i j :
  segment_file_name d i = segment_file_name d j → i = j.
Proof.
  rewrite !segment_file_name_eq.
  intros H%PyStrFacts.app_inv_head%PyPadFacts.app_inv_tail%PyPadFacts.zero_pad_inj.
  lia.
Qed.

(** X20: the segments of a playlist are stored in files that are pairwise
    distinct, whatever their number: no segment overwrites another. *)
Theorem segment_files_distinct (d : string) (n : nat) :
  NoDup (segment_file_name d <$> seq 0 n).
Proof.
  apply NoDup_fmap_2; [|apply NoDup_seq].
  intros i j. apply segment_file_name_inj.
Qed.

Lemma convert_run E pl out st d :
  segment_files st ≠ [] → temp_dir st = Some d →
  let lines := concat_lines (sorted (segment_files st)) in
  let out' := output_name out (segment_files st) in
  let concat_file := os_path_join d "concat.txt" in
  let copy_written := concat_ok E "copy" concat_file in
  let trans_written := concat_ok E "libx264" concat_file in
  let copy_run := ffmpeg_run E "copy" "copy" lines out' in
  let trans_run := ffmpeg_run E "libx264" "aac" lines out' in
  _convert_to_mp4 E pl out st
  = (Ok (copy_written && copy_run || trans_written && trans_run),
     add_events st (conversion_events d (segment_files st) out
                      copy_written copy_run trans_written trans_run)).
Proof.
  intros Hne Hd lines out' concat_file copy_written trans_written copy_run
    trans_run.
  subst copy_written trans_written copy_run trans_run out' lines concat_file.
  unfold _convert_to_mp4, conversion_events, _convert_alternative, ffmpeg_concat,
    write_lines, output_name.
  unfold bind, get, try_except, print, emit, ret, raise. simpl.
  rewrite (bool_decide_eq_false_2 _ Hne). simpl. rewrite Hd. simpl.
  repeat (match goal with
          | |- context [concat_ok E ?v ?f] => destruct (concat_ok E v f) eqn:?
          | |- context [ffmpeg_run E ?v ?a ?l ?o] =>
              destruct (ffmpeg_run E v a l o) eqn:?
          end; simpl);
    unfold add_events; simpl;
    first [congruence | by rewrite ?Hd, <- ?(assoc_L (++))].
Qed.

Lemma elem_of_stages e e_front e_fetch e_conv e_wrap e_clean :
  from_stage Front e_front → from_stage Fetch e_fetch →
  from_stage Convert e_conv → from_stage Wrap e_wrap →
  from_stage Cleanup e_clean →
  e ∈ e_front ++ e_fetch ++ e_conv ++ e_wrap ++ e_clean →
  match stage_of e with
  | Front => e ∈ e_front | Fetch => e ∈ e_fetch | Convert => e ∈ e_conv
  | Wrap => e ∈ e_wrap | Cleanup => e ∈ e_clean
  end.
Proof.
  unfold from_stage. rewrite !Forall_forall. intros F1 F2 F3 F4 F5.
  rewrite !elem_of_app.
  intros [H|[H|[H|[H|H]]]];
    [rewrite (F1 _ H)|rewrite (F2 _ H)|rewrite (F3 _ H)|rewrite (F4 _ H)
    |rewrite (F5 _ H)]; done.
Qed.

(** The five parts of the trace of a run, with what the second and the
    third hold: the files stored are segment files of the directory made,
    and the conversion, when it runs, runs on the files of the object, those
    it had before the run included. *)
Lemma run_parts E url out q K h st :
  ∃ e_front e_fetch e_conv e_wrap e_clean,
    trace (download_m3u8 E url out q K h st).2
    = trace st ++ e_front ++ e_fetch ++ e_conv ++ e_wrap ++ e_clean
    ∧ from_stage Front e_front ∧ from_stage Fetch e_fetch
    ∧ from_stage Convert e_conv ∧ from_stage Wrap e_wrap
    ∧ from_stage Cleanup e_clean
    ∧ (∀ f, f ∈ stored_files e_fetch →
         ∃ d i, mkdtemp_calls e_fetch = [d] ∧ f = segment_file_name d i)
    ∧ (e_conv = []
       ∨ ∃ d copy_written copy_run trans_written trans_run,
           mkdtemp_calls e_fetch = [d]
           ∧ e_conv = conversion_events d
                        (segment_files st ++ stored_files e_fetch) out
                        copy_written copy_run trans_written trans_run).
Proof.
  destruct (download_m3u8_run E url out q K h st)
    as (b & st' & -> & e_front & e_fetch & e_conv & e_wrap & e_clean & st4
        & Ht & F1 & F2 & F3 & F4 & F5 & _ & _ & _ & Hlink).
  exists e_front, e_fetch, e_conv, e_wrap, e_clean.
  split_and!; try done.
  - destruct Hlink as [(-> & _)
      |(pl & st1 & r1 & st2 & Hrun & Ht2 & _)]; [by intros f ?%elem_of_nil|].
    destruct (fetch_observed _ _ _ _ _ _ _ _ Hrun Ht2)
      as [(_ & _ & name & order & _ & _ & _ & _ & _ & _ & Hst & _ & _ & Hmk & _)
         |(_ & _ & _ & -> & _)]; [|by intros f ?%elem_of_nil].
    intros f Hf. rewrite Hst in Hf.
    apply list_elem_of_fmap in Hf as (i & -> & _). by exists (temp_path E name), i.
  - destruct Hlink as [(_ & -> & _)
      |(pl & st1 & r1 & st2 & Hrun & Ht2 & _ & _ & Hf1 & _ & _ & Hbad & Hgood)];
      [by left|].
    assert (r1 = Ok true ∨ r1 ≠ Ok true) as [->|Hr1].
    { destruct r1 as [[|]|e]; [by left|by right..]. }
    2:{ left. by apply Hbad. }
    destruct (Hgood eq_refl) as (st3 & Hcv & Ht3).
    destruct (fetch_observed _ _ _ _ _ _ _ _ Hrun Ht2)
      as [(_ & Hseg & name & order & _ & Hord & Hr & _ & _ & _ & Hst & _ & _
           & Hmk & Htd & _ & Hfiles)
         |(_ & _ & _ & _ & _ & ? & _)]; [|done].
    right. rewrite Hf1 in Hfiles.
    set (d := temp_path E name) in *.
    set (oks := pool_ok E url (Some d) (sent st1) order) in *.
    assert (segment_files st2 ≠ []) as Hne.
    { rewrite Hfiles, Hst.
      intros [_ Hnil%fmap_nil_inv%fmap_nil_inv]%app_eq_nil.
      injection Hr as Hr. symmetry in Hr. apply bool_decide_eq_true_1 in Hr.
      pose proof (length_succeeded_failed order oks (length_pool_ok _ _ _ _ _)) as Hl.
      rewrite Hnil, Hr, Hord, length_tasks_of in Hl. simpl in Hl.
      destruct (segments pl); [done|simpl in Hl; lia]. }
    pose proof (convert_run E pl out st2 _ Hne Htd) as Hcr. cbv zeta in Hcr.
    rewrite Hcv in Hcr. injection Hcr as _ ->.
    cbn [trace add_events] in Ht3. apply app_inv_head in Ht3 as <-.
    rewrite Hfiles. eauto 10.
Qed.

Lemma elem_of_conversion_events e d files out w1 c w2 t :
  e ∈ conversion_events d files out w1 c w2 t →
  match e with
  | EWriteLines f l =>
      f = os_path_join d "concat.txt" ∧ l = concat_lines (sorted files)
  | EFfmpeg v a c o =>
      c = os_path_join d "concat.txt" ∧ o = output_name out files
  | EPrint _ => True
  | _ => False
  end.
Proof.
  unfold conversion_events. cbv zeta.
  intros Hin%list_elem_of_In.
  destruct w1, c, w2, t; simpl in Hin;
    repeat (destruct Hin as [<-|Hin]; [done|]); done.
Qed.

(** X19: a run writes nothing outside the directory it made, but the
    output of ffmpeg: every segment file and the concat file lie in that
    directory, and every run of ffmpeg reads that concat file and writes to
    the output path given or, without one, to the name made from the number
    of files. *)
Theorem writes_stay_in_temp_dir
    (E : env) (url : string) (out q : option string) (K : Z)
    (h : option string) (inp : list input_item) :
  let run := download_m3u8 E url out q K h (init inp) in
  let T := trace run.2 in
  (∀ f payload, EWriteBytes f payload ∈ T →
     ∃ d i, mkdtemp_calls T = [d] ∧ f = segment_file_name d i)
  ∧ (∀ f lines, EWriteLines f lines ∈ T →
       ∃ d, mkdtemp_calls T = [d] ∧ f = os_path_join d "concat.txt")
  ∧ (∀ vcodec acodec concat_file o, EFfmpeg vcodec acodec concat_file o ∈ T →
       ∃ d, mkdtemp_calls T = [d]
            ∧ concat_file = os_path_join d "concat.txt"
            ∧ o = match truthy out with
                  | Some p => p
                  | None => "downloaded_video_"
                            +:+ PyStr.of_N (N.of_nat (length (stored_files T)))
                            +:+ "_segments.mp4"
                  end).
Proof.
  intros run T. subst T run.
  destruct (run_parts E url out q K h (init inp))
    as (e_front & e_fetch & e_conv & e_wrap & e_clean & -> & F1 & F2 & F3 & F4
        & F5 & Hstored & Hconv).
  cbn [trace init app].
  destruct (observe_stages _ _ _ _ _ F1 F2 F3 F4 F5)
    as (_ & _ & _ & _ & Hst & _ & _ & Hmk & _).
  cbv zeta in Hst, Hmk. rewrite Hst, Hmk.
  split_and!.
  - intros f payload Hin.
    apply (elem_of_stages _ _ _ _ _ _ F1 F2 F3 F4 F5) in Hin. simpl in Hin.
    apply Hstored, list_elem_of_omap. by exists (EWriteBytes f payload).
  - intros f lines Hin.
    apply (elem_of_stages _ _ _ _ _ _ F1 F2 F3 F4 F5) in Hin. simpl in Hin.
    destruct Hconv as [->|(d & w1 & c & w2 & t & Hd & ->)];
      [by apply elem_of_nil in Hin|].
    apply elem_of_conversion_events in Hin as [-> _]. by exists d.
  - intros v a c o Hin.
    apply (elem_of_stages _ _ _ _ _ _ F1 F2 F3 F4 F5) in Hin. simpl in Hin.
    destruct Hconv as [->|(d & w1 & c' & w2 & t & Hd & ->)];
      [by apply elem_of_nil in Hin|].
    apply elem_of_conversion_events in Hin as [-> ->]. by exists d.
Qed.

(** X21: the list of segment files of the object is never emptied: when a
    run starts on an object that has files from an earlier run, every list
    written to the concat file holds them with the files of this run. *)
Theorem conversion_keeps_earlier_files
    (E : env) (url : string) (out q : option string) (K : Z)
    (h : option string) (st : state) :
  let run := download_m3u8 E url out q K h st in
  ∃ evs,
    trace run.2 = trace st ++ evs
    ∧ ∀ lines, lines ∈ concat_writes evs →
        lines = concat_lines (sorted (segment_files st ++ stored_files evs)).
Proof.
  intros run. subst run.
  destruct (run_parts E url out q K h st)
    as (e_front & e_fetch & e_conv & e_wrap & e_clean & -> & F1 & F2 & F3 & F4
        & F5 & _ & Hconv).
  eexists. split; [done|].
  destruct (observe_stages _ _ _ _ _ F1 F2 F3 F4 F5)
    as (_ & _ & _ & _ & Hst & _ & _ & _ & _ & Hcw & _).
  cbv zeta in Hst, Hcw. rewrite Hst, Hcw.
  intros lines (e & He & Hl)%list_elem_of_omap.
  destruct Hconv as [->|(d & w1 & c & w2 & t & Hd & ->)];
    [by apply elem_of_nil in He|].
  apply elem_of_conversion_events in He.
  destruct e; try done. destruct He as [_ ->]. by injection Hl as <-.
Qed.

(** X22: [_cleanup] leaves [temp_dir] set; called again after the removal
    succeeded, it finds the directory gone and does nothing: no second
    removal is attempted and nothing is printed. *)
Theorem cleanup_twice_is_cleanup_once (E : env) (st : state) :
  (∀ d, temp_dir st = Some d → rmtree_ok E d = true) →
  temp_dir (_cleanup E st).2 = temp_dir st
  ∧ _cleanup E (_cleanup E st).2 = (Ok (), (_cleanup E st).2).
Proof.
  intros Hok.
  destruct (temp_dir st) as [d|] eqn:Hd.
  2:{ rewrite (cleanup_none E st Hd). simpl. by rewrite (cleanup_none E st Hd). }
  destruct (decide (d ≠ "" ∧ d ∈ dirs st)) as [[Hne Hin]|Hno].
  - destruct (cleanup_spec E st) as (st' & evs & Hc & _ & _ & _ & _ & Htd & Hcase).
    rewrite Hd, (bool_decide_eq_true_2 _ Hne), (bool_decide_eq_true_2 _ Hin) in Hcase.
    cbn [andb] in Hcase. rewrite (Hok d eq_refl) in Hcase.
    destruct Hcase as [_ Hdirs].
    rewrite Hc. cbn [snd]. split; [by rewrite Htd|].
    unfold _cleanup, bind, get. rewrite Htd, Hd, Hdirs.
    rewrite (bool_decide_eq_false_2 (d ∈ dirs st ∖ {[d]})).
    + by rewrite andb_false_r.
    + apply not_elem_of_difference. right. by apply elem_of_singleton.
  - assert (_cleanup E st = (Ok (), st)) as Hc.
    { unfold _cleanup, bind, get. rewrite Hd.
      destruct (bool_decide (d ≠ "")) eqn:H1;
        destruct (bool_decide (d ∈ dirs st)) eqn:H2; try done.
      apply bool_decide_eq_true_1 in H1, H2. by destruct Hno. }
    rewrite Hc. simpl. by rewrite Hc.
Qed.

Lemma cleanup_twice_is_cleanup_once_witness :
  let E := Demo.world [] [] true true in
  let st := {| temp_dir := Some "/tmp/m3u8_download_k3x9"; segment_files := [];
               trace := []; sent := 0; stdin := [];
               dirs := {["/tmp/m3u8_download_k3x9"]} |} in
  temp_dir (_cleanup E st).2 = temp_dir st
  ∧ _cleanup E (_cleanup E st).2 = (Ok (), (_cleanup E st).2).
Proof.
  intros E st. by apply (cleanup_twice_is_cleanup_once E st).
Defined.

(** ** The command line *)



Lemma elem_of_pool_events E base d f payload ts : ∀ k,
  EWriteBytes f payload ∈ pool_events E base (Some d) k ts →
  ∃ t k' r, t ∈ ts
    ∧ (k ≤ k' < k + length (pool_requests E base ts))%nat
    ∧ f = segment_file_name d t.2
    ∧ http E k' (urljoin E base (segment_uri t.1)) = Responded r
    ∧ ¬ (400 ≤ status_code r < 600)%Z
    ∧ payload = content r.
Proof.
  induction ts as [|t ts IH]; intros k; cbn [pool_events];
    [by intros ?%elem_of_nil|].
  change (pool_requests E base (t :: ts))
    with (task_requests E base t ++ pool_requests E base ts).
  rewrite length_app, elem_of_app. intros [Hin|Hin].
  - exists t, k.
    unfold task_events, task_requests, task_result, segment_outcome in Hin |- *.
    apply list_elem_of_In in Hin.
    destruct (urljoin_raises E base (segment_uri t.1)); simpl in Hin |- *.
    { by destruct Hin as [?|[]]. }
    destruct (http E k (urljoin E base (segment_uri t.1))) as [r|e] eqn:Hh.
    + exists r. case_bool_decide as Hs.
      * by destruct Hin as [?|[?|[]]].
      * destruct (store_ok E k _).
        -- destruct Hin as [?|[[= <- <-]|[?|[]]]]; try done.
           split_and!; try done; [apply list_elem_of_here|lia..].
        -- by destruct Hin as [?|[?|[]]].
    + by destruct Hin as [?|[?|[]]].
  - destruct (IH _ Hin) as (t' & k' & r & Hj & Hk & Hf & Hh & Hs & Hp).
    exists t', k', r. split_and!; try done; [by apply list_elem_of_further|lia..].
Qed.

(** X25: what the pool stores in the file of the segment number [i] is
    the body of a response, of no error status, to a request sent during
    this call to the address of that segment. *)
Theorem stored_file_holds_segment_response
    (E : env) (pl : M3U8) (base : string) (K : Z) (st : state)
    (f payload : string) :
  let run := _download_segments E pl base K st in
  EWriteBytes f payload ∈ drop (length (trace st)) (trace run.2) →
  ∃ d i seg k r,
    temp_dir run.2 = Some d ∧ f = segment_file_name d i
    ∧ segments pl !! i = Some seg
    ∧ (sent st ≤ k < sent run.2)%nat
    ∧ http E k (urljoin E base (segment_uri seg)) = Responded r
    ∧ ¬ (400 ≤ status_code r < 600)%Z
    ∧ payload = content r.
Proof.
  intros run. subst run.
  destruct (download_segments_spec E pl base K st)
    as (r1 & st2 & evs & -> & Htr & _ & Hcases).
  cbn [snd]. rewrite Htr, drop_app_length.
  cbv zeta in Hcases.
  destruct Hcases as [(_ & _ & -> & _)|[(_ & _ & _ & -> & _)|(name & Hcase)]].
  { rewrite !elem_of_cons, elem_of_nil. by intros [?|[]]. }
  { by intros ?%elem_of_nil. }
  cbv zeta in Hcase.
  destruct Hcase as (_ & _ & Htd & _
                     & [(_ & _ & -> & _)|(_ & order & Hord & _ & -> & _ & Hsent)]).
  { rewrite !elem_of_cons, elem_of_nil. by intros [?|[?|[]]]. }
  rewrite !elem_of_app. intros [Hin|[Hin|Hin]].
  - rewrite !elem_of_cons, elem_of_nil in Hin. by destruct Hin as [?|[?|[]]].
  - apply elem_of_pool_events
      in Hin as ([seg i] & k & r & Hj & Hk & -> & Hh & Hs & ->).
    exists (temp_path E name), i, seg, k, r.
    split_and!; try done; [|lia..].
    apply elem_of_tasks_of. by rewrite <- Hord.
  - case_bool_decide; [by apply elem_of_nil in Hin|].
    rewrite !elem_of_cons, elem_of_nil in Hin. by destruct Hin as [?|[]].
Qed.

Lemma stored_file_holds_segment_response_witness :
  let E := Demo.world ["https://cdn.example.com/v/s2.ts"] [0; 2; 1]%nat true true in
  let run := _download_segments E Demo.media Demo.master_url 3 (init []) in
  ∃ d i seg k r,
    temp_dir run.2 = Some d
    ∧ "/tmp/m3u8_download_k3x9/segment_00004.ts" = segment_file_name d i
    ∧ segments Demo.media !! i = Some seg
    ∧ (sent (init []) ≤ k < sent run.2)%nat
    ∧ http E k (urljoin E Demo.master_url (segment_uri seg)) = Responded r
    ∧ ¬ (400 ≤ status_code r < 600)%Z
    ∧ "https://cdn.example.com/v/s4.ts" = content r.
Proof.
  apply (stored_file_holds_segment_response
           (Demo.world ["https://cdn.example.com/v/s2.ts"] [0; 2; 1]%nat true true)
           Demo.media Demo.master_url 3 (init [])).
  apply list_elem_of_In. vm_compute.
  repeat (first [left; reflexivity | right]).
Defined.
